(** * AArch64 query tools: opcode decoder and register query resolver

    A shallow embedding of [cpp_source/query_isa.cpp] and
    [cpp_source/query_register.cpp], followed by the properties of the
    decoding and query engine.

    Conventions of the embedding:
    - [std::string] is [string]; positions and lengths are [nat];
    - [uint32_t] and [int] values are [Z], with the 32-bit wrap-around of
      unsigned arithmetic written out ([u32]);
    - the two output streams are strings that grow by appending; a run ends
      by returning or exiting with a status, or by an exception that nothing
      catches;
    - the generated tables ([encoding_data.h], [register_data.h]) are
      arguments of the functions that read them. *)

From Stdlib Require Import ZArith String Ascii List Lia Bool.
From Stdlib Require Import DecimalString HexadecimalString.
From Stdlib Require OrderedTypeEx DecimalN HexadecimalN HexadecimalFacts.
From stdpp Require Import base gmap strings.
Import ListNotations.
Local Open Scope string_scope.

(** ** std::string operations *)

Module Str.

(** the end-of-line written by [std::endl] *)
Definition nl : string := String (ascii_of_nat 10) "".

Fixpoint starts_with (p s : string) : bool :=
  match p, s with
  | "", _ => true
  | String _ _, "" => false
  | String a p', String b s' => Ascii.eqb a b && starts_with p' s'
  end.

(** [s.find(p)]: position of the first occurrence, [None] for [npos] *)
Fixpoint find (p s : string) : option nat :=
  if starts_with p s then Some 0%nat
  else match s with
       | "" => None
       | String _ s' => option_map S (find p s')
       end.

Fixpoint take (n : nat) (s : string) : string :=
  match n, s with
  | S n', String c s' => String c (take n' s')
  | _, _ => ""
  end.

Fixpoint drop (n : nat) (s : string) : string :=
  match n, s with
  | S n', String _ s' => drop n' s'
  | _, _ => s
  end.

(** [s.substr(pos, n)] and [s.substr(pos)] for [pos <= s.size()] *)
Definition substr (s : string) (pos n : nat) : string := take n (drop pos s).
Definition substr_from (s : string) (pos : nat) : string := drop pos s.

(** [s.replace(pos, n, r)]; [s.erase(pos, n)] is [replace s pos n ""] *)
Definition replace (s : string) (pos n : nat) (r : string) : string :=
  take pos s ++ r ++ drop (pos + n) s.

(** [while ((pos = s.find(pat)) != npos) s.replace(pos, pat.size(), r);] *)
Fixpoint replace_loop (fuel : nat) (pat r s : string) : string :=
  match fuel with
  | O => s
  | S fuel' =>
      match find pat s with
      | Some pos => replace_loop fuel' pat r (replace s pos (String.length pat) r)
      | None => s
      end
  end.

Definition replace_all (pat r s : string) : string :=
  replace_loop (S (String.length s)) pat r s.

Fixpoint mem (c : ascii) (s : string) : bool :=
  match s with
  | "" => false
  | String a s' => Ascii.eqb a c || mem c s'
  end.

Fixpoint all (p : ascii -> bool) (s : string) : bool :=
  match s with
  | "" => true
  | String a s' => p a && all p s'
  end.

Fixpoint any (p : ascii -> bool) (s : string) : bool :=
  match s with
  | "" => false
  | String a s' => p a || any p s'
  end.

Definition tail (s : string) : string :=
  match s with
  | "" => ""
  | String _ s' => s'
  end.

Definition is_empty (s : string) : bool :=
  match s with "" => true | _ => false end.

(** longest prefix whose characters satisfy [p], and the rest *)
Fixpoint span (p : ascii -> bool) (s : string) : string * string :=
  match s with
  | "" => ("", "")
  | String a s' =>
      if p a then let '(l, r) := span p s' in (String a l, r)
      else ("", s)
  end.

Fixpoint rev_onto (s acc : string) : string :=
  match s with
  | "" => acc
  | String a s' => rev_onto s' (String a acc)
  end.

Definition rev (s : string) : string := rev_onto s "".

Definition code (c : ascii) : Z := Z.of_N (N_of_ascii c).

Definition in_range (lo hi : Z) (c : ascii) : bool :=
  (lo <=? code c)%Z && (code c <=? hi)%Z.

Definition is_digit : ascii -> bool := in_range 48 57.
Definition is_upper : ascii -> bool := in_range 65 90.
Definition is_lower : ascii -> bool := in_range 97 122.

(** [std::isspace] in the "C" locale *)
Definition is_space (c : ascii) : bool :=
  in_range 9 13 c || (code c =? 32)%Z.

End Str.

(** a run of characters of the class [p] ends where [s] begins: [s] is empty
    or starts outside the class *)
Definition stops (p : ascii -> bool) (s : string) : Prop :=
  match s with
  | "" => True
  | String c _ => p c = false
  end.

(** ** Numbers: 32-bit wrap-around, printing and parsing *)

Definition u32 (z : Z) : Z := z mod 2 ^ 32.

Definition INT_MAX : Z := 2 ^ 31 - 1.
Definition INT_MIN : Z := - 2 ^ 31.
(** [unsigned long] of the LP64 targets the build notes name
    (x86-64 and AArch64 Linux) *)
Definition ULONG_MAX : Z := 2 ^ 64 - 1.

(** [std::to_string] and [operator<<] on a non-negative integer *)
Definition dec_string (z : Z) : string :=
  DecimalString.NilZero.string_of_uint (N.to_uint (Z.to_N z)).

(** [operator<<(int)] *)
Definition to_string (z : Z) : string :=
  if (z <? 0)%Z then "-" ++ dec_string (- z) else dec_string z.

(** [std::hex << v], lower case, no padding *)
Definition hex_string (z : Z) : string :=
  HexadecimalString.NilZero.string_of_uint (N.to_hex_uint (Z.to_N z)).

Fixpoint fill (n : nat) (c : ascii) : string :=
  match n with
  | O => ""
  | S n' => String c (fill n' c)
  end.

(** [std::setw(w) << std::setfill(c)]: pad on the left up to width [w] *)
Definition setw (w : nat) (c : ascii) (s : string) : string :=
  fill (w - String.length s) c ++ s.

Inductive exn : Set :=
| invalid_argument
| out_of_range.

Definition digit_value (base : Z) (c : ascii) : option Z :=
  let n := Str.code c in
  let d := if Str.is_digit c then Some (n - 48)%Z
           else if Str.is_lower c then Some (n - 87)%Z
           else if Str.is_upper c then Some (n - 55)%Z
           else None in
  match d with
  | Some v => if (v <? base)%Z then Some v else None
  | None => None
  end.

(** the digits of [strtol]/[strtoul]: the value of the longest prefix of
    valid digits (the characters after it are not looked at), and how many
    digits were read *)
Fixpoint read_digits (base : Z) (s : string) (acc : Z) (n : nat) : Z * nat :=
  match s with
  | "" => (acc, n)
  | String c s' =>
      match digit_value base c with
      | Some d => read_digits base s' (acc * base + d)%Z (S n)
      | None => (acc, n)
      end
  end.

Fixpoint skip_spaces (s : string) : string :=
  match s with
  | String c s' => if Str.is_space c then skip_spaces s' else s
  | "" => ""
  end.

(** an optional sign *)
Definition strip_sign (s : string) : bool * string :=
  match s with
  | String c r =>
      if Ascii.eqb c "-" then (true, r)
      else if Ascii.eqb c "+" then (false, r)
      else (false, s)
  | "" => (false, s)
  end.

(** with base 16, a [0x]/[0X] in front of a hexadecimal digit is skipped *)
Definition strip_0x (base : Z) (s : string) : string :=
  match s with
  | String z (String x (String h r)) =>
      if (base =? 16)%Z && Ascii.eqb z "0"
         && (Ascii.eqb x "x" || Ascii.eqb x "X")
         && match digit_value 16 h with Some _ => true | None => false end
      then String h r else s
  | _ => s
  end.

(** sign and magnitude read by [strtol]/[strtoul]; [None] when no
    conversion could be performed *)
Definition strto (base : Z) (s : string) : option (bool * Z) :=
  let '(neg, s2) := strip_sign (skip_spaces s) in
  let '(v, n) := read_digits base (strip_0x base s2) 0%Z 0%nat in
  match n with
  | O => None
  | S _ => Some (neg, v)
  end.

(** [std::stoul(s, nullptr, base)] *)
Definition stoul (s : string) (base : Z) : exn + Z :=
  match strto base s with
  | None => inl invalid_argument
  | Some (neg, v) =>
      if (ULONG_MAX <? v)%Z then inl out_of_range
      else inr (if neg then (- v) mod (ULONG_MAX + 1) else v)%Z
  end.

(** [std::stoi(s)] *)
Definition stoi (s : string) : exn + Z :=
  match strto 10 s with
  | None => inl invalid_argument
  | Some (neg, v) =>
      let z := (if neg then - v else v)%Z in
      if ((z <? INT_MIN) || (INT_MAX <? z))%Z%bool then inl out_of_range
      else inr z
  end.

(** ** How a run ends *)

Inductive outcome : Set :=
| Finished (stdout stderr : string) (status : Z)
    (* main returned, or exit() was called, with this status *)
| Uncaught (stdout stderr : string) (e : exn)
    (* an exception left main: std::terminate *).

Definition stdout_of (o : outcome) : string :=
  match o with Finished a _ _ | Uncaught a _ _ => a end.

Definition stderr_of (o : outcome) : string :=
  match o with Finished _ b _ | Uncaught _ b _ => b end.

(** ** query_isa.cpp *)

Module Isa.

(** [struct EncodingPattern] of the generated [encoding_data.h]:
    [bit_fields] is the array of 32 labels, bit 31 first. *)
Record EncodingPattern : Set := {
  fixed_mask : Z;
  fixed_bits : Z;
  bit_fields : list string;
  asm_template : string
}.

(** *** parse_opcode *)

(** what [parse_opcode] does: it returns the value, or ends the process *)
Inductive parsed : Set :=
| Value (v : Z)
| Exit (stderr : string) (status : Z)
| Throw (e : exn).

Definition remove_separators (opcode_str : string) : string :=
  let fix go (s : string) : string :=
    match s with
    | "" => ""
    | String c s' =>
        if negb (Ascii.eqb c "_") && negb (Ascii.eqb c ":")
        then String c (go s') else go s'
    end in
  go opcode_str.

Definition parse_opcode (opcode_str : string) : parsed :=
  let cleaned := remove_separators opcode_str in
  let prefix := Str.substr cleaned 0 2 in
  if String.eqb prefix "0x" || String.eqb prefix "0X" then
    match stoul (Str.substr_from cleaned 2) 16 with
    | inr v => Value (u32 v)
    | inl e => Throw e
    end
  else if String.eqb prefix "0b" || String.eqb prefix "0B" then
    match stoul (Str.substr_from cleaned 2) 2 with
    | inr v => Value (u32 v)
    | inl e => Throw e
    end
  else
    Exit ("Error: Opcode must start with 0x (hex) or 0b (binary)" ++ Str.nl) 1.

(** *** build_assembly: field extraction *)

Definition is_literal (field : string) : bool :=
  String.eqb field "0" || String.eqb field "1".

(** [std::map<std::string, std::vector<int>>]: the entries in ascending key
    order, which is the order the range-for visits them in *)
Definition bits_map : Set := list (string * list Z).

(** [m[key].push_back(v)] *)
Fixpoint push_back (key : string) (v : Z) (m : bits_map) : bits_map :=
  match m with
  | [] => [(key, [v])]
  | (k, vs) :: m' =>
      match String.compare key k with
      | Eq => (k, (vs ++ [v])%list) :: m'
      | Lt => (key, [v]) :: m
      | Gt => (k, vs) :: push_back key v m'
      end
  end.

Fixpoint lookup_bits (key : string) (m : bits_map) : option (list Z) :=
  match m with
  | [] => None
  | (k, vs) :: m' => if String.eqb key k then Some vs else lookup_bits key m'
  end.

(** the first loop: label [i] of the array stands for bit [31 - i] *)
Definition collect_step (bit_fields : list string)
  (field_bits : bits_map) (i : nat) : bits_map :=
  let field := nth i bit_fields "" in
  if negb (is_literal field)
  then push_back field (31 - Z.of_nat i) field_bits
  else field_bits.

Definition collect_field_bits (bit_fields : list string) : bits_map :=
  fold_left (collect_step bit_fields) (seq 0 32) [].

(** [(opcode >> bit_pos) & 1] *)
Definition opcode_bit (opcode bit_pos : Z) : Z :=
  Z.land (Z.shiftr opcode bit_pos) 1.

(** the inner loop over [bits[i]], [i = 0 .. bits.size() - 1] *)
Definition value_step (opcode size : Z) (st : Z * Z) (bit_pos : Z) : Z * Z :=
  let '(value, i) := st in
  ((if (opcode_bit opcode bit_pos =? 0)%Z then value
    else u32 (Z.lor value (Z.shiftl 1 (size - 1 - i)))), (i + 1)%Z).

Definition field_value (opcode : Z) (bits : list Z) : Z :=
  let size := Z.of_nat (length bits) in
  fst (fold_left (value_step opcode size) bits (0%Z, 0%Z)).

(** *** extract_field *)

(** the body of the loop of [extract_field], for [i = 31 - j]: the state is
    [(value, shift)] *)
Definition extract_field_step (opcode : Z) (bit_fields : list string)
  (st : Z * Z) (j : nat) : Z * Z :=
  let '(value, shift) := st in
  if negb (is_literal (nth j bit_fields "")) then
    ((if (opcode_bit opcode (31 - Z.of_nat j) =? 0)%Z then value
      else u32 (Z.lor value (Z.shiftl 1 shift))), (shift + 1)%Z)
  else st.

Definition extract_field (opcode : Z) (bit_fields : list string) : Z :=
  fst (fold_left (extract_field_step opcode bit_fields) (seq 0 32) (0%Z, 0%Z)).

(** the locals that the loop over [field_bits] fills *)
Record operands : Type := {
  reg_values : gmap string Z;
  imm_values : gmap string Z;
  shift_value : Z;
  has_shift : bool;
  crm_value : Z;
  op2_value : Z;
  has_crm : bool;
  has_op2 : bool
}.

Definition no_operands : operands :=
  {| reg_values := ∅; imm_values := ∅; shift_value := 0; has_shift := false;
     crm_value := 0; op2_value := 0; has_crm := false; has_op2 := false |}.

Definition set_reg (k : string) (v : Z) (o : operands) : operands :=
  {| reg_values := <[k := v]> (reg_values o); imm_values := imm_values o;
     shift_value := shift_value o; has_shift := has_shift o;
     crm_value := crm_value o; op2_value := op2_value o;
     has_crm := has_crm o; has_op2 := has_op2 o |}.

Definition set_imm (k : string) (v : Z) (o : operands) : operands :=
  {| reg_values := reg_values o; imm_values := <[k := v]> (imm_values o);
     shift_value := shift_value o; has_shift := has_shift o;
     crm_value := crm_value o; op2_value := op2_value o;
     has_crm := has_crm o; has_op2 := has_op2 o |}.

Definition set_shift (v : Z) (o : operands) : operands :=
  {| reg_values := reg_values o; imm_values := imm_values o;
     shift_value := v; has_shift := true;
     crm_value := crm_value o; op2_value := op2_value o;
     has_crm := has_crm o; has_op2 := has_op2 o |}.

Definition set_crm (v : Z) (o : operands) : operands :=
  {| reg_values := reg_values o; imm_values := imm_values o;
     shift_value := shift_value o; has_shift := has_shift o;
     crm_value := v; op2_value := op2_value o;
     has_crm := true; has_op2 := has_op2 o |}.

Definition set_op2 (v : Z) (o : operands) : operands :=
  {| reg_values := reg_values o; imm_values := imm_values o;
     shift_value := shift_value o; has_shift := has_shift o;
     crm_value := crm_value o; op2_value := v;
     has_crm := has_crm o; has_op2 := true |}.

(** [name.find(p) == 0] *)
Definition find_at_0 (p name : string) : bool :=
  match Str.find p name with
  | Some O => true
  | _ => false
  end.

(** the if/else-if chain on [field_name] *)
Definition categorize (field_name : string) (value : Z) (o : operands) : operands :=
  if String.eqb field_name "Rd" then set_reg "Rd" value o
  else if String.eqb field_name "Rn" then set_reg "Rn" value o
  else if String.eqb field_name "Rm" then set_reg "Rm" value o
  else if String.eqb field_name "Rt" then set_reg "Rt" value o
  else if find_at_0 "imm" field_name then set_imm "imm" value o
  else if find_at_0 "off" field_name || String.eqb field_name "simm"
       then set_imm "offs" value o
  else if String.eqb field_name "sh" then set_shift value o
  else if String.eqb field_name "CRm" then set_crm value o
  else if String.eqb field_name "op2" then set_op2 value o
  else o.

(** the loop over [field_bits] *)
Definition extract_step (opcode : Z) (o : operands) (field_pair : string * list Z)
  : operands :=
  categorize (fst field_pair) (field_value opcode (snd field_pair)) o.

Definition extract_values (opcode : Z) (field_bits : bits_map) : operands :=
  fold_left (extract_step opcode) field_bits no_operands.

(** "For HINT instruction, combine CRm and op2" *)
Definition combine_crm_op2 (o : operands) : operands :=
  if has_crm o && has_op2 o
     && match imm_values o !! "imm" with None => true | Some _ => false end
  then set_imm "imm" (u32 (Z.lor (u32 (Z.shiftl (crm_value o) 3)) (op2_value o))) o
  else o.

Definition extract_operands (opcode : Z) (bit_fields : list string) : operands :=
  combine_crm_op2 (extract_values opcode (collect_field_bits bit_fields)).

(** *** build_assembly: template substitution *)

(** the [Rd] block *)
Definition replace_rd (rd : Z) (assembly : string) : string :=
  let reg_str := if (rd =? 31)%Z then "sp" else "x" ++ dec_string rd in
  let reg_str_w := if (rd =? 31)%Z then "wsp" else "w" ++ dec_string rd in
  let assembly := Str.replace_all "<Xd|SP>" reg_str assembly in
  let assembly := Str.replace_all "<Xd>" reg_str assembly in
  let assembly := Str.replace_all "<Wd|WSP>" reg_str_w assembly in
  let assembly := Str.replace_all "<Wd>" reg_str_w assembly in
  Str.replace_all "<Wt>" reg_str_w assembly.

(** the [Rn] block *)
Definition replace_rn (rn : Z) (assembly : string) : string :=
  let reg_str := if (rn =? 31)%Z then "sp" else "x" ++ dec_string rn in
  let reg_str_w := if (rn =? 31)%Z then "wsp" else "w" ++ dec_string rn in
  let assembly := Str.replace_all "<Xn|SP>" reg_str assembly in
  let assembly := Str.replace_all "<Xn>" reg_str assembly in
  let assembly := Str.replace_all "<Wn|WSP>" reg_str_w assembly in
  Str.replace_all "<Wn>" reg_str_w assembly.

(** the [Rm] block *)
Definition replace_rm (rm : Z) (assembly : string) : string :=
  let reg_str := "x" ++ dec_string rm in
  let reg_str_w := "w" ++ dec_string rm in
  let assembly := Str.replace_all "<Xm>" reg_str assembly in
  let assembly := Str.replace_all "<R><m>" reg_str assembly in
  Str.replace_all "<Wm>" reg_str_w assembly.

(** the [Rt] block *)
Definition replace_rt (rt : Z) (assembly : string) : string :=
  let reg_str := "x" ++ dec_string rt in
  let reg_str_w := "w" ++ dec_string rt in
  let assembly := Str.replace_all "<Xt>" reg_str assembly in
  Str.replace_all "<Wt>" reg_str_w assembly.

(** "Replace immediate values (always use hex format)" *)
Definition replace_imm (imm : Z) (assembly : string) : string :=
  let imm_hex := "#0x" ++ hex_string imm in
  let assembly := Str.replace_all "#<imm>" imm_hex assembly in
  let imm_hex_no_hash := "0x" ++ hex_string imm in
  Str.replace_all "<imm>" imm_hex_no_hash assembly.

Definition replace_offs (offs : Z) (assembly : string) : string :=
  let offs_hex := "0x" ++ hex_string offs in
  let assembly := Str.replace_all "<offs>" offs_hex assembly in
  Str.replace_all "<simm>" offs_hex assembly.

(** "Handle shift field" *)
Definition replace_shift (shift_value : Z) (assembly : string) : string :=
  if (shift_value =? 0)%Z then
    Str.replace_all "{, <shift>}" "" assembly
  else
    let assembly := Str.replace_all "<shift>" "lsl #12" assembly in
    let assembly := Str.replace_all "{, " ", " assembly in
    Str.replace_all "}" "" assembly.

(** "Clean up remaining optional parts" *)
Definition remove_optional (assembly : string) : string :=
  let assembly := Str.replace_all "{, <shift>}" "" assembly in
  let assembly := Str.replace_all "{, <extend> {#<amount>}}" "" assembly in
  Str.replace_all "{, <shift> #<amount>}" "" assembly.

(** "Clean up extra spaces": the loop state is the stream [ss], the current
    [word] and the flag [first] *)
Definition clean_step (st : string * string * bool) (c : ascii)
  : string * string * bool :=
  let '(ss, word, first) := st in
  if Ascii.eqb c " " then
    if negb (Str.is_empty word)
    then ((if negb first then ss ++ " " else ss) ++ word, "", false)
    else st
  else (ss, word ++ String c "", first).

Definition clean_spaces (assembly : string) : string :=
  let '(ss, word, first) :=
    fold_left clean_step (list_ascii_of_string assembly) ("", "", true) in
  if negb (Str.is_empty word)
  then (if negb first then ss ++ " " else ss) ++ word
  else ss.

(** an [if (m.find(key) != m.end())] block *)
Definition when_present (v : option Z) (f : Z -> string -> string)
  (assembly : string) : string :=
  match v with
  | Some x => f x assembly
  | None => assembly
  end.

(** everything after the operands are known *)
Definition render (asm_template : string) (o : operands) : string :=
  let assembly := asm_template in
  let assembly := when_present (reg_values o !! "Rd") replace_rd assembly in
  let assembly := when_present (reg_values o !! "Rn") replace_rn assembly in
  let assembly := when_present (reg_values o !! "Rm") replace_rm assembly in
  let assembly := when_present (reg_values o !! "Rt") replace_rt assembly in
  let assembly := when_present (imm_values o !! "imm") replace_imm assembly in
  let assembly := when_present (imm_values o !! "offs") replace_offs assembly in
  let assembly :=
    if has_shift o then replace_shift (shift_value o) assembly else assembly in
  let assembly := remove_optional assembly in
  clean_spaces assembly.

Definition build_assembly (asm_template : string) (opcode : Z)
  (bit_fields : list string) : string :=
  render asm_template (extract_operands opcode bit_fields).

(** *** query_by_opcode and main *)

Definition matches (opcode : Z) (enc : EncodingPattern) : bool :=
  (Z.land opcode (fixed_mask enc) =? fixed_bits enc)%Z.

(** the loop body, on the state [(std::cout, found)] *)
Definition visit (opcode : Z) (st : string * bool) (enc : EncodingPattern)
  : string * bool :=
  let '(cout, found) := st in
  if matches opcode enc then
    let assembly := build_assembly (asm_template enc) opcode (bit_fields enc) in
    (cout ++ assembly ++ Str.nl, true)
  else st.

(** [encoding_arrays] stands for [ENCODINGS_0 .. ENCODINGS_9] with their
    sizes; the result is what was written to [std::cout] and [std::cerr]. *)
Definition query_by_opcode (encoding_arrays : list (list EncodingPattern))
  (opcode : Z) : string * string :=
  let '(cout, found) :=
    fold_left
      (fun st encodings => fold_left (visit opcode) encodings st)
      encoding_arrays ("", false) in
  if negb found then
    (cout, "No matching instruction found for opcode: 0x"
           ++ setw 8 "0" (hex_string opcode) ++ Str.nl)
  else (cout, "").

Definition usage : string :=
  "Usage: query_isa --op <OPCODE>" ++ Str.nl ++
  Str.nl ++
  "Decode AArch64 instruction opcode to ARM Assembler notation" ++ Str.nl ++
  Str.nl ++
  "Options:" ++ Str.nl ++
  "  --op <OPCODE>    Decode opcode (format: 0xHEX or 0bBINARY)" ++ Str.nl ++
  "  --help           Show this help message" ++ Str.nl ++
  Str.nl ++
  "Examples:" ++ Str.nl ++
  "  query_isa --op 0x91000000" ++ Str.nl ++
  "  query_isa --op 0x91_00_00_00              # With separators" ++ Str.nl ++
  "  query_isa --op 0b10010001000000000000000000000000" ++ Str.nl ++
  Str.nl ++
  "Separator characters (optional):" ++ Str.nl ++
  "  '_' or ':' can be used as 8-bit separators" ++ Str.nl.

(** [argv] includes the program name *)
Definition main (encoding_arrays : list (list EncodingPattern))
  (argv : list string) : outcome :=
  match argv with
  | [] | [_] => Finished usage "" 1
  | _ :: arg1 :: rest =>
      if String.eqb arg1 "--help" || String.eqb arg1 "-h" then
        Finished usage "" 0
      else if String.eqb arg1 "--op" then
        match rest with
        | [] => Finished "" ("Error: --op requires an opcode argument" ++ Str.nl) 1
        | opcode_str :: _ =>
            match parse_opcode opcode_str with
            | Value opcode =>
                let '(cout, cerr) := query_by_opcode encoding_arrays opcode in
                Finished cout cerr 0
            | Exit cerr status => Finished "" cerr status
            | Throw e => Uncaught "" "" e
            end
        end
      else
        Finished usage ("Error: Unknown option: " ++ arg1 ++ Str.nl) 1
  end.

End Isa.

(** ** query_register.cpp *)

Module Reg.

(** the records of the generated [register_data.h], with the members the
    query code reads *)
Record RegisterField : Set := {
  field_name : string;
  field_msb : Z;
  field_lsb : Z;
  field_position : string;
  field_definition : string
}.

Record RegisterInfo : Set := {
  feature_name : string;
  fields : list RegisterField
}.

Definition ALLOWED_DEFS : list string :=
  ["RES0"; "RES1"; "UNPREDICTABLE"; "UNDEFINED"; "RAO"; "UNKNOWN"].

(** [ALLOWED_DEFS.count(q)] as a condition *)
Definition allowed_def (q : string) : bool :=
  existsb (String.eqb q) ALLOWED_DEFS.

(** the double quote and the backslash of the C++ literals *)
Definition dq : string := String (ascii_of_nat 34) "".
Definition bs : string := String (ascii_of_nat 92) "".

Definition escape_char (c : ascii) : string :=
  let n := Str.code c in
  if (n =? 34)%Z then bs ++ dq
  else if (n =? 92)%Z then bs ++ bs
  else if (n =? 8)%Z then bs ++ "b"
  else if (n =? 12)%Z then bs ++ "f"
  else if (n =? 10)%Z then bs ++ "n"
  else if (n =? 13)%Z then bs ++ "r"
  else if (n =? 9)%Z then bs ++ "t"
  else if (n <? 32)%Z then bs ++ "u" ++ hex_string n
  else String c "".

Fixpoint escape_json (s : string) : string :=
  match s with
  | "" => ""
  | String c s' => escape_char c ++ escape_json s'
  end.

(** *** run_fielddef_query *)

Definition fielddef_entry_json (entry : string * string) : string :=
  "{" ++ dq ++ "register_name" ++ dq ++ ":" ++ dq ++ escape_json (fst entry)
  ++ dq ++ "," ++ dq ++ "field_name" ++ dq ++ ":" ++ dq
  ++ escape_json (snd entry) ++ dq ++ "}".

(** the JSON loop, with its [first] flag *)
Fixpoint fielddef_json (first : bool) (entries : list (string * string)) : string :=
  match entries with
  | [] => ""
  | entry :: rest =>
      (if negb first then "," ++ Str.nl else "")
      ++ fielddef_entry_json entry ++ fielddef_json false rest
  end.

Fixpoint fielddef_text (entries : list (string * string)) : string :=
  match entries with
  | [] => ""
  | entry :: rest => fst entry ++ "." ++ snd entry ++ Str.nl ++ fielddef_text rest
  end.

Definition run_fielddef_query
  (DEFINITION_TO_FIELDS : gmap string (list (string * string)))
  (def : string) (json_out : bool) : outcome :=
  match DEFINITION_TO_FIELDS !! def with
  | None =>
      Finished "" ("Error: No fields found with definition '" ++ def ++ "'" ++ Str.nl) 1
  | Some entries =>
      if json_out
      then Finished ("[" ++ fielddef_json true entries ++ "]" ++ Str.nl) "" 0
      else Finished (fielddef_text entries) "" 0
  end.

(** *** the query grammar *)

(** the character classes [[A-Z0-9_<>]], [[A-Z0-9_]] and [\d] *)
Definition is_field_char (c : ascii) : bool :=
  Str.is_upper c || Str.is_digit c || Ascii.eqb c "_".

Definition is_reg_char (c : ascii) : bool :=
  is_field_char c || Ascii.eqb c "<" || Ascii.eqb c ">".

(** the rest of [s] after the character [c], when [s] starts with it *)
Definition expect (c : ascii) (s : string) : option string :=
  match s with
  | String a r => if Ascii.eqb a c then Some r else None
  | "" => None
  end.

(** [(\d+)] *)
Definition digits1 (s : string) : option (string * string) :=
  let '(d, r) := Str.span Str.is_digit s in
  if Str.is_empty d then None else Some (d, r).

(** [\[(\d+)(?::(\d+))?\]$]: the two groups, the second one optional *)
Definition match_index (s : string) : option (string * option string) :=
  match expect "[" s with
  | None => None
  | Some s1 =>
      match digits1 s1 with
      | None => None
      | Some (d1, s2) =>
          match expect "]" s2 with
          | Some "" => Some (d1, None)
          | Some _ => None
          | None =>
              match expect ":" s2 with
              | None => None
              | Some s3 =>
                  match digits1 s3 with
                  | None => None
                  | Some (d2, s4) =>
                      match expect "]" s4 with
                      | Some "" => Some (d1, Some d2)
                      | _ => None
                      end
                  end
              end
          end
      end
  end.

(** [^([A-Z0-9_<>]+)\.([A-Z0-9_]+)] and what follows it. No character of
    a class is the delimiter after it, so the longest run is the only way
    to match. *)
Definition match_dot (q : string) : option (string * string * string) :=
  let '(reg, s1) := Str.span is_reg_char q in
  if Str.is_empty reg then None
  else match expect "." s1 with
       | None => None
       | Some s2 =>
           let '(field, s3) := Str.span is_field_char s2 in
           if Str.is_empty field then None else Some (reg, field, s3)
       end.

(** [^([A-Z0-9_<>]+)\.([A-Z0-9_]+)\[(\d+)(?::(\d+))?\]$] *)
Definition dot_bracket (q : string)
  : option (string * string * string * option string) :=
  match match_dot q with
  | Some (reg, field, rest) =>
      match match_index rest with
      | Some (d1, d2) => Some (reg, field, d1, d2)
      | None => None
      end
  | None => None
  end.

(** [^([A-Z0-9_<>]+)\.([A-Z0-9_]+)$] *)
Definition dot_only (q : string) : option (string * string) :=
  match match_dot q with
  | Some (reg, field, "") => Some (reg, field)
  | _ => None
  end.

(** [^([A-Z0-9_<>]+)(?:\[(\d+)(?::(\d+))?\])?$] *)
Definition bracket (q : string)
  : option (string * option (string * option string)) :=
  let '(reg, s1) := Str.span is_reg_char q in
  if Str.is_empty reg then None
  else match s1 with
       | "" => Some (reg, None)
       | _ => match match_index s1 with
              | Some idx => Some (reg, Some idx)
              | None => None
              end
       end.

(** *** run_register_query *)

(** the two [q.erase] calls *)
Definition trim (query : string) : string :=
  Str.rev (skip_spaces (Str.rev (skip_spaces query))).

(** [high], [low], then [start] and [end]; [std::stoi] may throw, and
    nothing catches it *)
Definition with_range (d1 : string) (d2 : option string)
  (k : Z -> Z -> outcome) : outcome :=
  match stoi d1 with
  | inl e => Uncaught "" "" e
  | inr high =>
      match (match d2 with Some d => stoi d | None => inr high end) with
      | inl e => Uncaught "" "" e
      | inr low => k (Z.min high low) (Z.max high low)
      end
  end.

Definition register_not_found (reg : string) : outcome :=
  Finished "" ("Error: Register '" ++ reg ++ "' not found in database." ++ Str.nl) 1.

Definition json_member (key value : string) : string :=
  dq ++ key ++ dq ++ ":" ++ dq ++ value ++ dq.

Definition field_json (fld : RegisterField) : string :=
  "{" ++ json_member "name" (escape_json (field_name fld)) ++ ","
  ++ json_member "position" (escape_json (field_position fld)) ++ "}".

(** the [fields] array, with the comma before every element but the first *)
Fixpoint fields_json (first : bool) (flds : list RegisterField) : string :=
  match flds with
  | [] => ""
  | fld :: rest =>
      (if first then "" else ",") ++ field_json fld ++ fields_json false rest
  end.

Fixpoint fields_text (flds : list RegisterField) : string :=
  match flds with
  | [] => ""
  | fld :: rest =>
      "  " ++ field_position fld ++ "  " ++ field_name fld ++ Str.nl
      ++ fields_text rest
  end.

(** the branch of the [dot_bracket] pattern *)
Definition query_field_range (REGISTER_DATABASE : gmap string RegisterInfo)
  (reg field : string) (start end_ : Z) (json_out : bool) : outcome :=
  match REGISTER_DATABASE !! reg with
  | None => register_not_found reg
  | Some info =>
      match List.find
              (fun fld => String.eqb (field_name fld) field
                          && (field_msb fld =? end_)%Z
                          && (field_lsb fld =? start)%Z)
              (fields info) with
      | Some fld =>
          Finished
            (if json_out then
               "{" ++ json_member "register_name" (escape_json reg) ++ ","
               ++ json_member "field_name" (escape_json field) ++ ","
               ++ json_member "field_position" (escape_json (field_position fld)) ++ ","
               ++ json_member "field_definition" (escape_json (field_definition fld))
               ++ "}" ++ Str.nl
             else
               "Register: " ++ reg ++ Str.nl
               ++ "Field Name: " ++ field ++ Str.nl
               ++ "Field Position: " ++ field_position fld ++ Str.nl)
            "" 0
      | None =>
          Finished ""
            ("Error: Field '" ++ field ++ "' exists but not at bit range ["
             ++ to_string end_ ++ ":" ++ to_string start ++ "] or not found." ++ Str.nl)
            1
      end
  end.

(** the branch of the [dot_only] pattern *)
Definition query_field (REGISTER_DATABASE : gmap string RegisterInfo)
  (reg field : string) (json_out : bool) : outcome :=
  match REGISTER_DATABASE !! reg with
  | None => register_not_found reg
  | Some info =>
      match List.find (fun fld => String.eqb (field_name fld) field) (fields info) with
      | None =>
          Finished ""
            ("Error: Field '" ++ field ++ "' not found in register '" ++ reg ++ "'"
             ++ Str.nl) 1
      | Some found_field =>
          Finished
            (if json_out then
               "{" ++ json_member "register_name" (escape_json reg) ++ ","
               ++ json_member "field_name" (escape_json field) ++ ","
               ++ json_member "field_position"
                    (escape_json (field_position found_field))
               ++ "}" ++ Str.nl
             else
               "Register: " ++ reg ++ Str.nl
               ++ "Field Name: " ++ field ++ Str.nl
               ++ "Field Position: " ++ field_position found_field ++ Str.nl)
            "" 0
      end
  end.

(** the overlap test of the bit-range branch *)
Definition overlaps (start end_ : Z) (fld : RegisterField) : bool :=
  (field_lsb fld <=? end_)%Z && (field_msb fld >=? start)%Z.

(** the branch of the [bracket] pattern with an index *)
Definition query_bit_range (REGISTER_DATABASE : gmap string RegisterInfo)
  (reg : string) (start end_ : Z) (json_out : bool) : outcome :=
  match REGISTER_DATABASE !! reg with
  | None => register_not_found reg
  | Some info =>
      let matching_fields := List.filter (overlaps start end_) (fields info) in
      match matching_fields with
      | [] =>
          Finished ""
            ("Error: No fields found for bit range [" ++ to_string end_ ++ ":"
             ++ to_string start ++ "] in register '" ++ reg ++ "'" ++ Str.nl) 1
      | first_field :: _ =>
          if (start =? end_)%Z then
            Finished
              (if json_out then
                 "{" ++ json_member "register_name" (escape_json reg) ++ ","
                 ++ json_member "bit_position" (to_string start) ++ ","
                 ++ json_member "field_name" (escape_json (field_name first_field))
                 ++ ","
                 ++ json_member "field_position"
                      (escape_json (field_position first_field))
                 ++ "}" ++ Str.nl
               else
                 "Register: " ++ reg ++ Str.nl
                 ++ "Bit Position: [" ++ to_string start ++ "]" ++ Str.nl
                 ++ "Field Name: " ++ field_name first_field ++ Str.nl)
              "" 0
          else
            Finished
              (if json_out then
                 "{" ++ json_member "register_name" (escape_json reg) ++ ","
                 ++ json_member "bit_start" (to_string start) ++ ","
                 ++ json_member "bit_end" (to_string end_) ++ ","
                 ++ dq ++ "fields" ++ dq ++ ": ["
                 ++ fields_json true matching_fields ++ "]}" ++ Str.nl
               else
                 "Register: " ++ reg ++ Str.nl
                 ++ "Bit Range: [" ++ to_string end_ ++ ":" ++ to_string start ++ "]"
                 ++ Str.nl
                 ++ fields_text matching_fields)
              "" 0
      end
  end.

(** the branch of the [bracket] pattern without an index *)
Definition query_register (REGISTER_DATABASE : gmap string RegisterInfo)
  (reg : string) (json_out : bool) : outcome :=
  match REGISTER_DATABASE !! reg with
  | None => register_not_found reg
  | Some info =>
      Finished
        (if json_out then
           "{" ++ json_member "register_name" (escape_json reg) ++ ","
           ++ json_member "features" (escape_json (feature_name info)) ++ ","
           ++ dq ++ "fields" ++ dq ++ ": ["
           ++ fields_json true (fields info) ++ "]}" ++ Str.nl
         else
           "Register: " ++ reg ++ Str.nl
           ++ "Features: " ++ feature_name info ++ Str.nl
           ++ "Fields:" ++ Str.nl
           ++ fields_text (fields info))
        "" 0
  end.

Definition invalid_query (query : string) : outcome :=
  Finished "" ("Error: Invalid query format: '" ++ query ++ "'" ++ Str.nl) 1.

Definition run_register_query
  (REGISTER_DATABASE : gmap string RegisterInfo)
  (DEFINITION_TO_FIELDS : gmap string (list (string * string)))
  (query : string) (json_out : bool) : outcome :=
  let q := trim query in
  if allowed_def q then run_fielddef_query DEFINITION_TO_FIELDS q json_out
  else
    match dot_bracket q with
    | Some (reg, field, d1, d2) =>
        with_range d1 d2
          (fun start end_ =>
             query_field_range REGISTER_DATABASE reg field start end_ json_out)
    | None =>
        match dot_only q with
        | Some (reg, field) => query_field REGISTER_DATABASE reg field json_out
        | None =>
            match bracket q with
            | Some (reg, Some (d1, d2)) =>
                with_range d1 d2
                  (fun start end_ =>
                     query_bit_range REGISTER_DATABASE reg start end_ json_out)
            | Some (reg, None) => query_register REGISTER_DATABASE reg json_out
            | None => invalid_query query
            end
        end
    end.

Definition usage : string :=
  "Usage: query_register --reg <REG> [--json]" ++ Str.nl
  ++ "Examples:" ++ Str.nl
  ++ "  query_register --reg 'HCR_EL2[1]'" ++ Str.nl
  ++ "  query_register --reg 'HCR_EL2.TGE'" ++ Str.nl.

(** [argv] includes the program name *)
Definition main
  (REGISTER_DATABASE : gmap string RegisterInfo)
  (DEFINITION_TO_FIELDS : gmap string (list (string * string)))
  (argv : list string) : outcome :=
  match argv with
  | _ :: arg1 :: reg_query :: rest =>
      if String.eqb arg1 "--help" || String.eqb arg1 "-h" then
        Finished usage "" 0
      else if String.eqb arg1 "--reg" || String.eqb arg1 "-r" then
        let json_out := existsb (String.eqb "--json") rest in
        run_register_query REGISTER_DATABASE DEFINITION_TO_FIELDS reg_query json_out
      else Finished usage "" 1
  | _ => Finished usage "" 1
  end.

End Reg.

(** ** What the specification describes, in its own words *)

Module Spec.

(** every match of the flat catalog, in catalog order, rendered *)
Definition decode_lines (catalog : list Isa.EncodingPattern) (opcode : Z)
  : list string :=
  List.map
    (fun enc => Isa.build_assembly (Isa.asm_template enc) opcode (Isa.bit_fields enc))
    (List.filter (Isa.matches opcode) catalog).

(** one output line per element *)
Fixpoint emit (lines : list string) : string :=
  match lines with
  | [] => ""
  | l :: rest => l ++ Str.nl ++ emit rest
  end.

(** the bit positions that carry [label], scanning from bit 31 down to bit 0 *)
Definition label_positions (label : string) (bit_fields : list string) : list Z :=
  List.map (fun i => (31 - Z.of_nat i)%Z)
    (List.filter (fun i => String.eqb (nth i bit_fields "") label) (seq 0 32)).

(** the first bit has the highest weight, each later bit the next lower
    power of two *)
Fixpoint weighted_value (bits : list Z) : Z :=
  match bits with
  | [] => 0
  | b :: rest => (b * 2 ^ Z.of_nat (length rest) + weighted_value rest)%Z
  end.

(** the entries of a [std::map] stand in strictly ascending key order *)
Fixpoint ascending (m : Isa.bits_map) : Prop :=
  match m with
  | [] => True
  | (k, _) :: m' =>
      Forall (fun e => String.compare k (fst e) = Lt) m' /\ ascending m'
  end.

(** a vector after more elements were pushed onto it; no vector is made
    when nothing is pushed *)
Definition pushed (old : option (list Z)) (more : list Z) : option (list Z) :=
  match more with
  | [] => old
  | _ :: _ => Some (match old with Some l => l | None => [] end ++ more)%list
  end.

(** the [CRm] and [op2] values, when the flag says they were extracted *)
Definition crm_slot (o : Isa.operands) : option Z :=
  if Isa.has_crm o then Some (Isa.crm_value o) else None.

Definition op2_slot (o : Isa.operands) : option Z :=
  if Isa.has_op2 o then Some (Isa.op2_value o) else None.

(** global field-name search: every (register, field) pair of the catalog
    whose field has this name *)
Definition global_field_search (catalog : gmap string Reg.RegisterInfo)
  (name : string) : list (string * Reg.RegisterField) :=
  List.concat
    (List.map
       (fun '(reg, info) =>
          List.map (pair reg)
            (List.filter (fun fld => String.eqb (Reg.field_name fld) name)
               (Reg.fields info)))
       (map_to_list catalog)).

(** the name a register placeholder is rendered as: [x]/[w] with the index,
    or the stack pointer for index 31 where that is special *)
Definition register_name (sp_at_31 wide : bool) (n : Z) : string :=
  if sp_at_31 && (n =? 31)%Z
  then (if wide then "wsp" else "sp")
  else (if wide then "w" else "x") ++ dec_string n.

(** the characters of the query grammar: register and field tokens are
    drawn from A-Z, 0-9, underscore and angle brackets, and the forms add the
    dot, the square brackets and the colon *)
Definition grammar_char (c : ascii) : bool :=
  Reg.is_reg_char c || Ascii.eqb c "." || Ascii.eqb c "[" || Ascii.eqb c "]"
  || Ascii.eqb c ":".

(** the text of an index, [[hi:lo]] or [[bit]] *)
Definition index_text (d1 : string) (d2 : option string) : string :=
  "[" ++ d1 ++ match d2 with Some d => ":" ++ d | None => "" end ++ "]".

(** a string of one or more decimal digits *)
Definition digits (d : string) : Prop :=
  Str.all Str.is_digit d = true /\ d <> "".

(** a register token and a field token of the grammar *)
Definition reg_token (reg : string) : Prop :=
  Str.all Reg.is_reg_char reg = true /\ reg <> "".

Definition field_token (field : string) : Prop :=
  Str.all Reg.is_field_char field = true /\ field <> "".

(** one diagnostic line: text closed by an end-of-line *)
Definition diagnostic (err : string) : Prop :=
  exists body, err = body ++ Str.nl.

(** text around a placeholder: no character that starts or ends one *)
Definition plain_char (c : ascii) : bool :=
  negb (Ascii.eqb c "<") && negb (Ascii.eqb c "{") && negb (Ascii.eqb c "}").

Definition plain (s : string) : bool := Str.all plain_char s.

(** [pat] and [t] differ at a position that both have *)
Fixpoint mismatch (pat t : string) : bool :=
  match pat, t with
  | String a pat', String b t' => negb (Ascii.eqb a b) || mismatch pat' t'
  | _, _ => false
  end.

(** [pat] cannot start at any position of [ph], whatever follows [ph] *)
Fixpoint never_at (pat ph : string) : bool :=
  match ph with
  | "" => true
  | String _ ph' => mismatch pat ph && never_at pat ph'
  end.

(** the first character of a pattern starts or ends a placeholder *)
Definition marked (pat : string) : bool :=
  match pat with
  | "" => false
  | String h _ => negb (plain_char h)
  end.

(** one scan from left to right: wherever [pat] starts, [r] is written and
    the scan goes on after [pat]; [skip] counts the characters of [pat]
    still to pass over *)
Fixpoint scan (pat r : string) (skip : nat) (s : string) : string :=
  match s with
  | "" => ""
  | String c s' =>
      match skip with
      | S k => scan pat r k s'
      | O =>
          if Str.starts_with pat s
          then r ++ scan pat r (String.length pat - 1) s'
          else String c (scan pat r 0 s')
      end
  end.

(** every occurrence of [pat], from left to right, replaced by [r] *)
Definition substitute (pat r : string) (s : string) : string :=
  scan pat r 0 s.

Definition substitute_all (l : list (string * string)) (s : string) : string :=
  fold_left (fun acc p => substitute (fst p) (snd p) acc) l s.

(** [pat] cannot start inside a copy of [r], and [r] cannot continue a copy
    of [pat] that started before it: replacing an occurrence of [pat] by [r]
    makes no new occurrence *)
Definition no_overlap (pat r : string) : Prop :=
  pat <> ""
  /\ never_at pat r = true
  /\ never_at r (Str.tail pat) = true.

(** a prefix that no occurrence of [pat] can start in, whatever follows *)
Definition barrier (pat u : string) : Prop :=
  forall x, Str.find pat (u ++ x)
            = option_map (Nat.add (String.length u)) (Str.find pat x).

(** [pat] cannot occur in plain text around the placeholder [ph]: it starts
    with a marked character (or does so after its first character) and
    cannot start inside [ph] *)
Definition absent_around (ph pat : string) : bool :=
  (marked pat && never_at pat ph)
  || match pat with
     | String _ pat' => marked pat' && never_at pat' ph
     | "" => false
     end.

(** [pat] cannot occur in plain text *)
Definition absent_in_plain (pat : string) : bool :=
  negb (Str.all plain_char pat).

(** *** the renderer as a list of substitution passes

    Each pass is one [while (find) replace] loop of [build_assembly], with
    its pattern and its replacement, in the order of the source. *)

Definition passes (l : list (string * string)) (s : string) : string :=
  fold_left (fun acc p => Str.replace_all (fst p) (snd p) acc) l s.

Definition rd_passes (rd : Z) : list (string * string) :=
  let reg_str := if (rd =? 31)%Z then "sp" else "x" ++ dec_string rd in
  let reg_str_w := if (rd =? 31)%Z then "wsp" else "w" ++ dec_string rd in
  [("<Xd|SP>", reg_str); ("<Xd>", reg_str); ("<Wd|WSP>", reg_str_w);
   ("<Wd>", reg_str_w); ("<Wt>", reg_str_w)].

Definition rn_passes (rn : Z) : list (string * string) :=
  let reg_str := if (rn =? 31)%Z then "sp" else "x" ++ dec_string rn in
  let reg_str_w := if (rn =? 31)%Z then "wsp" else "w" ++ dec_string rn in
  [("<Xn|SP>", reg_str); ("<Xn>", reg_str); ("<Wn|WSP>", reg_str_w);
   ("<Wn>", reg_str_w)].

Definition rm_passes (rm : Z) : list (string * string) :=
  [("<Xm>", "x" ++ dec_string rm); ("<R><m>", "x" ++ dec_string rm);
   ("<Wm>", "w" ++ dec_string rm)].

Definition rt_passes (rt : Z) : list (string * string) :=
  [("<Xt>", "x" ++ dec_string rt); ("<Wt>", "w" ++ dec_string rt)].

Definition imm_passes (imm : Z) : list (string * string) :=
  [("#<imm>", "#0x" ++ hex_string imm); ("<imm>", "0x" ++ hex_string imm)].

Definition offs_passes (offs : Z) : list (string * string) :=
  [("<offs>", "0x" ++ hex_string offs); ("<simm>", "0x" ++ hex_string offs)].

Definition shift_passes (shift_value : Z) : list (string * string) :=
  if (shift_value =? 0)%Z then [("{, <shift>}", "")]
  else [("<shift>", "lsl #12"); ("{, ", ", "); ("}", "")].

Definition optional_passes : list (string * string) :=
  [("{, <shift>}", ""); ("{, <extend> {#<amount>}}", "");
   ("{, <shift> #<amount>}", "")].

(** the passes of a block that runs only when its operand was extracted *)
Definition when_extracted (v : option Z) (f : Z -> list (string * string))
  : list (string * string) :=
  match v with
  | Some x => f x
  | None => []
  end.

Definition register_passes (o : Isa.operands) : list (string * string) :=
  (when_extracted (Isa.reg_values o !! "Rd") rd_passes
   ++ when_extracted (Isa.reg_values o !! "Rn") rn_passes
   ++ when_extracted (Isa.reg_values o !! "Rm") rm_passes
   ++ when_extracted (Isa.reg_values o !! "Rt") rt_passes)%list.

Definition later_passes (o : Isa.operands) : list (string * string) :=
  (when_extracted (Isa.imm_values o !! "imm") imm_passes
   ++ when_extracted (Isa.imm_values o !! "offs") offs_passes
   ++ (if Isa.has_shift o then shift_passes (Isa.shift_value o) else [])
   ++ optional_passes)%list.

Definition render_passes (o : Isa.operands) : list (string * string) :=
  (register_passes o ++ later_passes o)%list.

(** the loop of a pass stops because its pattern is not found any more,
    not because the fuel of the model ran out *)
Definition settles (p : string * string) : Prop :=
  forall s, Str.find (fst p) (Str.replace_all (fst p) (snd p) s) = None.

(** which name each register placeholder stands for: the placeholders of
    Rd and Rn with the stack pointer at index 31, those of Rm and Rt
    without, and <Wt> under Rd as well as under Rt *)
Definition register_substitutions (o : Isa.operands) : list (string * string) :=
  (when_extracted (Isa.reg_values o !! "Rd")
     (fun rd => [("<Xd|SP>", register_name true false rd);
                 ("<Xd>", register_name true false rd);
                 ("<Wd|WSP>", register_name true true rd);
                 ("<Wd>", register_name true true rd);
                 ("<Wt>", register_name true true rd)])
   ++ when_extracted (Isa.reg_values o !! "Rn")
        (fun rn => [("<Xn|SP>", register_name true false rn);
                    ("<Xn>", register_name true false rn);
                    ("<Wn|WSP>", register_name true true rn);
                    ("<Wn>", register_name true true rn)])
   ++ when_extracted (Isa.reg_values o !! "Rm")
        (fun rm => [("<Xm>", register_name false false rm);
                    ("<R><m>", register_name false false rm);
                    ("<Wm>", register_name false true rm)])
   ++ when_extracted (Isa.reg_values o !! "Rt")
        (fun rt => [("<Xt>", register_name false false rt);
                    ("<Wt>", register_name false true rt)]))%list.

End Spec.

(** ** Notions used to state further properties of the code *)

Module Notion.

(** the positions whose label is not a literal, from bit 31 down to bit 0 *)
Definition variable_positions (bit_fields : list string) : list Z :=
  List.map (fun i => (31 - Z.of_nat i)%Z)
    (List.filter (fun i => negb (Isa.is_literal (nth i bit_fields "")))
       (seq 0 32)).

(** the text of a list of binary digits, first digit first *)
Fixpoint binary_text (bits : list bool) : string :=
  match bits with
  | [] => ""
  | b :: rest => String (if b then "1" else "0")%char (binary_text rest)
  end.

(** the pieces of a string between its spaces, empty pieces included *)
Fixpoint split_spaces (s : string) : list string :=
  match s with
  | "" => [""]
  | String c s' =>
      if Ascii.eqb c " " then "" :: split_spaces s'
      else match split_spaces s' with
           | w :: ws => String c w :: ws
           | [] => [String c ""]
           end
  end.

(** the words of a string: its maximal runs of characters other than the
    space *)
Definition words (s : string) : list string :=
  List.filter (fun w => negb (Str.is_empty w)) (split_spaces s).

(** words joined by single spaces *)
Fixpoint unwords (ws : list string) : string :=
  match ws with
  | [] => ""
  | [w] => w
  | w :: rest => w ++ " " ++ unwords rest
  end.

(** neither a space at either end nor two spaces in a row *)
Definition tidy (s : string) : Prop :=
  Str.starts_with " " s = false
  /\ Str.starts_with " " (Str.rev s) = false
  /\ Str.find "  " s = None.

(** white space only *)
Definition blank (s : string) : bool := Str.all Str.is_space s.

(** the characters that [escape_json] copies: no control character, not the
    double quote, not the backslash *)
Definition copied_char (c : ascii) : bool :=
  (32 <=? Str.code c)%Z && negb (Str.code c =? 34)%Z
  && negb (Str.code c =? 92)%Z.

(** text that can stand between two double quotes: no control character,
    and a double quote or a backslash only right after a backslash that
    escapes it *)
Fixpoint quotable (s : string) : bool :=
  match s with
  | "" => true
  | String c s' =>
      if (Str.code c =? 92)%Z then
        match s' with
        | String e s'' => (32 <=? Str.code e)%Z && quotable s''
        | "" => false
        end
      else copied_char c && quotable s'
  end.

Definition digits_opt (d2 : option string) : Prop :=
  match d2 with Some d => Spec.digits d | None => True end.

(** the forms of a register query: a definition keyword, REG.FIELD[i:j] or
    REG.FIELD[i], REG.FIELD, REG[i:j] or REG[i], and REG *)
Inductive shape : string -> Prop :=
| shape_keyword (q : string) :
    Reg.allowed_def q = true -> shape q
| shape_field_range (reg field d1 : string) (d2 : option string) :
    Spec.reg_token reg -> Spec.field_token field ->
    Spec.digits d1 -> digits_opt d2 ->
    shape (reg ++ "." ++ field ++ Spec.index_text d1 d2)
| shape_field (reg field : string) :
    Spec.reg_token reg -> Spec.field_token field ->
    shape (reg ++ "." ++ field)
| shape_bit_range (reg d1 : string) (d2 : option string) :
    Spec.reg_token reg -> Spec.digits d1 -> digits_opt d2 ->
    shape (reg ++ Spec.index_text d1 d2)
| shape_register (reg : string) :
    Spec.reg_token reg -> shape reg.

(** a field that holds the bit [b] *)
Definition holds_bit (fld : Reg.RegisterField) (b : Z) : Prop :=
  (Reg.field_lsb fld <= b <= Reg.field_msb fld)%Z.

(** the fields of a register stand by descending most significant bit *)
Definition msb_descending (flds : list Reg.RegisterField) : Prop :=
  Sorted.StronglySorted
    (fun a b => (Reg.field_msb b <= Reg.field_msb a)%Z) flds.

(** the value of the [sh] field, when the flag says it was extracted *)
Definition shift_slot (o : Isa.operands) : option Z :=
  if Isa.has_shift o then Some (Isa.shift_value o) else None.

(** the status a run ends with, when it ends by returning *)
Definition status_of (o : outcome) : option Z :=
  match o with
  | Finished _ _ status => Some status
  | Uncaught _ _ _ => None
  end.

End Notion.

(** ** A small catalog for concrete runs *)

Module Sample.

Definition add_imm : Isa.EncodingPattern :=
  {| Isa.fixed_mask := 0xff800000;
     Isa.fixed_bits := 0x91000000;
     Isa.bit_fields :=
       (["1"; "0"; "0"; "1"; "0"; "0"; "0"; "1"; "0"; "sh"]
        ++ repeat "imm12" 12 ++ repeat "Rn" 5 ++ repeat "Rd" 5)%list;
     Isa.asm_template := "ADD <Xd|SP>, <Xn|SP>, #<imm>{, <shift>}" |}.

Definition mov_sp : Isa.EncodingPattern :=
  {| Isa.fixed_mask := 0xfffffc00;
     Isa.fixed_bits := 0x91000000;
     Isa.bit_fields :=
       (["1"; "0"; "0"; "1"; "0"; "0"; "0"; "1"; "0"; "0"]
        ++ repeat "0" 12 ++ repeat "Rn" 5 ++ repeat "Rd" 5)%list;
     Isa.asm_template := "MOV <Xd|SP>, <Xn|SP>" |}.

Definition hint : Isa.EncodingPattern :=
  {| Isa.fixed_mask := 0xfffff01f;
     Isa.fixed_bits := 0xd503201f;
     Isa.bit_fields :=
       (["1"; "1"; "0"; "1"; "0"; "1"; "0"; "1"; "0"; "0"; "0"; "0"; "0"; "0";
         "1"; "1"; "0"; "0"; "1"; "0"]
        ++ repeat "CRm" 4 ++ repeat "op2" 3 ++ repeat "1" 5)%list;
     Isa.asm_template := "HINT #<imm>" |}.

Definition nop : Isa.EncodingPattern :=
  {| Isa.fixed_mask := 0xffffffff;
     Isa.fixed_bits := 0xd503201f;
     Isa.bit_fields :=
       (["1"; "1"; "0"; "1"; "0"; "1"; "0"; "1"; "0"; "0"; "0"; "0"; "0"; "0";
         "1"; "1"; "0"; "0"; "1"; "0"]
        ++ repeat "0" 7 ++ repeat "1" 5)%list;
     Isa.asm_template := "NOP" |}.

(** a pattern whose immediate is stored in two places under one label,
    bits 30..29 and bits 23..5 *)
Definition split_imm : Isa.EncodingPattern :=
  {| Isa.fixed_mask := 0x9f000000;
     Isa.fixed_bits := 0x10000000;
     Isa.bit_fields :=
       (["0"; "imm"; "imm"; "1"; "0"; "0"; "0"; "0"]
        ++ repeat "imm" 19 ++ repeat "Rd" 5)%list;
     Isa.asm_template := "ADR <Xd>, <imm>" |}.

(** a pattern with two immediates, under the labels immr and imms *)
Definition bitfield : Isa.EncodingPattern :=
  {| Isa.fixed_mask := 0xffc00000;
     Isa.fixed_bits := 0xd3400000;
     Isa.bit_fields :=
       (["1"; "1"; "0"; "1"; "0"; "0"; "1"; "1"; "0"; "1"]
        ++ repeat "immr" 6 ++ repeat "imms" 6 ++ repeat "Rn" 5
        ++ repeat "Rd" 5)%list;
     Isa.asm_template := "UBFM <Xd>, <Xn>, #<immr>, #<imms>" |}.

(** labels of a pattern with both an Rt and an Rd field, and of one with
    an Rd field only *)
Definition rt_rd_fields : list string :=
  (repeat "0" 22 ++ repeat "Rt" 5 ++ repeat "Rd" 5)%list.

Definition rd_fields : list string :=
  (repeat "0" 27 ++ repeat "Rd" 5)%list.

Definition encoding_arrays : list (list Isa.EncodingPattern) :=
  [[add_imm]; []; [nop; mov_sp]; [hint]].

Definition res0_hi : Reg.RegisterField :=
  {| Reg.field_name := "RES0"; Reg.field_msb := 63; Reg.field_lsb := 4;
     Reg.field_position := "[63:4]"; Reg.field_definition := "RES0" |}.

Definition wide : Reg.RegisterField :=
  {| Reg.field_name := "WIDE"; Reg.field_msb := 3; Reg.field_lsb := 0;
     Reg.field_position := "[3:0]"; Reg.field_definition := "" |}.

Definition swio : Reg.RegisterField :=
  {| Reg.field_name := "SWIO"; Reg.field_msb := 1; Reg.field_lsb := 1;
     Reg.field_position := "[1:1]"; Reg.field_definition := "" |}.

Definition vm : Reg.RegisterField :=
  {| Reg.field_name := "VM"; Reg.field_msb := 0; Reg.field_lsb := 0;
     Reg.field_position := "[0:0]"; Reg.field_definition := "" |}.

(** a register whose layout has two alternatives for bits 3..0: one wide
    field, or single-bit fields *)
Definition hcr_el2 : Reg.RegisterInfo :=
  {| Reg.feature_name := "FEAT_AA64"; Reg.fields := [res0_hi; wide; swio; vm] |}.

(** the same register without a field named SWIO *)
Definition hcr_el2_no_swio : Reg.RegisterInfo :=
  {| Reg.feature_name := "FEAT_AA64"; Reg.fields := [res0_hi; wide; vm] |}.

Definition REGISTER_DATABASE : gmap string Reg.RegisterInfo :=
  {[ "HCR_EL2" := hcr_el2 ]}.

Definition REGISTER_DATABASE_no_swio : gmap string Reg.RegisterInfo :=
  {[ "HCR_EL2" := hcr_el2_no_swio ]}.

Definition DEFINITION_TO_FIELDS : gmap string (list (string * string)) :=
  {[ "RES0" := [("HCR_EL2", "RES0")] ]}.

End Sample.

(** ** Facts about strings *)

#[local] Arguments String.append !s1 s2 : simpl nomatch.

Lemma append_nil_r (s : string) : s ++ "" = s.
Proof. induction s as [|c s IH]; simpl; congruence. Qed.

Lemma append_assoc (a b c : string) : (a ++ b) ++ c = a ++ b ++ c.
Proof. induction a as [|x a IH]; simpl; congruence. Qed.

Lemma length_append (a b : string) :
  String.length (a ++ b) = (String.length a + String.length b)%nat.
Proof. induction a as [|x a IH]; simpl; congruence. Qed.

(** ** The opcode decoder *)

Section Decoder.

Import Isa.

Variable encoding_arrays : list (list EncodingPattern).
Variable opcode : Z.

Lemma visit_fold (encodings : list EncodingPattern) (cout : string) (found : bool) :
  fold_left (visit opcode) encodings (cout, found)
  = (cout ++ Spec.emit (Spec.decode_lines encodings opcode),
     found || negb (forallb (fun enc => negb (matches opcode enc)) encodings)).
Proof.
  revert cout found.
  induction encodings as [|enc encodings IH]; intros cout found.
  - cbn. now rewrite append_nil_r, orb_false_r.
  - cbn [fold_left forallb]. unfold visit at 2, Spec.decode_lines.
    cbn [List.filter].
    destruct (matches opcode enc) eqn:Hm; cbn [List.map Spec.emit negb andb].
    + rewrite IH. unfold Spec.decode_lines.
      now rewrite !append_assoc, !orb_true_r.
    + rewrite IH. reflexivity.
Qed.

Lemma emit_app (l1 l2 : list string) :
  Spec.emit (l1 ++ l2)%list = Spec.emit l1 ++ Spec.emit l2.
Proof.
  induction l1 as [|l l1 IH]; cbn [Spec.emit app]; [reflexivity|].
  now rewrite IH, !append_assoc.
Qed.

Lemma arrays_fold (arrays : list (list EncodingPattern)) (cout : string) (found : bool) :
  fold_left (fun st encodings => fold_left (visit opcode) encodings st)
    arrays (cout, found)
  = (cout ++ Spec.emit (Spec.decode_lines (List.concat arrays) opcode),
     found || negb (forallb (fun enc => negb (matches opcode enc)) (List.concat arrays))).
Proof.
  revert cout found.
  induction arrays as [|a arrays IH]; intros cout found.
  - cbn. now rewrite append_nil_r, orb_false_r.
  - cbn [fold_left List.concat]. rewrite visit_fold, IH.
    unfold Spec.decode_lines.
    rewrite List.filter_app, List.map_app, List.forallb_app, emit_app, append_assoc.
    now rewrite negb_andb, orb_assoc.
Qed.

Lemma no_match_no_lines (catalog : list EncodingPattern) :
  forallb (fun enc => negb (matches opcode enc)) catalog = true
  <-> Spec.decode_lines catalog opcode = [].
Proof.
  unfold Spec.decode_lines.
  induction catalog as [|enc catalog IH]; cbn [forallb List.filter List.map]; [tauto|].
  destruct (matches opcode enc); cbn [negb andb List.map]; [|exact IH].
  split; discriminate.
Qed.

(** what a scan of the whole catalog writes to the two streams *)
Lemma query_by_opcode_streams :
  let lines := Spec.decode_lines (List.concat encoding_arrays) opcode in
  query_by_opcode encoding_arrays opcode
  = (Spec.emit lines,
     match lines with
     | [] => "No matching instruction found for opcode: 0x"
             ++ setw 8 "0" (hex_string opcode) ++ Str.nl
     | _ :: _ => ""
     end).
Proof.
  intros lines. unfold query_by_opcode. rewrite arrays_fold.
  cbn [orb String.append]. fold lines.
  destruct (forallb _ _) eqn:Hall; cbn [negb].
  - apply no_match_no_lines in Hall. fold lines in Hall. now rewrite Hall.
  - destruct lines eqn:Hl; [|reflexivity].
    apply no_match_no_lines in Hl. congruence.
Qed.

Lemma main_decodes (argv0 opcode_str : string) (rest : list string) :
  parse_opcode opcode_str = Value opcode ->
  main encoding_arrays (argv0 :: "--op" :: opcode_str :: rest)
  = Finished (fst (query_by_opcode encoding_arrays opcode))
      (snd (query_by_opcode encoding_arrays opcode)) 0.
Proof.
  intros Hparse. unfold main. cbn [String.eqb Ascii.eqb Bool.eqb orb].
  rewrite Hparse. now destruct (query_by_opcode encoding_arrays opcode).
Qed.

(** C1: a pattern matches an opcode exactly when the opcode masked with
    [fixed_mask] equals [fixed_bits]; a decode run of an opcode literal
    that parses to [opcode] visits the whole catalog in its order and writes
    one rendered line for every matching pattern, all of them, and when
    nothing matches it writes the no-match diagnostic to the error stream
    and still returns normally. *)
Theorem C1_decoder_emits_every_match
  (argv0 opcode_str : string) (rest : list string)
  (Hparse : parse_opcode opcode_str = Value opcode) :
  let catalog := List.concat encoding_arrays in
  let lines := Spec.decode_lines catalog opcode in
  (forall enc : EncodingPattern,
      matches opcode enc = true
      <-> Z.land opcode (fixed_mask enc) = fixed_bits enc)
  /\ query_by_opcode encoding_arrays opcode
     = (Spec.emit lines,
        match lines with
        | [] => "No matching instruction found for opcode: 0x"
                ++ setw 8 "0" (hex_string opcode) ++ Str.nl
        | _ :: _ => ""
        end)
  /\ main encoding_arrays (argv0 :: "--op" :: opcode_str :: rest)
     = Finished (Spec.emit lines)
         (match lines with
          | [] => "No matching instruction found for opcode: 0x"
                  ++ setw 8 "0" (hex_string opcode) ++ Str.nl
          | _ :: _ => ""
          end) 0.
Proof.
  intros catalog lines. split; [|split].
  - intros enc. unfold matches. apply Z.eqb_eq.
  - apply query_by_opcode_streams.
  - rewrite (main_decodes argv0 opcode_str rest Hparse).
    now rewrite query_by_opcode_streams.
Qed.

End Decoder.

Lemma C1_decoder_emits_every_match_witness :
  Isa.parse_opcode "0x91_00_00_00" = Isa.Value 0x91000000
  /\ Isa.main Sample.encoding_arrays ["query_isa"; "--op"; "0x91_00_00_00"]
     = Finished ("ADD x0, x0, #0x0" ++ Str.nl ++ "MOV x0, x0" ++ Str.nl) "" 0.
Proof.
  split; [reflexivity|].
  exact (proj2 (proj2 (C1_decoder_emits_every_match
                         Sample.encoding_arrays 0x91000000
                         "query_isa" "0x91_00_00_00" [] eq_refl))).
Defined.

(** ** Character classes and scanning *)

Lemma all_append (p : ascii -> bool) (a b : string) :
  Str.all p (a ++ b) = Str.all p a && Str.all p b.
Proof.
  induction a as [|c a IH]; simpl; [reflexivity|].
  now rewrite IH, andb_assoc.
Qed.

Lemma all_impl (p q : ascii -> bool) (s : string) :
  (forall c, p c = true -> q c = true) -> Str.all p s = true -> Str.all q s = true.
Proof.
  intros Hpq. induction s as [|c s IH]; simpl; [reflexivity|].
  intros [Hc Hs]%andb_true_iff. rewrite (Hpq c Hc). now apply IH.
Qed.

(** what [span] returns: the input split in two, the left part in the class *)
Lemma span_spec (p : ascii -> bool) (s a b : string) :
  Str.span p s = (a, b) -> s = a ++ b /\ Str.all p a = true.
Proof.
  revert a b. induction s as [|c s IH]; intros a b; simpl.
  - intros [= <- <-]. now split.
  - destruct (p c) eqn:Hc.
    + destruct (Str.span p s) as [l r] eqn:Hs. intros [= <- <-].
      destruct (IH l r eq_refl) as [-> Hl]. simpl. now rewrite Hc, Hl.
    + intros [= <- <-]. now split.
Qed.

Lemma span_append (p : ascii -> bool) (a b : string) :
  Str.all p a = true -> stops p b -> Str.span p (a ++ b) = (a, b).
Proof.
  intros Ha Hb. induction a as [|c a IH]; simpl in *.
  - destruct b as [|c b]; simpl in *; [reflexivity|]. now rewrite Hb.
  - apply andb_true_iff in Ha as [Hc Ha]. now rewrite Hc, (IH Ha).
Qed.

Lemma digits1_append (d rest : string) :
  Str.all Str.is_digit d = true -> d <> "" -> stops Str.is_digit rest ->
  Reg.digits1 (d ++ rest) = Some (d, rest).
Proof.
  intros Hd Hne Hrest. unfold Reg.digits1. rewrite span_append by assumption.
  destruct d; [congruence|reflexivity].
Qed.

Lemma digits1_spec (s d rest : string) :
  Reg.digits1 s = Some (d, rest) ->
  s = d ++ rest /\ Str.all Str.is_digit d = true /\ d <> "".
Proof.
  unfold Reg.digits1. destruct (Str.span Str.is_digit s) as [d' r'] eqn:Hs.
  destruct d' as [|c d']; simpl; [discriminate|].
  intros [= <- <-]. apply span_spec in Hs as [-> Hall]. now repeat split.
Qed.

Lemma expect_spec (c : ascii) (s r : string) :
  Reg.expect c s = Some r <-> s = String c r.
Proof.
  unfold Reg.expect. destruct s as [|a s]; [split; discriminate|].
  destruct (Ascii.eqb_spec a c) as [->|Hne]; split; intros [= ]; subst; congruence.
Qed.

(** *** reversal and trimming *)

Lemma rev_onto_spec (s acc : string) : Str.rev_onto s acc = Str.rev s ++ acc.
Proof.
  unfold Str.rev. revert acc.
  induction s as [|c s IH]; intros acc; simpl; [reflexivity|].
  rewrite IH, (IH (String c "")), append_assoc. reflexivity.
Qed.

Lemma rev_append (a b : string) : Str.rev (a ++ b) = Str.rev b ++ Str.rev a.
Proof.
  induction a as [|c a IH]; simpl.
  - now rewrite append_nil_r.
  - unfold Str.rev in *. simpl.
    rewrite (rev_onto_spec (a ++ b)), (rev_onto_spec a).
    unfold Str.rev. rewrite IH, append_assoc. reflexivity.
Qed.

Lemma rev_involutive (s : string) : Str.rev (Str.rev s) = s.
Proof.
  induction s as [|c s IH]; [reflexivity|].
  change (String c s) with (String c "" ++ s) at 1.
  rewrite rev_append, rev_append, IH. reflexivity.
Qed.

Lemma skip_spaces_stops (s : string) : stops Str.is_space s -> skip_spaces s = s.
Proof. destruct s as [|c s]; simpl; [reflexivity|]. now intros ->. Qed.

(** a string that neither starts nor ends with white space is its own trim *)
Lemma trim_fixed (c : ascii) (body : string) (z : ascii) :
  Str.is_space c = false -> Str.is_space z = false ->
  Reg.trim (String c (body ++ String z "")) = String c (body ++ String z "").
Proof.
  intros Hc Hz. unfold Reg.trim.
  rewrite (skip_spaces_stops (String c _)) by exact Hc.
  change (String c (body ++ String z "")) with ((String c body) ++ String z "").
  rewrite rev_append. change (Str.rev (String z "")) with (String z "").
  rewrite (skip_spaces_stops (String z "" ++ _)) by exact Hz.
  now rewrite rev_append, rev_involutive.
Qed.

Lemma trim_single (c : ascii) :
  Str.is_space c = false -> Reg.trim (String c "") = String c "".
Proof.
  intros Hc. unfold Reg.trim. rewrite (skip_spaces_stops (String c "")) by exact Hc.
  change (Str.rev (String c "")) with (String c "").
  now rewrite skip_spaces_stops.
Qed.

Lemma trim_id (s : string) :
  stops Str.is_space s -> stops Str.is_space (Str.rev s) -> Reg.trim s = s.
Proof.
  intros Hs Hr. unfold Reg.trim.
  now rewrite (skip_spaces_stops s Hs), (skip_spaces_stops _ Hr), rev_involutive.
Qed.

Lemma all_rev (p : ascii -> bool) (s : string) :
  Str.all p (Str.rev s) = Str.all p s.
Proof.
  induction s as [|c s IH]; [reflexivity|].
  change (String c s) with (String c "" ++ s) at 1.
  rewrite rev_append, all_append, IH. simpl.
  now rewrite andb_true_r, andb_comm.
Qed.

Lemma all_stops (p q : ascii -> bool) (s : string) :
  (forall c, p c = true -> q c = false) -> Str.all p s = true -> stops q s.
Proof.
  intros Hpq. destruct s as [|c s]; simpl; [trivial|].
  intros [Hc _]%andb_true_iff. now apply Hpq.
Qed.

(** *** the character classes, by character code *)

Lemma in_range_spec (lo hi : Z) (c : ascii) :
  Str.in_range lo hi c = true <-> (lo <= Str.code c <= hi)%Z.
Proof. unfold Str.in_range. rewrite andb_true_iff, !Z.leb_le. tauto. Qed.

Lemma in_range_false (lo hi : Z) (c : ascii) :
  Str.in_range lo hi c = false <-> (Str.code c < lo \/ hi < Str.code c)%Z.
Proof. unfold Str.in_range. rewrite andb_false_iff, !Z.leb_gt. tauto. Qed.

Lemma eqb_code (c k : ascii) : Ascii.eqb c k = true -> Str.code c = Str.code k.
Proof. now intros ->%Ascii.eqb_eq. Qed.

Lemma field_char_code (c : ascii) :
  Reg.is_field_char c = true ->
  (65 <= Str.code c <= 90 \/ 48 <= Str.code c <= 57 \/ Str.code c = 95)%Z.
Proof.
  unfold Reg.is_field_char, Str.is_upper, Str.is_digit.
  rewrite !orb_true_iff, !in_range_spec.
  intros [[H|H]|H%eqb_code]; [tauto|tauto|]. right; right. exact H.
Qed.

Lemma reg_char_code (c : ascii) :
  Reg.is_reg_char c = true ->
  (65 <= Str.code c <= 90 \/ 48 <= Str.code c <= 62 \/ Str.code c = 95)%Z.
Proof.
  unfold Reg.is_reg_char. rewrite !orb_true_iff.
  intros [[H%field_char_code|H%eqb_code]|H%eqb_code].
  - lia.
  - right; left. rewrite H. now vm_compute.
  - right; left. rewrite H. now vm_compute.
Qed.

Lemma field_char_is_reg_char (c : ascii) :
  Reg.is_field_char c = true -> Reg.is_reg_char c = true.
Proof. unfold Reg.is_reg_char. now intros ->. Qed.

Lemma digit_is_field_char (c : ascii) :
  Str.is_digit c = true -> Reg.is_field_char c = true.
Proof. unfold Reg.is_field_char. intros ->. now rewrite orb_true_r. Qed.

Lemma reg_char_not_space (c : ascii) :
  Reg.is_reg_char c = true -> Str.is_space c = false.
Proof.
  intros H%reg_char_code. unfold Str.is_space.
  apply orb_false_iff. rewrite in_range_false, Z.eqb_neq. lia.
Qed.

Lemma reg_char_not_lower (c : ascii) :
  Reg.is_reg_char c = true -> Str.is_lower c = false.
Proof. intros H%reg_char_code. apply in_range_false. lia. Qed.

Lemma lower_not_eqb (c k : ascii) :
  Str.is_lower k = false -> Str.is_lower c = true -> Ascii.eqb c k = false.
Proof.
  intros Hk Hc. destruct (Ascii.eqb_spec c k) as [->|]; [congruence|reflexivity].
Qed.

(** ** The query grammar *)

Lemma any_all (p q : ascii -> bool) (s : string) :
  (forall c, q c = true -> p c = false) ->
  Str.all q s = true -> Str.any p s = false.
Proof.
  intros Hqp. induction s as [|c s IH]; simpl; [reflexivity|].
  intros [Hc Hs]%andb_true_iff. now rewrite (Hqp c Hc), (IH Hs).
Qed.

Lemma grammar_char_not_lower (c : ascii) :
  Spec.grammar_char c = true -> Str.is_lower c = false.
Proof.
  unfold Spec.grammar_char. rewrite !orb_true_iff.
  intros [[[[H|H]|H]|H]|H]; [now apply reg_char_not_lower| | | |];
    apply Ascii.eqb_eq in H; now subst.
Qed.

Lemma reg_char_grammar (c : ascii) :
  Reg.is_reg_char c = true -> Spec.grammar_char c = true.
Proof. unfold Spec.grammar_char. now intros ->. Qed.

Lemma digits_grammar (s : string) :
  Str.all Str.is_digit s = true -> Str.all Spec.grammar_char s = true.
Proof.
  apply all_impl. intros c Hc.
  now apply reg_char_grammar, field_char_is_reg_char, digit_is_field_char.
Qed.

(** *** the index part *)

Lemma match_index_range (d1 d2 : string) :
  Str.all Str.is_digit d1 = true -> d1 <> "" ->
  Str.all Str.is_digit d2 = true -> d2 <> "" ->
  Reg.match_index ("[" ++ d1 ++ ":" ++ d2 ++ "]") = Some (d1, Some d2).
Proof.
  intros H1 N1 H2 N2. unfold Reg.match_index. cbn [String.append Reg.expect Ascii.eqb Bool.eqb].
  rewrite (digits1_append d1) by (assumption || reflexivity).
  cbn [String.append Reg.expect Ascii.eqb Bool.eqb].
  rewrite (digits1_append d2) by (assumption || reflexivity).
  reflexivity.
Qed.

Lemma match_index_single (d1 : string) :
  Str.all Str.is_digit d1 = true -> d1 <> "" ->
  Reg.match_index ("[" ++ d1 ++ "]") = Some (d1, None).
Proof.
  intros H1 N1. unfold Reg.match_index. cbn [String.append Reg.expect Ascii.eqb Bool.eqb].
  rewrite (digits1_append d1) by (assumption || reflexivity).
  reflexivity.
Qed.

Lemma match_index_chars (s : string) (r : string * option string) :
  Reg.match_index s = Some r -> Str.all Spec.grammar_char s = true.
Proof.
  unfold Reg.match_index.
  destruct (Reg.expect "[" s) as [s1|] eqn:E1; [|discriminate].
  apply expect_spec in E1 as ->.
  destruct (Reg.digits1 s1) as [[d1 s2]|] eqn:D1; [|discriminate].
  apply digits1_spec in D1 as (-> & Hd1 & _).
  cbn [Str.all]. rewrite all_append, (digits_grammar d1 Hd1).
  destruct (Reg.expect "]" s2) as [t|] eqn:E2.
  - apply expect_spec in E2 as ->. destruct t; [reflexivity|discriminate].
  - destruct (Reg.expect ":" s2) as [s3|] eqn:E3; [|discriminate].
    apply expect_spec in E3 as ->.
    destruct (Reg.digits1 s3) as [[d2 s4]|] eqn:D2; [|discriminate].
    apply digits1_spec in D2 as (-> & Hd2 & _).
    destruct (Reg.expect "]" s4) as [t|] eqn:E4; [|discriminate].
    apply expect_spec in E4 as ->. destruct t; [|discriminate].
    intros _. cbn [Str.all]. now rewrite all_append, (digits_grammar d2 Hd2).
Qed.

(** *** the register and field part *)

Lemma match_dot_append (reg field rest : string) :
  Str.all Reg.is_reg_char reg = true -> reg <> "" ->
  Str.all Reg.is_field_char field = true -> field <> "" ->
  stops Reg.is_field_char rest ->
  Reg.match_dot (reg ++ "." ++ field ++ rest) = Some (reg, field, rest).
Proof.
  intros Hr Nr Hf Nf Hrest. unfold Reg.match_dot.
  rewrite (span_append _ reg) by (assumption || reflexivity).
  destruct reg; [congruence|]. simpl.
  rewrite (span_append _ field) by assumption.
  destruct field; [congruence|reflexivity].
Qed.

Lemma match_dot_spec (q reg field rest : string) :
  Reg.match_dot q = Some (reg, field, rest) ->
  q = reg ++ "." ++ field ++ rest
  /\ Str.all Reg.is_reg_char reg = true
  /\ Str.all Reg.is_field_char field = true.
Proof.
  unfold Reg.match_dot.
  destruct (Str.span Reg.is_reg_char q) as [r s1] eqn:S1.
  apply span_spec in S1 as [-> Hr].
  destruct (Str.is_empty r); [discriminate|].
  destruct (Reg.expect "." s1) as [s2|] eqn:E; [|discriminate].
  apply expect_spec in E as ->.
  destruct (Str.span Reg.is_field_char s2) as [f s3] eqn:S2.
  apply span_spec in S2 as [-> Hf].
  destruct (Str.is_empty f); [discriminate|].
  intros [= <- <- <-]. auto.
Qed.

(** without a dot after the register token the dotted forms do not match *)
Lemma match_dot_no_dot (reg rest : string) :
  Str.all Reg.is_reg_char reg = true ->
  stops Reg.is_reg_char rest -> Reg.expect "." rest = None ->
  Reg.match_dot (reg ++ rest) = None.
Proof.
  intros Hr Hs He. unfold Reg.match_dot.
  rewrite span_append by assumption.
  destruct (Str.is_empty reg); [reflexivity|]. now rewrite He.
Qed.

Lemma bracket_index (reg idx : string) (r : string * option string) :
  Str.all Reg.is_reg_char reg = true -> reg <> "" ->
  Reg.match_index idx = Some r ->
  Reg.bracket (reg ++ idx) = Some (reg, Some r).
Proof.
  intros Hr Nr Hi. unfold Reg.bracket.
  assert (Hidx : exists t, idx = String "[" t).
  { unfold Reg.match_index in Hi.
    destruct (Reg.expect "[" idx) as [t|] eqn:E; [|discriminate].
    apply expect_spec in E. eauto. }
  destruct Hidx as [t ->].
  rewrite span_append by (assumption || reflexivity).
  destruct reg; [congruence|]. simpl. now rewrite Hi.
Qed.

Lemma bracket_alone (reg : string) :
  Str.all Reg.is_reg_char reg = true -> reg <> "" ->
  Reg.bracket reg = Some (reg, None).
Proof.
  intros Hr Nr. unfold Reg.bracket.
  rewrite <- (append_nil_r reg) at 1.
  rewrite span_append by (assumption || exact I).
  destruct reg; [congruence|reflexivity].
Qed.

Lemma dot_bracket_chars (q : string) r :
  Reg.dot_bracket q = Some r -> Str.all Spec.grammar_char q = true.
Proof.
  unfold Reg.dot_bracket.
  destruct (Reg.match_dot q) as [[[reg field] rest]|] eqn:Hd; [|discriminate].
  apply match_dot_spec in Hd as (-> & Hr & Hf).
  destruct (Reg.match_index rest) as [[d1 d2]|] eqn:Hi; [|discriminate].
  intros _. apply match_index_chars in Hi.
  rewrite all_append. cbn [String.append Str.all]. rewrite all_append, Hi.
  rewrite (all_impl _ _ _ reg_char_grammar Hr).
  rewrite (all_impl Reg.is_field_char Spec.grammar_char field); [reflexivity| |exact Hf].
  intros c Hc. now apply reg_char_grammar, field_char_is_reg_char.
Qed.

Lemma dot_only_chars (q : string) r :
  Reg.dot_only q = Some r -> Str.all Spec.grammar_char q = true.
Proof.
  unfold Reg.dot_only.
  destruct (Reg.match_dot q) as [[[reg field] rest]|] eqn:Hd; [|discriminate].
  apply match_dot_spec in Hd as (-> & Hr & Hf).
  destruct rest; [|discriminate]. intros _.
  rewrite all_append. cbn [String.append Str.all]. rewrite all_append.
  rewrite (all_impl _ _ _ reg_char_grammar Hr).
  rewrite (all_impl Reg.is_field_char Spec.grammar_char field); [reflexivity| |exact Hf].
  intros c Hc. now apply reg_char_grammar, field_char_is_reg_char.
Qed.

Lemma bracket_chars (q : string) r :
  Reg.bracket q = Some r -> Str.all Spec.grammar_char q = true.
Proof.
  unfold Reg.bracket.
  destruct (Str.span Reg.is_reg_char q) as [reg s1] eqn:S1.
  apply span_spec in S1 as [-> Hr].
  destruct (Str.is_empty reg); [discriminate|].
  rewrite all_append, (all_impl _ _ _ reg_char_grammar Hr).
  destruct s1 as [|c s1]; [reflexivity|].
  destruct (Reg.match_index (String c s1)) as [idx|] eqn:Hi; [|discriminate].
  intros _. now apply match_index_chars in Hi.
Qed.

Lemma allowed_def_chars (q : string) :
  Reg.allowed_def q = true -> Str.all Reg.is_field_char q = true.
Proof.
  unfold Reg.allowed_def, Reg.ALLOWED_DEFS. cbn [existsb].
  rewrite !orb_true_iff, !String.eqb_eq.
  intros [->|[->|[->|[->|[->|[->|[=]]]]]]]; reflexivity.
Qed.

Lemma match_index_text (d1 : string) (d2 : option string) :
  Spec.digits d1 ->
  match d2 with Some d => Spec.digits d | None => True end ->
  Reg.match_index (Spec.index_text d1 d2) = Some (d1, d2).
Proof.
  intros [H1 N1] H2. unfold Spec.index_text. destruct d2 as [d|].
  - destruct H2 as [H2 N2]. rewrite append_assoc. now apply match_index_range.
  - now apply match_index_single.
Qed.

Lemma index_text_head (d1 : string) (d2 : option string) :
  exists t, Spec.index_text d1 d2 = String "[" t.
Proof. unfold Spec.index_text. eexists. reflexivity. Qed.

Lemma index_text_last (d1 : string) (d2 : option string) :
  exists t, Str.rev (Spec.index_text d1 d2) = String "]" t.
Proof.
  unfold Spec.index_text.
  change ("[" ++ ?x) with (String "[" "" ++ x).
  rewrite !rev_append. eexists. reflexivity.
Qed.

(** *** numbers in an index *)

Lemma digit_value_dec (c : ascii) :
  Str.is_digit c = true -> digit_value 10 c = Some (Str.code c - 48)%Z.
Proof.
  intros Hc. unfold digit_value. rewrite Hc.
  apply in_range_spec in Hc.
  destruct (Z.ltb_spec (Str.code c - 48) 10); [reflexivity|lia].
Qed.

Lemma read_digits_count (base : Z) (s : string) (acc : Z) (n : nat) :
  (n <= snd (read_digits base s acc n))%nat.
Proof.
  revert acc n. induction s as [|c s IH]; intros acc n; simpl; [lia|].
  destruct (digit_value base c); simpl; [|lia].
  specialize (IH (acc * base + z)%Z (S n)). lia.
Qed.

Lemma strto_digits (d : string) :
  Spec.digits d -> exists v, strto 10 d = Some (false, v).
Proof.
  intros [Hd Nd]. destruct d as [|c d]; [congruence|].
  simpl in Hd. apply andb_true_iff in Hd as [Hc Hd].
  assert (Hsp : Str.is_space c = false).
  { now apply reg_char_not_space, field_char_is_reg_char, digit_is_field_char. }
  unfold strto. rewrite (skip_spaces_stops (String c d)) by exact Hsp.
  assert (Hsign : strip_sign (String c d) = (false, String c d)).
  { unfold strip_sign.
    destruct (Ascii.eqb_spec c "-") as [->|_]; [discriminate|].
    destruct (Ascii.eqb_spec c "+") as [->|_]; [discriminate|reflexivity]. }
  rewrite Hsign.
  assert (H0x : strip_0x 10 (String c d) = String c d).
  { unfold strip_0x. destruct d as [|x [|h r]]; reflexivity. }
  rewrite H0x. cbn [read_digits]. rewrite (digit_value_dec c Hc).
  pose proof (read_digits_count 10 d (0 * 10 + (Str.code c - 48)) 1) as Hn.
  destruct (read_digits 10 d _ 1) as [v n]. simpl in Hn.
  destruct n; [lia|]. eauto.
Qed.

(** on a string of digits [std::stoi] returns, or throws [out_of_range] *)
Lemma stoi_digits (d : string) :
  Spec.digits d -> stoi d = inl out_of_range \/ exists v, stoi d = inr v.
Proof.
  intros [v Hv]%strto_digits. unfold stoi. rewrite Hv.
  destruct (_ || _); eauto.
Qed.

(** ** The register query resolver *)

Section Resolver.

Import Reg.

Variable REGISTER_DATABASE : gmap string RegisterInfo.
Variable DEFINITION_TO_FIELDS : gmap string (list (string * string)).

Abbreviation run := (run_register_query REGISTER_DATABASE DEFINITION_TO_FIELDS).

Lemma reg_token_stops (reg rest : string) :
  Spec.reg_token reg -> stops Str.is_space (reg ++ rest).
Proof.
  intros [Hr Nr]. destruct reg as [|c reg]; [congruence|].
  simpl in *. apply andb_true_iff in Hr as [Hc _]. now apply reg_char_not_space.
Qed.

Lemma trim_indexed (body d1 : string) (d2 : option string) :
  stops Str.is_space (body ++ Spec.index_text d1 d2) ->
  trim (body ++ Spec.index_text d1 d2) = body ++ Spec.index_text d1 d2.
Proof.
  intros Hs. apply trim_id; [exact Hs|].
  rewrite rev_append. destruct (index_text_last d1 d2) as [t ->]. reflexivity.
Qed.

Lemma not_allowed_def (a b : string) (c : ascii) :
  is_field_char c = false -> allowed_def (a ++ String c "" ++ b) = false.
Proof.
  intros Hc. destruct (allowed_def _) eqn:Ha; [|reflexivity].
  apply allowed_def_chars in Ha. rewrite all_append in Ha. simpl in Ha.
  rewrite Hc in Ha. now rewrite andb_false_r in Ha.
Qed.

(** the form [REG.FIELD[hi:lo]] or [REG.FIELD[bit]] reaches the first branch *)
Lemma run_field_range_form (reg field d1 : string) (d2 : option string)
  (json_out : bool) :
  Spec.reg_token reg -> Spec.field_token field -> Spec.digits d1 ->
  match d2 with Some d => Spec.digits d | None => True end ->
  run (reg ++ "." ++ field ++ Spec.index_text d1 d2) json_out
  = with_range d1 d2
      (fun start end_ =>
         query_field_range REGISTER_DATABASE reg field start end_ json_out).
Proof.
  intros Hreg Hfield Hd1 Hd2. unfold run_register_query.
  assert (Htrim : trim (reg ++ "." ++ field ++ Spec.index_text d1 d2)
                  = reg ++ "." ++ field ++ Spec.index_text d1 d2).
  { rewrite <- !append_assoc. apply trim_indexed. rewrite !append_assoc.
    now apply reg_token_stops. }
  rewrite Htrim.
  rewrite (not_allowed_def reg _ ".") by reflexivity.
  unfold dot_bracket.
  destruct Hreg as [Hr Nr], Hfield as [Hf Nf].
  rewrite match_dot_append; try assumption.
  - now rewrite match_index_text.
  - destruct (index_text_head d1 d2) as [t ->]. reflexivity.
Qed.

(** the form [REG[hi:lo]] or [REG[bit]] reaches the bit-range branch *)
Lemma run_bit_range_form (reg d1 : string) (d2 : option string) (json_out : bool) :
  Spec.reg_token reg -> Spec.digits d1 ->
  match d2 with Some d => Spec.digits d | None => True end ->
  run (reg ++ Spec.index_text d1 d2) json_out
  = with_range d1 d2
      (fun start end_ => query_bit_range REGISTER_DATABASE reg start end_ json_out).
Proof.
  intros Hreg Hd1 Hd2. unfold run_register_query.
  rewrite trim_indexed by now apply reg_token_stops.
  destruct (index_text_head d1 d2) as [t Ht].
  assert (Hdef : allowed_def (reg ++ Spec.index_text d1 d2) = false).
  { rewrite Ht. now apply (not_allowed_def reg t "["). }
  rewrite Hdef.
  destruct Hreg as [Hr Nr].
  assert (Hdot : match_dot (reg ++ Spec.index_text d1 d2) = None).
  { rewrite Ht. now apply match_dot_no_dot. }
  unfold dot_bracket, dot_only. rewrite Hdot.
  now rewrite (bracket_index reg _ (d1, d2)) by (try apply match_index_text; assumption).
Qed.

(** a register token alone, not a definition keyword, reaches the
    whole-register branch *)
Lemma run_register_form (reg : string) (json_out : bool) :
  Spec.reg_token reg -> allowed_def reg = false ->
  run reg json_out = query_register REGISTER_DATABASE reg json_out.
Proof.
  intros [Hr Nr] Hdef. unfold run_register_query.
  assert (Htrim : trim reg = reg).
  { apply trim_id.
    - apply (all_stops is_reg_char); [exact reg_char_not_space|exact Hr].
    - apply (all_stops is_reg_char); [exact reg_char_not_space|].
      now rewrite all_rev. }
  rewrite Htrim, Hdef.
  assert (Hdot : match_dot reg = None).
  { rewrite <- (append_nil_r reg). now apply match_dot_no_dot. }
  unfold dot_bracket, dot_only. rewrite Hdot.
  now rewrite bracket_alone.
Qed.

End Resolver.

(** C10: a query that, once trimmed, contains a lower-case ASCII letter
    matches no form of the grammar and is no definition keyword: whatever
    the catalogs hold, the run writes the invalid-query diagnostic to the
    error stream and returns status 1. *)
Theorem C10_lowercase_query_is_invalid
  (REGISTER_DATABASE : gmap string Reg.RegisterInfo)
  (DEFINITION_TO_FIELDS : gmap string (list (string * string)))
  (query : string) (json_out : bool) :
  Str.any Str.is_lower (Reg.trim query) = true ->
  Reg.run_register_query REGISTER_DATABASE DEFINITION_TO_FIELDS query json_out
  = Finished "" ("Error: Invalid query format: '" ++ query ++ "'" ++ Str.nl) 1.
Proof.
  intros Hlow. unfold Reg.run_register_query.
  assert (Hno : Str.all Spec.grammar_char (Reg.trim query) = true -> False).
  { intros Hall. apply (any_all Str.is_lower) in Hall; [congruence|].
    exact grammar_char_not_lower. }
  destruct (Reg.allowed_def _) eqn:Hdef.
  { exfalso. apply Hno. apply allowed_def_chars in Hdef.
    revert Hdef. apply all_impl. intros c Hc.
    now apply reg_char_grammar, field_char_is_reg_char. }
  destruct (Reg.dot_bracket _) as [[[[reg field] d1] d2]|] eqn:H1.
  { exfalso. apply Hno. now apply dot_bracket_chars in H1. }
  destruct (Reg.dot_only _) as [[reg field]|] eqn:H2.
  { exfalso. apply Hno. now apply dot_only_chars in H2. }
  destruct (Reg.bracket _) as [[reg idx]|] eqn:H3.
  { exfalso. apply Hno. now apply bracket_chars in H3. }
  reflexivity.
Qed.

Lemma C10_lowercase_query_is_invalid_witness :
  Str.any Str.is_lower (Reg.trim "  HCR_EL2.tge ") = true
  /\ Reg.run_register_query Sample.REGISTER_DATABASE Sample.DEFINITION_TO_FIELDS
       "  HCR_EL2.tge " true
     = Finished "" ("Error: Invalid query format: '  HCR_EL2.tge '" ++ Str.nl) 1.
Proof.
  split; [reflexivity|].
  apply (C10_lowercase_query_is_invalid
           Sample.REGISTER_DATABASE Sample.DEFINITION_TO_FIELDS "  HCR_EL2.tge " true).
  reflexivity.
Defined.

(** C3, as the code has it: a query that is a register token alone, is not
    a definition keyword and names no register of the catalog fails with
    the register-not-found diagnostic and status 1. No search by field name
    across the catalog takes place. *)
Theorem C3_unknown_register_not_found
  (REGISTER_DATABASE : gmap string Reg.RegisterInfo)
  (DEFINITION_TO_FIELDS : gmap string (list (string * string)))
  (reg : string) (json_out : bool) :
  Spec.reg_token reg ->
  Reg.allowed_def reg = false ->
  REGISTER_DATABASE !! reg = None ->
  Reg.run_register_query REGISTER_DATABASE DEFINITION_TO_FIELDS reg json_out
  = Finished "" ("Error: Register '" ++ reg ++ "' not found in database." ++ Str.nl) 1.
Proof.
  intros Hreg Hdef Hnone.
  rewrite run_register_form by assumption.
  unfold Reg.query_register. now rewrite Hnone.
Qed.

Lemma C3_unknown_register_not_found_witness :
  Spec.reg_token "SWIO"
  /\ Reg.allowed_def "SWIO" = false
  /\ Sample.REGISTER_DATABASE !! "SWIO" = None
  /\ Reg.run_register_query Sample.REGISTER_DATABASE Sample.DEFINITION_TO_FIELDS
       "SWIO" false
     = Finished "" ("Error: Register 'SWIO' not found in database." ++ Str.nl) 1.
Proof.
  assert (Htok : Spec.reg_token "SWIO") by (split; [reflexivity|discriminate]).
  split; [exact Htok|]. split; [reflexivity|]. split; [reflexivity|].
  exact (C3_unknown_register_not_found
           Sample.REGISTER_DATABASE Sample.DEFINITION_TO_FIELDS "SWIO" false
           Htok eq_refl eq_refl).
Defined.

(** C3 as stated fails: the catalog has a field named SWIO, so the global
    field-name search of the claim has a result, and yet the query [SWIO]
    fails, with the register-not-found diagnostic. *)
Lemma C3_counterexample :
  Sample.REGISTER_DATABASE !! "SWIO" = None
  /\ Spec.global_field_search Sample.REGISTER_DATABASE "SWIO"
     = [("HCR_EL2", Sample.swio)]
  /\ Reg.run_register_query Sample.REGISTER_DATABASE Sample.DEFINITION_TO_FIELDS
       "SWIO" false
     = Finished "" ("Error: Register 'SWIO' not found in database." ++ Str.nl) 1.
Proof. repeat split; vm_compute; reflexivity. Qed.

(** C5, as the code has it: for a query [REG.FIELD[hi:lo]] or
    [REG.FIELD[bit]] on a register of the catalog, with indexes that fit in
    an [int]: when no field of the register has the name FIELD at exactly
    the range [max(hi,lo):min(hi,lo)], the run fails with status 1 and one
    diagnostic, "exists but not at bit range ... or not found", the same
    text whether or not some field of the register is named FIELD; when
    such a field is there, the run succeeds with status 0. *)
Theorem C5_field_range_combined_diagnostic
  (REGISTER_DATABASE : gmap string Reg.RegisterInfo)
  (DEFINITION_TO_FIELDS : gmap string (list (string * string)))
  (reg field d1 : string) (d2 : option string) (json_out : bool)
  (info : Reg.RegisterInfo) (hi lo : Z) :
  Spec.reg_token reg -> Spec.field_token field -> Spec.digits d1 ->
  stoi d1 = inr hi ->
  match d2 with
  | Some d => Spec.digits d /\ stoi d = inr lo
  | None => lo = hi
  end ->
  REGISTER_DATABASE !! reg = Some info ->
  let start := Z.min hi lo in
  let end_ := Z.max hi lo in
  let at_range (fld : Reg.RegisterField) :=
    Reg.field_name fld = field
    /\ Reg.field_msb fld = end_ /\ Reg.field_lsb fld = start in
  let result :=
    Reg.run_register_query REGISTER_DATABASE DEFINITION_TO_FIELDS
      (reg ++ "." ++ field ++ Spec.index_text d1 d2) json_out in
  ((forall fld, In fld (Reg.fields info) -> ~ at_range fld) ->
   result
   = Finished ""
       ("Error: Field '" ++ field ++ "' exists but not at bit range ["
        ++ to_string end_ ++ ":" ++ to_string start ++ "] or not found." ++ Str.nl)
       1)
  /\ ((exists fld, In fld (Reg.fields info) /\ at_range fld) ->
      exists text, result = Finished text "" 0).
Proof.
  intros Hreg Hfield Hd1 Hhi Hd2 Hinfo start end_ at_range result.
  assert (Hrun : result
                 = Reg.query_field_range REGISTER_DATABASE reg field start end_ json_out).
  { unfold result. rewrite run_field_range_form; try assumption.
    - unfold Reg.with_range. rewrite Hhi.
      destruct d2 as [d|]; [destruct Hd2 as [_ ->]|subst lo]; reflexivity.
    - destruct d2; tauto. }
  rewrite Hrun. unfold Reg.query_field_range. rewrite Hinfo.
  destruct (List.find _ (Reg.fields info)) as [fld|] eqn:Hfind.
  - apply List.find_some in Hfind as [Hin Hfld].
    apply andb_true_iff in Hfld as [[Hn%String.eqb_eq Hm%Z.eqb_eq]%andb_true_iff Hl%Z.eqb_eq].
    split; [|eauto].
    intros Hnone. destruct (Hnone fld Hin). now repeat split.
  - split; [reflexivity|].
    intros (fld & Hin & Hn & Hm & Hl).
    pose proof (List.find_none _ _ Hfind fld Hin) as Hf. cbv beta in Hf.
    rewrite Hn, Hm, Hl, String.eqb_refl, !Z.eqb_refl in Hf. discriminate.
Qed.

Lemma C5_field_range_combined_diagnostic_witness :
  Reg.run_register_query Sample.REGISTER_DATABASE Sample.DEFINITION_TO_FIELDS
    "HCR_EL2.SWIO[2:2]" false
  = Finished ""
      ("Error: Field 'SWIO' exists but not at bit range [2:2] or not found." ++ Str.nl)
      1.
Proof.
  assert (Hreg : Spec.reg_token "HCR_EL2") by (split; [reflexivity|discriminate]).
  assert (Hfield : Spec.field_token "SWIO") by (split; [reflexivity|discriminate]).
  assert (Hd : Spec.digits "2") by (split; [reflexivity|discriminate]).
  refine (proj1 (C5_field_range_combined_diagnostic
                   Sample.REGISTER_DATABASE Sample.DEFINITION_TO_FIELDS
                   "HCR_EL2" "SWIO" "2" (Some "2") false Sample.hcr_el2 2 2
                   Hreg Hfield Hd eq_refl (conj Hd eq_refl) eq_refl) _).
  intros fld Hin (Hn & Hm & Hl).
  simpl in Hin.
  destruct Hin as [<-|[<-|[<-|[<-|[]]]]]; discriminate.
Defined.

(** C5 as stated fails: one catalog has SWIO at [1:1], the other has no
    field named SWIO, and the query for SWIO at [2:2] ends in the very same
    way on both, so a missing field and a field at another range are not
    told apart. *)
Lemma C5_counterexample :
  In Sample.swio (Reg.fields Sample.hcr_el2)
  /\ (forall fld, In fld (Reg.fields Sample.hcr_el2_no_swio) ->
      Reg.field_name fld <> "SWIO")
  /\ Reg.run_register_query Sample.REGISTER_DATABASE Sample.DEFINITION_TO_FIELDS
       "HCR_EL2.SWIO[2:2]" false
     = Reg.run_register_query Sample.REGISTER_DATABASE_no_swio
         Sample.DEFINITION_TO_FIELDS "HCR_EL2.SWIO[2:2]" false
  /\ Reg.run_register_query Sample.REGISTER_DATABASE_no_swio
       Sample.DEFINITION_TO_FIELDS "HCR_EL2.SWIO[2:2]" false
     = Finished ""
         ("Error: Field 'SWIO' exists but not at bit range [2:2] or not found."
          ++ Str.nl) 1.
Proof.
  split; [simpl; tauto|]. split; [|split; vm_compute; reflexivity].
  intros fld Hin. simpl in Hin.
  destruct Hin as [<-|[<-|[<-|[]]]]; discriminate.
Qed.

Lemma with_range_swap (d1 d2 : string) (k : Z -> Z -> outcome) :
  Spec.digits d1 -> Spec.digits d2 ->
  Reg.with_range d1 (Some d2) k = Reg.with_range d2 (Some d1) k.
Proof.
  intros H1 H2. unfold Reg.with_range.
  destruct (stoi_digits d1 H1) as [E1|[v1 E1]], (stoi_digits d2 H2) as [E2|[v2 E2]];
    rewrite E1, E2; try reflexivity.
  now rewrite Z.min_comm, Z.max_comm.
Qed.

(** C7, as the code has it: on the bit-range form the order of the two
    endpoints does not change the run, for any register token, any two
    digit strings and any catalog. For a register of the catalog and
    endpoints that fit in an [int], with [start = min(hi,lo)] and
    [end = max(hi,lo)], the fields that pass the overlap test
    [lsb <= end && msb >= start] are taken in field order: when there is
    none the run fails with status 1; when the endpoints differ all of them
    are listed; when the endpoints are equal only the first of them is
    reported. *)
Theorem C7_bit_range_symmetric_overlap
  (REGISTER_DATABASE : gmap string Reg.RegisterInfo)
  (DEFINITION_TO_FIELDS : gmap string (list (string * string)))
  (reg d1 d2 : string) (json_out : bool) :
  Spec.reg_token reg -> Spec.digits d1 -> Spec.digits d2 ->
  let run := Reg.run_register_query REGISTER_DATABASE DEFINITION_TO_FIELDS in
  run (reg ++ Spec.index_text d1 (Some d2)) json_out
  = run (reg ++ Spec.index_text d2 (Some d1)) json_out
  /\ forall (info : Reg.RegisterInfo) (hi lo : Z),
      REGISTER_DATABASE !! reg = Some info ->
      stoi d1 = inr hi -> stoi d2 = inr lo ->
      let start := Z.min hi lo in
      let end_ := Z.max hi lo in
      let matching_fields :=
        List.filter
          (fun fld => (Reg.field_lsb fld <=? end_)%Z && (Reg.field_msb fld >=? start)%Z)
          (Reg.fields info) in
      match matching_fields with
      | [] =>
          run (reg ++ Spec.index_text d1 (Some d2)) json_out
          = Finished ""
              ("Error: No fields found for bit range [" ++ to_string end_ ++ ":"
               ++ to_string start ++ "] in register '" ++ reg ++ "'" ++ Str.nl) 1
      | first_field :: _ =>
          run (reg ++ Spec.index_text d1 (Some d2)) false
          = Finished
              (if (start =? end_)%Z then
                 "Register: " ++ reg ++ Str.nl
                 ++ "Bit Position: [" ++ to_string start ++ "]" ++ Str.nl
                 ++ "Field Name: " ++ Reg.field_name first_field ++ Str.nl
               else
                 "Register: " ++ reg ++ Str.nl
                 ++ "Bit Range: [" ++ to_string end_ ++ ":" ++ to_string start ++ "]"
                 ++ Str.nl
                 ++ Reg.fields_text matching_fields)
              "" 0
          /\ exists text, run (reg ++ Spec.index_text d1 (Some d2)) true
                          = Finished text "" 0
      end.
Proof.
  intros Hreg H1 H2 run. split.
  - unfold run. rewrite !run_bit_range_form by assumption.
    now apply with_range_swap.
  - intros info hi lo Hinfo Hhi Hlo start end_ matching_fields.
    assert (Hrun : forall j, run (reg ++ Spec.index_text d1 (Some d2)) j
                   = Reg.query_bit_range REGISTER_DATABASE reg start end_ j).
    { intros j. unfold run. rewrite run_bit_range_form by assumption.
      unfold Reg.with_range. now rewrite Hhi, Hlo. }
    rewrite !Hrun. unfold Reg.query_bit_range. rewrite Hinfo.
    change (List.filter (Reg.overlaps start end_) (Reg.fields info))
      with matching_fields.
    destruct matching_fields as [|first_field others]; [reflexivity|].
    split.
    + destruct (start =? end_)%Z; reflexivity.
    + destruct (start =? end_)%Z; eauto.
Qed.

Lemma C7_bit_range_symmetric_overlap_witness :
  Reg.run_register_query Sample.REGISTER_DATABASE Sample.DEFINITION_TO_FIELDS
    "HCR_EL2[3:1]" true
  = Reg.run_register_query Sample.REGISTER_DATABASE Sample.DEFINITION_TO_FIELDS
      "HCR_EL2[1:3]" true.
Proof.
  assert (Hreg : Spec.reg_token "HCR_EL2") by (split; [reflexivity|discriminate]).
  assert (H3 : Spec.digits "3") by (split; [reflexivity|discriminate]).
  assert (H1 : Spec.digits "1") by (split; [reflexivity|discriminate]).
  exact (proj1 (C7_bit_range_symmetric_overlap
                  Sample.REGISTER_DATABASE Sample.DEFINITION_TO_FIELDS
                  "HCR_EL2" "3" "1" true Hreg H3 H1)).
Defined.

(** C7 as stated fails: bit 1 of the register lies in both WIDE [3:0] and
    SWIO [1:1], both pass the overlap test, and the query for bit 1 reports
    WIDE only. *)
Lemma C7_counterexample :
  List.filter (Reg.overlaps 1 1) (Reg.fields Sample.hcr_el2)
  = [Sample.wide; Sample.swio]
  /\ Reg.run_register_query Sample.REGISTER_DATABASE Sample.DEFINITION_TO_FIELDS
       "HCR_EL2[1:1]" false
     = Finished
         ("Register: HCR_EL2" ++ Str.nl ++ "Bit Position: [1]" ++ Str.nl
          ++ "Field Name: WIDE" ++ Str.nl) "" 0
  /\ Str.find "SWIO"
       (stdout_of
          (Reg.run_register_query Sample.REGISTER_DATABASE
             Sample.DEFINITION_TO_FIELDS "HCR_EL2[1:1]" false))
     = None.
Proof. repeat split; vm_compute; reflexivity. Qed.

(** ** Completion status *)

Lemma diagnostic_nl : Spec.diagnostic Str.nl.
Proof. now exists "". Qed.

Lemma diagnostic_append (a s : string) :
  Spec.diagnostic s -> Spec.diagnostic (a ++ s).
Proof. intros [body ->]. exists (a ++ body). now rewrite append_assoc. Qed.

Create HintDb diag.
#[local] Hint Resolve diagnostic_nl diagnostic_append : diag.

Lemma register_query_contract
  (REGISTER_DATABASE : gmap string Reg.RegisterInfo)
  (DEFINITION_TO_FIELDS : gmap string (list (string * string)))
  (query : string) (json_out : bool) :
  match Reg.run_register_query REGISTER_DATABASE DEFINITION_TO_FIELDS
          query json_out with
  | Finished cout cerr status =>
      (status = 0%Z /\ cerr = "")
      \/ (status = 1%Z /\ cout = "" /\ Spec.diagnostic cerr)
  | Uncaught cout cerr _ => cout = "" /\ cerr = ""
  end.
Proof.
  assert (Hrange : forall d1 d2 k,
             (forall s e,
                 match k s e with
                 | Finished cout cerr status =>
                     (status = 0%Z /\ cerr = "")
                     \/ (status = 1%Z /\ cout = "" /\ Spec.diagnostic cerr)
                 | Uncaught cout cerr _ => cout = "" /\ cerr = ""
                 end) ->
             match Reg.with_range d1 d2 k with
             | Finished cout cerr status =>
                 (status = 0%Z /\ cerr = "")
                 \/ (status = 1%Z /\ cout = "" /\ Spec.diagnostic cerr)
             | Uncaught cout cerr _ => cout = "" /\ cerr = ""
             end).
  { intros d1 d2 k Hk. unfold Reg.with_range.
    destruct (stoi d1); [auto|].
    destruct d2 as [d|]; [destruct (stoi d)|]; auto; apply Hk. }
  unfold Reg.run_register_query.
  destruct (Reg.allowed_def _).
  { unfold Reg.run_fielddef_query.
    destruct (_ !! _); [destruct json_out; auto|].
    right. repeat split. auto 6 with diag. }
  destruct (Reg.dot_bracket _) as [[[[reg field] d1] d2]|].
  { apply Hrange. intros s e. unfold Reg.query_field_range, Reg.register_not_found.
    destruct (_ !! _); [|right; repeat split; auto 6 with diag].
    destruct (List.find _ _); [auto|].
    right. repeat split. auto 10 with diag. }
  destruct (Reg.dot_only _) as [[reg field]|].
  { unfold Reg.query_field, Reg.register_not_found.
    destruct (_ !! _); [|right; repeat split; auto 6 with diag].
    destruct (List.find _ _); [auto|].
    right. repeat split. auto 10 with diag. }
  destruct (Reg.bracket _) as [[reg [[d1 d2]|]]|].
  - apply Hrange. intros s e. unfold Reg.query_bit_range, Reg.register_not_found.
    destruct (_ !! _); [|right; repeat split; auto 6 with diag].
    destruct (List.filter _ _); [right; repeat split; auto 10 with diag|].
    destruct (s =? e)%Z; auto.
  - unfold Reg.query_register, Reg.register_not_found.
    destruct (_ !! _); [auto|right; repeat split; auto 6 with diag].
  - right. repeat split. unfold Reg.invalid_query. auto 6 with diag.
Qed.

(** C6, as the code has it: a decode run of a literal that parses writes
    one line per match and returns status 0, also when nothing matched and
    the no-match diagnostic went to the error stream; a literal without
    the 0x or 0b prefix ends the run with one diagnostic and status 1. A
    register query that returns ends with status 0 and nothing on the error
    stream, or with status 1, nothing on the output stream and one
    diagnostic on the error stream. *)
Theorem C6_exit_contract
  (encoding_arrays : list (list Isa.EncodingPattern))
  (REGISTER_DATABASE : gmap string Reg.RegisterInfo)
  (DEFINITION_TO_FIELDS : gmap string (list (string * string))) :
  (forall (argv0 opcode_str : string) (rest : list string),
      let result := Isa.main encoding_arrays (argv0 :: "--op" :: opcode_str :: rest) in
      match Isa.parse_opcode opcode_str with
      | Isa.Value opcode =>
          let lines := Spec.decode_lines (List.concat encoding_arrays) opcode in
          exists cerr,
            result = Finished (Spec.emit lines) cerr 0
            /\ match lines with
               | [] => Spec.diagnostic cerr
               | _ :: _ => cerr = ""
               end
      | Isa.Exit cerr status =>
          result = Finished "" cerr 1 /\ status = 1%Z /\ Spec.diagnostic cerr
      | Isa.Throw e => result = Uncaught "" "" e
      end)
  /\ (forall (query : string) (json_out : bool),
         match Reg.run_register_query REGISTER_DATABASE DEFINITION_TO_FIELDS
                 query json_out with
         | Finished cout cerr status =>
             (status = 0%Z /\ cerr = "")
             \/ (status = 1%Z /\ cout = "" /\ Spec.diagnostic cerr)
         | Uncaught cout cerr _ => cout = "" /\ cerr = ""
         end).
Proof.
  split; [|apply register_query_contract].
  intros argv0 opcode_str rest result.
  destruct (Isa.parse_opcode opcode_str) as [opcode|cerr status|e] eqn:Hparse.
  - intros lines.
    unfold result. rewrite (main_decodes _ _ argv0 opcode_str rest Hparse).
    rewrite query_by_opcode_streams. fold lines. cbn [fst snd].
    eexists. split; [reflexivity|].
    destruct lines; [auto 6 with diag|reflexivity].
  - unfold result, Isa.main. cbn [String.eqb Ascii.eqb Bool.eqb orb].
    rewrite Hparse. unfold Isa.parse_opcode in Hparse.
    destruct (_ || _) in Hparse; [destruct (stoul _ 16); discriminate|].
    destruct (_ || _) in Hparse; [destruct (stoul _ 2); discriminate|].
    injection Hparse as <- <-. repeat split.
    now exists "Error: Opcode must start with 0x (hex) or 0b (binary)".
  - unfold result, Isa.main. cbn [String.eqb Ascii.eqb Bool.eqb orb].
    now rewrite Hparse.
Qed.

(** C6 as stated fails: the opcode 0x00000001 matches no pattern of the
    catalog, the no-match diagnostic goes to the error stream, and the run
    returns status 0. *)
Lemma C6_counterexample :
  Isa.parse_opcode "0x00000001" = Isa.Value 1
  /\ Spec.decode_lines (List.concat Sample.encoding_arrays) 1 = []
  /\ Isa.main Sample.encoding_arrays ["query_isa"; "--op"; "0x00000001"]
     = Finished ""
         ("No matching instruction found for opcode: 0x00000001" ++ Str.nl) 0.
Proof. repeat split; vm_compute; reflexivity. Qed.

(** C4: the code does not do what the claim asks for. After a valid prefix
    [std::stoul] reads the longest run of valid digits and ignores what
    follows, the assignment to [uint32_t] drops the bits above bit 31, and
    when no digit can be read the exception is not caught. *)
Theorem C4_parse_opcode_accepts_malformed_literals :
  Isa.parse_opcode "0x1FFFFFFFF" = Isa.Value 0xFFFFFFFF
  /\ Isa.parse_opcode "0x91000000zz" = Isa.Value 0x91000000
  /\ Isa.parse_opcode "0b102" = Isa.Value 2
  /\ Isa.parse_opcode "0xzz" = Isa.Throw invalid_argument
  /\ Isa.main Sample.encoding_arrays ["query_isa"; "--op"; "0x191000000"]
     = Finished ("ADD x0, x0, #0x0" ++ Str.nl ++ "MOV x0, x0" ++ Str.nl) "" 0
  /\ Isa.main Sample.encoding_arrays ["query_isa"; "--op"; "0xd503201f!"]
     = Finished ("NOP" ++ Str.nl ++ "HINT #0x0" ++ Str.nl) "" 0
  /\ Isa.main Sample.encoding_arrays ["query_isa"; "--op"; "0xzz"]
     = Uncaught "" "" invalid_argument.
Proof. repeat split; vm_compute; reflexivity. Qed.

(** ** Field extraction *)

(** *** the ordered map of bit positions *)

Lemma compare_refl (k : string) : String.compare k k = Eq.
Proof.
  pose proof (String.compare_antisym k k) as H.
  destruct (String.compare k k); simpl in H; congruence.
Qed.

Lemma compare_lt_trans (a b c : string) :
  String.compare a b = Lt -> String.compare b c = Lt -> String.compare a c = Lt.
Proof.
  intros Hab Hbc.
  apply OrderedTypeEx.String_as_OT.cmp_lt.
  eapply OrderedTypeEx.String_as_OT.lt_trans;
    apply OrderedTypeEx.String_as_OT.cmp_lt; eassumption.
Qed.

Lemma compare_lt_neq (a b : string) : String.compare a b = Lt -> a <> b.
Proof. intros H ->. rewrite compare_refl in H. discriminate. Qed.

Lemma compare_gt_lt (a b : string) :
  String.compare a b = Gt -> String.compare b a = Lt.
Proof. intros H. rewrite String.compare_antisym, H. reflexivity. Qed.

Lemma lookup_bits_above (k : string) (m : Isa.bits_map) :
  Forall (fun e => String.compare k (fst e) = Lt) m -> Isa.lookup_bits k m = None.
Proof.
  induction 1 as [|[k' vs] m Hk _ IH]; simpl in *; [reflexivity|].
  apply compare_lt_neq, String.eqb_neq in Hk. now rewrite Hk.
Qed.

Lemma push_back_above (k0 k : string) (v : Z) (m : Isa.bits_map) :
  String.compare k0 k = Lt ->
  Forall (fun e => String.compare k0 (fst e) = Lt) m ->
  Forall (fun e => String.compare k0 (fst e) = Lt) (Isa.push_back k v m).
Proof.
  intros Hk. induction 1 as [|[k' vs] m Hk' Hm IH]; simpl.
  - now repeat constructor.
  - destruct (String.compare k k'); now repeat constructor.
Qed.

Lemma push_back_ascending (k : string) (v : Z) (m : Isa.bits_map) :
  Spec.ascending m -> Spec.ascending (Isa.push_back k v m).
Proof.
  induction m as [|[k' vs] m IH]; simpl; [now repeat constructor|].
  intros [Hall Hm].
  destruct (String.compare k k') eqn:Hc; simpl.
  - now split.
  - split; [|now split]. constructor; [exact Hc|].
    eapply List.Forall_impl; [|exact Hall].
    intros e He. now apply (compare_lt_trans k k').
  - split; [|now apply IH].
    apply push_back_above; [now apply compare_gt_lt|exact Hall].
Qed.

Lemma lookup_push_back_eq (k : string) (v : Z) (m : Isa.bits_map) :
  Spec.ascending m ->
  Isa.lookup_bits k (Isa.push_back k v m)
  = Spec.pushed (Isa.lookup_bits k m) [v].
Proof.
  induction m as [|[k' vs] m IH]; simpl.
  - intros _. rewrite String.eqb_refl. reflexivity.
  - intros [Hall Hm]. destruct (String.compare k k') eqn:Hc; simpl.
    + apply String.compare_eq_iff in Hc as <-. rewrite !String.eqb_refl. reflexivity.
    + rewrite String.eqb_refl.
      pose proof Hc as Hne. apply compare_lt_neq, String.eqb_neq in Hne.
      rewrite Hne.
      rewrite lookup_bits_above; [reflexivity|].
      eapply List.Forall_impl; [|exact Hall].
      intros e He. now apply (compare_lt_trans k k').
    + apply compare_gt_lt, compare_lt_neq in Hc.
      assert (Hne : String.eqb k k' = false) by (apply String.eqb_neq; congruence).
      rewrite Hne. apply IH, Hm.
Qed.

Lemma lookup_push_back_ne (k k0 : string) (v : Z) (m : Isa.bits_map) :
  k0 <> k -> Isa.lookup_bits k0 (Isa.push_back k v m) = Isa.lookup_bits k0 m.
Proof.
  intros Hne. apply String.eqb_neq in Hne.
  induction m as [|[k' vs] m IH]; simpl.
  - now rewrite Hne.
  - destruct (String.compare k k') eqn:Hc; simpl.
    + apply String.compare_eq_iff in Hc as <-. now rewrite Hne.
    + now rewrite Hne.
    + now rewrite IH.
Qed.

Lemma push_back_keys (k k0 : string) (v : Z) (m : Isa.bits_map) :
  In k0 (List.map fst (Isa.push_back k v m)) -> k0 = k \/ In k0 (List.map fst m).
Proof.
  induction m as [|[k' vs] m IH]; simpl.
  - intros [<-|[]]. now left.
  - destruct (String.compare k k') eqn:Hc; simpl.
    + tauto.
    + intros [<-|H]; [now left|now right].
    + intros [<-|H]; [tauto|]. destruct (IH H); tauto.
Qed.

Lemma ascending_lookup (k : string) (vs : list Z) (m : Isa.bits_map) :
  Spec.ascending m -> In (k, vs) m -> Isa.lookup_bits k m = Some vs.
Proof.
  induction m as [|[k' vs'] m IH]; simpl; [tauto|].
  intros [Hall Hm] [[= -> ->]|Hin].
  - now rewrite String.eqb_refl.
  - rewrite List.Forall_forall in Hall. specialize (Hall _ Hin). simpl in Hall.
    apply compare_lt_neq in Hall.
    assert (Hne : String.eqb k k' = false) by (apply String.eqb_neq; congruence).
    rewrite Hne. now apply IH.
Qed.

Lemma lookup_bits_in (k : string) (vs : list Z) (m : Isa.bits_map) :
  Isa.lookup_bits k m = Some vs -> In (k, vs) m.
Proof.
  induction m as [|[k' vs'] m IH]; simpl; [discriminate|].
  destruct (String.eqb_spec k k') as [->|_].
  - intros [= ->]. now left.
  - intros H. right. now apply IH.
Qed.

(** *** the scan of the 32 labels *)

Lemma pushed_pushed (old : option (list Z)) (v : Z) (more : list Z) :
  Spec.pushed (Spec.pushed old [v]) more = Spec.pushed old (v :: more).
Proof.
  unfold Spec.pushed. destruct more; [reflexivity|].
  now rewrite <- List.app_assoc.
Qed.

Lemma collect_fold (bit_fields : list string) (label : string)
  (indices : list nat) (m0 : Isa.bits_map) :
  Isa.is_literal label = false -> Spec.ascending m0 ->
  let m := fold_left (Isa.collect_step bit_fields) indices m0 in
  Spec.ascending m
  /\ Isa.lookup_bits label m
     = Spec.pushed (Isa.lookup_bits label m0)
         (List.map (fun i => (31 - Z.of_nat i)%Z)
            (List.filter (fun i => String.eqb (nth i bit_fields "") label) indices)).
Proof.
  intros Hlabel. revert m0.
  induction indices as [|i indices IH]; intros m0 Hm0; cbn [fold_left List.filter List.map].
  - now split.
  - unfold Isa.collect_step at 2 4.
    destruct (Isa.is_literal (nth i bit_fields "")) eqn:Hlit; cbn [negb].
    + assert (Hne : String.eqb (nth i bit_fields "") label = false).
      { apply String.eqb_neq. intros Heq. congruence. }
      rewrite Hne. now apply IH.
    + destruct (IH (Isa.push_back (nth i bit_fields "") (31 - Z.of_nat i) m0))
        as [Hasc Hlook]; [now apply push_back_ascending|].
      split; [exact Hasc|]. rewrite Hlook.
      destruct (String.eqb_spec (nth i bit_fields "") label) as [->|Hne].
      * rewrite lookup_push_back_eq by assumption.
        cbn [List.map]. apply pushed_pushed.
      * rewrite lookup_push_back_ne by congruence. reflexivity.
Qed.

Lemma collect_keys (bit_fields : list string) (k : string)
  (indices : list nat) (m0 : Isa.bits_map) :
  In k (List.map fst (fold_left (Isa.collect_step bit_fields) indices m0)) ->
  In k (List.map fst m0)
  \/ (Isa.is_literal k = false /\ exists i, In i indices /\ nth i bit_fields "" = k).
Proof.
  revert m0. induction indices as [|i indices IH]; intros m0; cbn [fold_left].
  - now left.
  - intros [Hin|(Hlit & j & Hj & Hk)]%IH.
    + unfold Isa.collect_step in Hin.
      destruct (Isa.is_literal (nth i bit_fields "")) eqn:Hlit; cbn [negb] in Hin.
      * now left.
      * apply push_back_keys in Hin as [->|Hin]; [|now left].
        right. split; [exact Hlit|]. exists i. split; [now left|reflexivity].
    + right. split; [exact Hlit|]. exists j. split; [now right|exact Hk].
Qed.

Lemma collect_field_bits_eq (bit_fields : list string) :
  Isa.collect_field_bits bit_fields
  = fold_left (Isa.collect_step bit_fields) (seq 0 32) [].
Proof. reflexivity. Qed.

(** the map built from the labels: ascending, and each label that is not a
    literal has the vector of its positions, bit 31 first *)
Lemma collect_field_bits_lookup (bit_fields : list string) (label : string) :
  Isa.is_literal label = false ->
  Spec.ascending (Isa.collect_field_bits bit_fields)
  /\ Isa.lookup_bits label (Isa.collect_field_bits bit_fields)
     = match Spec.label_positions label bit_fields with
       | [] => None
       | bits => Some bits
       end.
Proof.
  intros Hlabel.
  rewrite collect_field_bits_eq.
  destruct (collect_fold bit_fields label (seq 0 32) [] Hlabel I) as [Hasc Hlook].
  split; [exact Hasc|].
  rewrite Hlook.
  unfold Spec.pushed, Spec.label_positions. cbn [Isa.lookup_bits].
  now destruct (List.map _ _).
Qed.

Lemma label_positions_in (bit_fields : list string) (label : string) :
  length bit_fields = 32%nat -> In label bit_fields ->
  Spec.label_positions label bit_fields <> [].
Proof.
  intros Hlen Hin.
  apply (In_nth _ _ "") in Hin as (i & Hi & Hnth).
  unfold Spec.label_positions.
  assert (Hmem : In i (List.filter
                         (fun i => String.eqb (nth i bit_fields "") label)
                         (seq 0 32))).
  { apply List.filter_In. split.
    - apply in_seq. lia.
    - now apply String.eqb_eq. }
  destruct (List.filter _ _); [contradiction|discriminate].
Qed.

Lemma collect_field_bits_keys (bit_fields : list string) (k : string) (vs : list Z) :
  length bit_fields = 32%nat ->
  In (k, vs) (Isa.collect_field_bits bit_fields) ->
  Isa.is_literal k = false /\ In k bit_fields
  /\ vs = Spec.label_positions k bit_fields.
Proof.
  intros Hlen Hin.
  assert (Hkey : In k (List.map fst (Isa.collect_field_bits bit_fields))).
  { apply List.in_map_iff. now exists (k, vs). }
  rewrite collect_field_bits_eq in Hkey.
  apply (collect_keys bit_fields k (seq 0 32) []) in Hkey
    as [[]|(Hlit & i & Hi & Hnth)].
  assert (Hk : In k bit_fields).
  { subst k. apply nth_In. apply List.in_seq in Hi. lia. }
  repeat split; try assumption.
  destruct (collect_field_bits_lookup bit_fields k Hlit) as [Hasc Hlook].
  rewrite (ascending_lookup k vs _ Hasc Hin) in Hlook.
  destruct (Spec.label_positions k bit_fields); congruence.
Qed.

(** *** the value of a field *)

Lemma land_1 (x : Z) : Z.land x 1 = (x mod 2)%Z.
Proof. exact (Z.land_ones x 1 ltac:(lia)). Qed.

Lemma opcode_bit_testbit (opcode p : Z) :
  (0 <= p)%Z -> Isa.opcode_bit opcode p = Z.b2z (Z.testbit opcode p).
Proof.
  intros Hp. unfold Isa.opcode_bit.
  rewrite land_1, <- Z.bit0_mod. now rewrite Z.shiftr_spec by lia.
Qed.

Lemma opcode_bit_cases (opcode p : Z) :
  Isa.opcode_bit opcode p = 0%Z \/ Isa.opcode_bit opcode p = 1%Z.
Proof.
  unfold Isa.opcode_bit. rewrite land_1.
  pose proof (Z.mod_pos_bound (Z.shiftr opcode p) 2). lia.
Qed.

Lemma lor_low_bit (w r : Z) :
  (0 <= r)%Z -> Z.lor (w * 2 ^ (r + 1)) (2 ^ r) = (w * 2 ^ (r + 1) + 2 ^ r)%Z.
Proof.
  intros Hr. symmetry. apply Z.add_nocarry_lor.
  apply Z.bits_inj'. intros n Hn.
  rewrite Z.land_spec, Z.bits_0, Z.pow2_bits_eqb by lia.
  destruct (Z.eqb_spec r n) as [<-|_]; [|apply andb_false_r].
  rewrite Z.mul_pow2_bits_low by lia. reflexivity.
Qed.

Lemma weighted_value_bounds (opcode : Z) (bits : list Z) :
  (0 <= Spec.weighted_value (List.map (Isa.opcode_bit opcode) bits)
   < 2 ^ Z.of_nat (length bits))%Z.
Proof.
  induction bits as [|p bits IH]; cbn [List.map Spec.weighted_value length].
  - lia.
  - rewrite length_map, Nat2Z.inj_succ, Z.pow_succ_r by lia.
    destruct (opcode_bit_cases opcode p) as [-> | ->]; lia.
Qed.

Lemma value_fold (opcode size : Z) (rest : list Z) (w i : Z) :
  size = (i + Z.of_nat (length rest))%Z -> (0 <= i)%Z -> (size <= 32)%Z ->
  (0 <= w < 2 ^ i)%Z ->
  fst (fold_left (Isa.value_step opcode size) rest
         ((w * 2 ^ Z.of_nat (length rest))%Z, i))
  = (w * 2 ^ Z.of_nat (length rest)
     + Spec.weighted_value (List.map (Isa.opcode_bit opcode) rest))%Z.
Proof.
  revert w i. induction rest as [|p rest IH]; intros w i Hsize Hi H32 Hw.
  - cbn. lia.
  - cbn [fold_left length List.map Spec.weighted_value].
    rewrite length_map.
    set (r := Z.of_nat (length rest)).
    assert (Hr : (0 <= r)%Z) by (unfold r; lia).
    assert (HS : Z.of_nat (S (length rest)) = (r + 1)%Z) by (unfold r; lia).
    rewrite HS. cbn [length] in Hsize. rewrite HS in Hsize.
    assert (Hstep : Isa.value_step opcode size ((w * 2 ^ (r + 1))%Z, i) p
                    = (((2 * w + Isa.opcode_bit opcode p) * 2 ^ r)%Z, (i + 1)%Z)).
    { unfold Isa.value_step. f_equal.
      assert (HX : (0 < 2 ^ r)%Z) by (apply Z.pow_pos_nonneg; lia).
      assert (HY : (2 ^ i * (2 ^ r * 2) <= 2 ^ 32)%Z).
      { replace (2 ^ i * (2 ^ r * 2))%Z with (2 ^ (i + r + 1))%Z
          by (rewrite !Z.pow_add_r by lia; change (2 ^ 1)%Z with 2%Z; ring).
        apply Z.pow_le_mono_r; lia. }
      destruct (opcode_bit_cases opcode p) as [-> | ->]; cbn [Z.eqb].
      - rewrite Z.pow_add_r by lia. change (2 ^ 1)%Z with 2%Z. ring.
      - replace (size - 1 - i)%Z with r by lia.
        rewrite Z.shiftl_1_l, lor_low_bit by lia. unfold u32.
        rewrite Z.pow_add_r by lia. change (2 ^ 1)%Z with 2%Z.
        rewrite Z.mod_small; [ring|].
        generalize dependent (2 ^ r)%Z. generalize dependent (2 ^ i)%Z.
        intros Y Hw X HX HY. nia. }
    rewrite Hstep. unfold r. rewrite IH; try lia.
    + fold r. rewrite Z.pow_add_r by lia. change (2 ^ 1)%Z with 2%Z. ring.
    + rewrite Z.pow_add_r by lia. change (2 ^ 1)%Z with 2%Z.
      destruct (opcode_bit_cases opcode p) as [-> | ->]; lia.
Qed.

(** the value the inner loop computes is the weighted sum of the bits *)
Lemma field_value_weighted (opcode : Z) (bits : list Z) :
  (length bits <= 32)%nat ->
  Isa.field_value opcode bits
  = Spec.weighted_value (List.map (Isa.opcode_bit opcode) bits).
Proof.
  intros Hlen. unfold Isa.field_value.
  pose proof (value_fold opcode (Z.of_nat (length bits)) bits 0 0) as H.
  rewrite Z.mul_0_l, Z.add_0_l in H. apply H; lia.
Qed.

Lemma label_positions_length (label : string) (bit_fields : list string) :
  (length (Spec.label_positions label bit_fields) <= 32)%nat.
Proof.
  unfold Spec.label_positions. rewrite length_map.
  etransitivity; [apply List.filter_length_le|]. now rewrite length_seq.
Qed.

Lemma label_positions_range (label : string) (bit_fields : list string) (p : Z) :
  In p (Spec.label_positions label bit_fields) -> (0 <= p <= 31)%Z.
Proof.
  unfold Spec.label_positions.
  intros (i & <- & [Hi _]%List.filter_In)%List.in_map_iff.
  apply List.in_seq in Hi. lia.
Qed.

(** *** the if/else-if chain *)

Lemma categorize_reg (key name : string) (v : Z) (o : Isa.operands) :
  In key ["Rd"; "Rn"; "Rm"; "Rt"] ->
  Isa.reg_values (Isa.categorize name v o) !! key
  = if String.eqb name key then Some v else Isa.reg_values o !! key.
Proof.
  intros Hkey. destruct (String.eqb_spec name key) as [->|Hne].
  - cbn in Hkey. destruct Hkey as [<-|[<-|[<-|[<-|[]]]]];
      cbn; apply lookup_insert_eq.
  - unfold Isa.categorize.
    repeat match goal with
           | |- context [String.eqb name ?k] =>
               destruct (String.eqb_spec name k) as [->|?]
           | |- context [if ?b then _ else _] => destruct b
           end; cbn; try reflexivity; now apply lookup_insert_ne.
Qed.

Lemma not_imm_literal (label : string) :
  Isa.find_at_0 "imm" label = true -> Isa.is_literal label = false.
Proof.
  intros H. unfold Isa.is_literal.
  destruct (String.eqb_spec label "0") as [->|_]; [discriminate|].
  destruct (String.eqb_spec label "1") as [->|_]; [discriminate|reflexivity].
Qed.

Lemma categorize_imm (name : string) (v : Z) (o : Isa.operands) :
  Isa.imm_values (Isa.categorize name v o) !! "imm"
  = if Isa.find_at_0 "imm" name then Some v else Isa.imm_values o !! "imm".
Proof.
  unfold Isa.categorize.
  destruct (String.eqb_spec name "Rd") as [->|_]; [reflexivity|].
  destruct (String.eqb_spec name "Rn") as [->|_]; [reflexivity|].
  destruct (String.eqb_spec name "Rm") as [->|_]; [reflexivity|].
  destruct (String.eqb_spec name "Rt") as [->|_]; [reflexivity|].
  destruct (Isa.find_at_0 "imm" name); [cbn; apply lookup_insert_eq|].
  repeat match goal with
         | |- context [if ?b then _ else _] => destruct b
         end; cbn; try reflexivity; now apply lookup_insert_ne.
Qed.

Lemma categorize_crm (name : string) (v : Z) (o : Isa.operands) :
  Spec.crm_slot (Isa.categorize name v o)
  = if String.eqb name "CRm" then Some v else Spec.crm_slot o.
Proof.
  destruct (String.eqb_spec name "CRm") as [->|Hne]; [reflexivity|].
  unfold Isa.categorize.
  repeat match goal with
         | |- context [String.eqb name ?k] =>
             destruct (String.eqb_spec name k) as [?|?]
         | |- context [if ?b then _ else _] => destruct b
         end; try reflexivity; congruence.
Qed.

Lemma categorize_op2 (name : string) (v : Z) (o : Isa.operands) :
  Spec.op2_slot (Isa.categorize name v o)
  = if String.eqb name "op2" then Some v else Spec.op2_slot o.
Proof.
  destruct (String.eqb_spec name "op2") as [->|Hne]; [reflexivity|].
  unfold Isa.categorize.
  repeat match goal with
         | |- context [String.eqb name ?k] =>
             destruct (String.eqb_spec name k) as [?|?]
         | |- context [if ?b then _ else _] => destruct b
         end; try reflexivity; congruence.
Qed.

(** *** the loop over the map *)

Section ExtractLoop.

Variable opcode : Z.

(** a place that only the entry with key [key] writes, with its value *)
Lemma extract_slot (slot : Isa.operands -> option Z) (key : string) :
  (forall name v o,
      slot (Isa.categorize name v o)
      = if String.eqb name key then Some v else slot o) ->
  forall (m : Isa.bits_map) (o : Isa.operands),
    Spec.ascending m ->
    slot (fold_left (Isa.extract_step opcode) m o)
    = match Isa.lookup_bits key m with
      | Some bits => Some (Isa.field_value opcode bits)
      | None => slot o
      end.
Proof.
  intros Hslot. induction m as [|[k bits] m IH]; intros o; cbn [fold_left].
  - reflexivity.
  - intros [Habove Hm]. rewrite (IH _ Hm). unfold Isa.extract_step.
    cbn [fst snd Isa.lookup_bits]. rewrite Hslot, (String.eqb_sym key k).
    destruct (String.eqb_spec k key) as [->|_]; [|reflexivity].
    now rewrite (lookup_bits_above _ _ Habove).
Qed.

(** the [imm] bucket is written by every entry whose key starts with imm,
    and by nothing else in the loop *)
Lemma extract_imm (m : Isa.bits_map) (o : Isa.operands) :
  ((forall k vs, In (k, vs) m -> Isa.find_at_0 "imm" k = false)
   /\ Isa.imm_values (fold_left (Isa.extract_step opcode) m o) !! "imm"
      = Isa.imm_values o !! "imm")
  \/ (exists k vs,
         In (k, vs) m /\ Isa.find_at_0 "imm" k = true
         /\ Isa.imm_values (fold_left (Isa.extract_step opcode) m o) !! "imm"
            = Some (Isa.field_value opcode vs)).
Proof.
  revert o. induction m as [|[k bits] m IH]; intros o; cbn [fold_left].
  - left. split; [intros k vs []|reflexivity].
  - destruct (IH (Isa.extract_step opcode o (k, bits)))
      as [[Hall Hres]|(k' & vs' & He & Himm & Hres)].
    + unfold Isa.extract_step in Hres. cbn [fst snd] in Hres.
      rewrite categorize_imm in Hres.
      destruct (Isa.find_at_0 "imm" k) eqn:Hk.
      * right. exists k, bits. repeat split; [now left|exact Hk|exact Hres].
      * left. split; [|exact Hres].
        intros k0 vs0 [[= <- <-]|Hin]; [exact Hk|now apply (Hall k0 vs0)].
    + right. exists k', vs'. repeat split; [now right|exact Himm|exact Hres].
Qed.

End ExtractLoop.

(** *** the positions of a label *)

Lemma positions_descending (g : nat -> bool) (a n : nat) :
  let ps := List.map (fun i => (31 - Z.of_nat i)%Z) (List.filter g (seq a n)) in
  Sorted.StronglySorted Z.gt ps /\ Forall (fun p => (p <= 31 - Z.of_nat a)%Z) ps.
Proof.
  revert a. induction n as [|n IH]; intros a; cbn [seq List.filter List.map].
  - split; constructor.
  - destruct (IH (S a)) as [Hs Hb].
    assert (Hb' : Forall (fun p => (p <= 31 - Z.of_nat a)%Z)
                    (List.map (fun i => (31 - Z.of_nat i)%Z)
                       (List.filter g (seq (S a) n)))).
    { eapply List.Forall_impl; [|exact Hb]. cbv beta. intros p Hp. lia. }
    destruct (g a); cbn [List.map]; [|now split].
    split.
    + constructor; [exact Hs|].
      eapply List.Forall_impl; [|exact Hb]. cbv beta. intros p Hp. lia.
    + constructor; [lia|exact Hb'].
Qed.

Lemma label_positions_member (label : string) (bit_fields : list string) (p : Z) :
  In p (Spec.label_positions label bit_fields)
  <-> (0 <= p <= 31)%Z /\ nth (Z.to_nat (31 - p)) bit_fields "" = label.
Proof.
  unfold Spec.label_positions. rewrite List.in_map_iff. split.
  - intros (i & <- & [Hi Hl%String.eqb_eq]%List.filter_In).
    apply List.in_seq in Hi. split; [lia|].
    now replace (Z.to_nat (31 - (31 - Z.of_nat i))) with i by lia.
  - intros [Hp Hl]. exists (Z.to_nat (31 - p)). split; [lia|].
    apply List.filter_In. split; [apply List.in_seq; lia|now apply String.eqb_eq].
Qed.

(** C2: the labels are scanned from bit 31 down to bit 0; a label that is
    not a literal gets the list of the positions that carry it, in the
    order met (so in descending order: the first one is the field's most
    significant bit), wherever these positions lie; the field's value gives
    the first bit of that list the highest weight and each later bit the
    next lower power of two. For the register operands it is this value
    that the renderer receives. *)
Theorem C2_field_extraction
  (bit_fields : list string) (opcode : Z) (label : string) :
  length bit_fields = 32%nat ->
  Isa.is_literal label = false ->
  In label bit_fields ->
  let bits := Spec.label_positions label bit_fields in
  Isa.lookup_bits label (Isa.collect_field_bits bit_fields) = Some bits
  /\ (forall p, In p bits
               <-> (0 <= p <= 31)%Z
                   /\ nth (Z.to_nat (31 - p)) bit_fields "" = label)
  /\ Sorted.StronglySorted Z.gt bits
  /\ Isa.field_value opcode bits
     = Spec.weighted_value
         (List.map (fun p => Z.b2z (Z.testbit opcode p)) bits)
  /\ (In label ["Rd"; "Rn"; "Rm"; "Rt"] ->
      Isa.reg_values (Isa.extract_operands opcode bit_fields) !! label
      = Some (Isa.field_value opcode bits)).
Proof.
  intros Hlen Hlit Hin bits.
  destruct (collect_field_bits_lookup bit_fields label Hlit) as [Hasc Hlook].
  pose proof (label_positions_in bit_fields label Hlen Hin) as Hne.
  fold bits in Hlook, Hne.
  assert (Hsome : Isa.lookup_bits label (Isa.collect_field_bits bit_fields)
                  = Some bits).
  { rewrite Hlook. destruct bits; congruence. }
  split; [exact Hsome|]. split; [|split; [|split]].
  - intros p. apply label_positions_member.
  - apply (positions_descending _ 0 32).
  - rewrite field_value_weighted by apply label_positions_length.
    f_equal. apply List.map_ext_in. intros p Hp.
    apply opcode_bit_testbit.
    now apply label_positions_range in Hp.
  - intros Hreg. unfold Isa.extract_operands.
    assert (Hcomb : forall o, Isa.reg_values (Isa.combine_crm_op2 o)
                              = Isa.reg_values o).
    { intros o. unfold Isa.combine_crm_op2. now destruct (_ && _). }
    rewrite Hcomb. unfold Isa.extract_values.
    rewrite (extract_slot opcode (fun o => Isa.reg_values o !! label) label)
      by (try exact Hasc; intros; now apply categorize_reg).
    now rewrite Hsome.
Qed.

Lemma C2_field_extraction_witness :
  Isa.lookup_bits "imm" (Isa.collect_field_bits (Isa.bit_fields Sample.split_imm))
  = Some [30; 29; 23; 22; 21; 20; 19; 18; 17; 16; 15; 14; 13; 12; 11; 10; 9; 8;
          7; 6; 5]%Z
  /\ Isa.field_value 0x70000025
       [30; 29; 23; 22; 21; 20; 19; 18; 17; 16; 15; 14; 13; 12; 11; 10; 9; 8;
        7; 6; 5]%Z
     = (2 ^ 20 + 2 ^ 19 + 1)%Z.
Proof.
  assert (Hlen : length (Isa.bit_fields Sample.split_imm) = 32%nat) by reflexivity.
  assert (Hin : In "imm" (Isa.bit_fields Sample.split_imm)) by (cbn; tauto).
  pose proof (C2_field_extraction (Isa.bit_fields Sample.split_imm) 0x70000025
                "imm" Hlen eq_refl Hin) as (H1 & _ & _ & H2 & _).
  split; [exact H1|exact H2].
Defined.

(** *** the CRm/op2 rule *)

Lemma label_positions_nil (bit_fields : list string) (label : string) :
  length bit_fields = 32%nat -> ~ In label bit_fields ->
  Spec.label_positions label bit_fields = [].
Proof.
  intros Hlen Hnot.
  destruct (Spec.label_positions label bit_fields) as [|p ps] eqn:Hps; [reflexivity|].
  assert (Hp : In p (Spec.label_positions label bit_fields))
    by (rewrite Hps; now left).
  apply label_positions_member in Hp as [Hp Hl].
  exfalso. apply Hnot. rewrite <- Hl. apply nth_In. lia.
Qed.

Lemma lor_u32 (a b : Z) :
  (0 <= a < 2 ^ 32)%Z -> (0 <= b < 2 ^ 32)%Z -> u32 (Z.lor a b) = Z.lor a b.
Proof.
  intros Ha Hb. unfold u32. apply Z.mod_small.
  assert (H0 : (0 <= Z.lor a b)%Z) by (apply Z.lor_nonneg; lia).
  split; [exact H0|].
  destruct (Z.eq_dec (Z.lor a b) 0%Z) as [->|Hnz]; [lia|].
  apply Z.log2_lt_pow2; [lia|].
  rewrite Z.log2_lor by lia.
  assert (Hla : (Z.log2 a < 32)%Z).
  { destruct (Z.eq_dec a 0%Z) as [->|]; [cbn; lia|apply Z.log2_lt_pow2; lia]. }
  assert (Hlb : (Z.log2 b < 32)%Z).
  { destruct (Z.eq_dec b 0%Z) as [->|]; [cbn; lia|apply Z.log2_lt_pow2; lia]. }
  lia.
Qed.

Lemma field_value_u32 (opcode : Z) (label : string) (bit_fields : list string) :
  (0 <= Isa.field_value opcode (Spec.label_positions label bit_fields) < 2 ^ 32)%Z.
Proof.
  rewrite field_value_weighted by apply label_positions_length.
  pose proof (weighted_value_bounds opcode (Spec.label_positions label bit_fields)) as H.
  pose proof (label_positions_length label bit_fields) as Hl.
  assert (Hpow : (2 ^ Z.of_nat (length (Spec.label_positions label bit_fields))
                  <= 2 ^ 32)%Z) by (apply Z.pow_le_mono_r; lia).
  lia.
Qed.

Lemma extract_values_eq (opcode : Z) (m : Isa.bits_map) :
  Isa.extract_values opcode m
  = fold_left (Isa.extract_step opcode) m Isa.no_operands.
Proof. reflexivity. Qed.

Lemma no_operands_imm : Isa.imm_values Isa.no_operands !! "imm" = None.
Proof. apply lookup_empty. Qed.

Section Combination.

Variable bit_fields : list string.
Variable opcode : Z.
Hypothesis Hlen : length bit_fields = 32%nat.

Lemma collected_ascending : Spec.ascending (Isa.collect_field_bits bit_fields).
Proof. exact (proj1 (collect_field_bits_lookup bit_fields "CRm" eq_refl)). Qed.

(** a label that is not a literal was extracted exactly when it occurs *)
Lemma extracted_slot (slot : Isa.operands -> option Z) (key : string) :
  Isa.is_literal key = false ->
  slot Isa.no_operands = None ->
  (forall name v o,
      slot (Isa.categorize name v o)
      = if String.eqb name key then Some v else slot o) ->
  (In key bit_fields ->
   slot (Isa.extract_values opcode (Isa.collect_field_bits bit_fields))
   = Some (Isa.field_value opcode (Spec.label_positions key bit_fields)))
  /\ (~ In key bit_fields ->
      slot (Isa.extract_values opcode (Isa.collect_field_bits bit_fields)) = None).
Proof.
  intros Hlit Hnone Hslot.
  rewrite extract_values_eq.
  rewrite (extract_slot opcode slot key Hslot _ _ collected_ascending).
  rewrite (proj2 (collect_field_bits_lookup bit_fields key Hlit)), Hnone.
  split.
  - intros Hin. pose proof (label_positions_in bit_fields key Hlen Hin).
    now destruct (Spec.label_positions key bit_fields).
  - intros Hnot. now rewrite (label_positions_nil bit_fields key Hlen Hnot).
Qed.

Lemma no_imm_label :
  (forall label, In label bit_fields -> Isa.find_at_0 "imm" label = false) ->
  Isa.imm_values (Isa.extract_values opcode (Isa.collect_field_bits bit_fields))
    !! "imm" = None.
Proof.
  intros Hno. rewrite extract_values_eq.
  destruct (extract_imm opcode (Isa.collect_field_bits bit_fields) Isa.no_operands)
    as [[_ Hres]|(k & vs & He & Himm & _)].
  - rewrite Hres. apply no_operands_imm.
  - apply (collect_field_bits_keys bit_fields k vs Hlen) in He as (_ & Hk & _).
    rewrite (Hno k Hk) in Himm. discriminate.
Qed.

Lemma some_imm_label (label : string) :
  In label bit_fields -> Isa.find_at_0 "imm" label = true ->
  exists label',
    In label' bit_fields /\ Isa.find_at_0 "imm" label' = true
    /\ Isa.imm_values (Isa.extract_values opcode (Isa.collect_field_bits bit_fields))
         !! "imm"
       = Some (Isa.field_value opcode (Spec.label_positions label' bit_fields)).
Proof.
  intros Hin Himm. rewrite extract_values_eq.
  destruct (extract_imm opcode (Isa.collect_field_bits bit_fields) Isa.no_operands)
    as [[Hall _]|(k & vs & He & Hk & Hres)].
  - exfalso.
    pose proof (not_imm_literal label Himm) as Hlit.
    pose proof (proj2 (collect_field_bits_lookup bit_fields label Hlit)) as Hlook.
    pose proof (label_positions_in bit_fields label Hlen Hin) as Hne.
    destruct (Spec.label_positions label bit_fields) as [|p ps] eqn:Hps;
      [congruence|].
    apply lookup_bits_in in Hlook.
    specialize (Hall _ _ Hlook). congruence.
  - exists k.
    apply (collect_field_bits_keys bit_fields k vs Hlen) in He as (_ & Hin' & ->).
    repeat split; [exact Hin'|exact Hk|exact Hres].
Qed.

End Combination.

Lemma extract_operands_eq (opcode : Z) (bit_fields : list string) :
  Isa.extract_operands opcode bit_fields
  = Isa.combine_crm_op2
      (Isa.extract_values opcode (Isa.collect_field_bits bit_fields)).
Proof. reflexivity. Qed.

(** the [imm] bucket after the combination step *)
Lemma combine_crm_op2_imm (o : Isa.operands) :
  Isa.imm_values (Isa.combine_crm_op2 o) !! "imm"
  = match Isa.imm_values o !! "imm" with
    | Some v => Some v
    | None =>
        match Spec.crm_slot o, Spec.op2_slot o with
        | Some crm, Some op2 => Some (u32 (Z.lor (u32 (Z.shiftl crm 3)) op2))
        | _, _ => None
        end
    end.
Proof.
  unfold Isa.combine_crm_op2, Spec.crm_slot, Spec.op2_slot.
  destruct (Isa.imm_values o !! "imm") as [v|] eqn:Himm;
    destruct (Isa.has_crm o), (Isa.has_op2 o); cbn [andb];
    try exact Himm.
  cbn [Isa.set_imm Isa.imm_values]. apply lookup_insert_eq.
Qed.

(** C8: when the labels CRm and op2 both occur and no label starts with
    imm, the immediate the renderer receives is [(CRm << 3) | op2] in
    32-bit unsigned arithmetic; when some label starts with imm, the
    immediate is the value of such a label and the CRm/op2 rule is not
    applied; when CRm or op2 is missing and no label starts with imm, there
    is no immediate. *)
Theorem C8_crm_op2_combination (bit_fields : list string) (opcode : Z) :
  length bit_fields = 32%nat ->
  let value label :=
    Isa.field_value opcode (Spec.label_positions label bit_fields) in
  let imm := Isa.imm_values (Isa.extract_operands opcode bit_fields) !! "imm" in
  (In "CRm" bit_fields -> In "op2" bit_fields ->
   (forall label, In label bit_fields -> Isa.find_at_0 "imm" label = false) ->
   imm = Some (Z.lor (u32 (Z.shiftl (value "CRm") 3)) (value "op2")))
  /\ (forall label,
         In label bit_fields -> Isa.find_at_0 "imm" label = true ->
         exists label',
           In label' bit_fields /\ Isa.find_at_0 "imm" label' = true
           /\ imm = Some (value label'))
  /\ (~ In "CRm" bit_fields \/ ~ In "op2" bit_fields ->
      (forall label, In label bit_fields -> Isa.find_at_0 "imm" label = false) ->
      imm = None).
Proof.
  intros Hlen value imm. unfold imm, value.
  rewrite extract_operands_eq, combine_crm_op2_imm.
  destruct (extracted_slot bit_fields opcode Hlen Spec.crm_slot "CRm"
              eq_refl eq_refl categorize_crm) as [Hcrm Hcrm'].
  destruct (extracted_slot bit_fields opcode Hlen Spec.op2_slot "op2"
              eq_refl eq_refl categorize_op2) as [Hop2 Hop2'].
  split; [|split].
  - intros H1 H2 Hno.
    rewrite (no_imm_label bit_fields opcode Hlen Hno), (Hcrm H1), (Hop2 H2).
    f_equal. apply lor_u32.
    + unfold u32. apply Z.mod_pos_bound. lia.
    + apply field_value_u32.
  - intros label Hin Himm.
    destruct (some_imm_label bit_fields opcode Hlen label Hin Himm)
      as (label' & Hin' & Himm' & Hres).
    exists label'. rewrite Hres. now repeat split.
  - intros Hmiss Hno.
    rewrite (no_imm_label bit_fields opcode Hlen Hno).
    destruct Hmiss as [H|H]; [rewrite (Hcrm' H)|rewrite (Hop2' H)];
      [reflexivity|now destruct (Spec.crm_slot _)].
Qed.

Lemma C8_crm_op2_combination_witness :
  Isa.imm_values (Isa.extract_operands 0xd503203f (Isa.bit_fields Sample.hint))
    !! "imm"
  = Some (Z.lor (u32 (Z.shiftl 0 3)) 1)
  /\ Isa.build_assembly (Isa.asm_template Sample.hint) 0xd503203f
       (Isa.bit_fields Sample.hint)
     = "HINT #0x1".
Proof.
  split; [|vm_compute; reflexivity].
  assert (Hlen : length (Isa.bit_fields Sample.hint) = 32%nat) by reflexivity.
  pose proof (proj1 (C8_crm_op2_combination (Isa.bit_fields Sample.hint)
                       0xd503203f Hlen)) as H.
  cbv zeta in H. rewrite H.
  - vm_compute. reflexivity.
  - cbn. tauto.
  - cbn. tauto.
  - intros label Hin. cbn in Hin.
    repeat (destruct Hin as [<-|Hin]; [reflexivity|]). destruct Hin.
Defined.

(** ** Template substitution *)

(** *** find and replace *)

Lemma starts_with_mem (c : ascii) (pat s : string) :
  Str.starts_with pat s = true -> Str.mem c pat = true -> Str.mem c s = true.
Proof.
  revert s. induction pat as [|a pat IH]; intros s; [discriminate 2|].
  destruct s as [|b s]; [discriminate|]. cbn [Str.starts_with Str.mem].
  intros [Hab Hs]%andb_true_iff [Hc|Hc]%orb_true_iff.
  - apply Ascii.eqb_eq in Hab as <-. now rewrite Hc.
  - rewrite (IH s Hs Hc). apply orb_true_r.
Qed.

(** a pattern with a character that the string does not have is not found *)
Lemma find_absent_char (c : ascii) (pat s : string) :
  Str.mem c pat = true -> Str.mem c s = false -> Str.find pat s = None.
Proof.
  intros Hpat. induction s as [|a s IH]; cbn [Str.find Str.mem].
  - intros _. destruct (Str.starts_with pat "") eqn:Hs; [|reflexivity].
    pose proof (starts_with_mem c pat "" Hs Hpat) as Hm. discriminate.
  - intros [Ha Hs]%orb_false_iff.
    destruct (Str.starts_with pat (String a s)) eqn:Hst.
    + pose proof (starts_with_mem c pat _ Hst Hpat) as Hm.
      cbn [Str.mem] in Hm. rewrite Ha, Hs in Hm. discriminate.
    + now rewrite (IH Hs).
Qed.

Lemma replace_loop_absent (fuel : nat) (pat r s : string) :
  Str.find pat s = None -> Str.replace_loop fuel pat r s = s.
Proof. intros H. destruct fuel; cbn [Str.replace_loop]; [reflexivity|now rewrite H]. Qed.

Lemma replace_all_absent (pat r s : string) :
  Str.find pat s = None -> Str.replace_all pat r s = s.
Proof. apply replace_loop_absent. Qed.

Lemma find_longer (c : ascii) (pat s : string) :
  Str.find pat s = None -> Str.find (String c pat) s = None.
Proof.
  induction s as [|a s IH]; cbn [Str.find Str.starts_with].
  - intros _. reflexivity.
  - destruct (Str.starts_with pat (String a s)) eqn:H1; [discriminate|].
    destruct (Str.find pat s) as [n|] eqn:H2; [discriminate|]. intros _.
    rewrite (IH eq_refl).
    destruct (Str.starts_with pat s) eqn:H3.
    + destruct s; cbn [Str.find] in H2; rewrite H3 in H2; discriminate.
    + now rewrite andb_false_r.
Qed.

Lemma starts_with_self (ph post : string) : Str.starts_with ph (ph ++ post) = true.
Proof.
  induction ph as [|a ph IH]; cbn [String.append Str.starts_with].
  - now destruct post.
  - now rewrite Ascii.eqb_refl, IH.
Qed.

Lemma find_here (ph post : string) : Str.find ph (ph ++ post) = Some 0%nat.
Proof.
  pose proof (starts_with_self ph post) as H.
  destruct (ph ++ post); cbn [Str.find]; now rewrite H.
Qed.

(** text without the first character of the pattern is skipped *)
Lemma find_skip (h : ascii) (pat pre s : string) :
  Str.mem h pre = false ->
  Str.find (String h pat) (pre ++ s)
  = option_map (Nat.add (String.length pre)) (Str.find (String h pat) s).
Proof.
  induction pre as [|a pre IH]; cbn [String.append Str.mem String.length].
  - intros _. now destruct (Str.find _ s).
  - intros [Ha Hpre]%orb_false_iff.
    cbn [Str.find Str.starts_with].
    rewrite Ascii.eqb_sym, Ha. cbn [andb]. rewrite (IH Hpre).
    now destruct (Str.find _ s).
Qed.

Lemma mismatch_starts_with (pat t x : string) :
  Spec.mismatch pat t = true -> Str.starts_with pat (t ++ x) = false.
Proof.
  revert t. induction pat as [|a pat IH]; intros t; [discriminate|].
  destruct t as [|b t]; [discriminate|].
  cbn [Spec.mismatch String.append Str.starts_with].
  destruct (Ascii.eqb a b); cbn [negb orb andb]; [apply IH|reflexivity].
Qed.

Lemma find_never_at (pat ph post : string) :
  Spec.never_at pat ph = true -> Str.find pat post = None ->
  Str.find pat (ph ++ post) = None.
Proof.
  intros Hn Hpost. induction ph as [|a ph IH]; cbn [String.append]; [exact Hpost|].
  cbn [Spec.never_at] in Hn. apply andb_true_iff in Hn as [Hm Hn].
  cbn [Str.find].
  change (String a (ph ++ post)) with (String a ph ++ post).
  rewrite (mismatch_starts_with _ _ post Hm). now rewrite (IH Hn).
Qed.

Lemma take_append (pre s : string) : Str.take (String.length pre) (pre ++ s) = pre.
Proof.
  induction pre as [|a pre IH]; cbn [String.length String.append Str.take].
  - now destruct s.
  - now rewrite IH.
Qed.

Lemma drop_append (pre s : string) : Str.drop (String.length pre) (pre ++ s) = s.
Proof.
  induction pre as [|a pre IH]; cbn [String.length String.append Str.drop].
  - now destruct s.
  - exact IH.
Qed.

Lemma replace_middle (pre ph post r : string) :
  Str.replace (pre ++ ph ++ post) (String.length pre) (String.length ph) r
  = pre ++ r ++ post.
Proof.
  unfold Str.replace. rewrite take_append. do 2 f_equal.
  rewrite <- length_append, <- append_assoc. apply drop_append.
Qed.

(** *** plain text *)

Lemma plain_mem (c : ascii) (s : string) :
  Spec.plain_char c = false -> Spec.plain s = true -> Str.mem c s = false.
Proof.
  intros Hc. unfold Spec.plain. induction s as [|a s IH]; cbn [Str.all Str.mem].
  - reflexivity.
  - intros [Ha Hs]%andb_true_iff. rewrite (IH Hs), orb_false_r.
    destruct (Ascii.eqb_spec a c) as [->|_]; congruence.
Qed.

(** a pattern with a marked character does not occur in plain text *)
Lemma find_plain (pat s : string) :
  Str.all Spec.plain_char pat = false -> Spec.plain s = true ->
  Str.find pat s = None.
Proof.
  intros Hpat Hs.
  assert (Hc : exists c, Str.mem c pat = true /\ Spec.plain_char c = false).
  { induction pat as [|a pat IH]; [discriminate|]. cbn [Str.all] in Hpat.
    destruct (Spec.plain_char a) eqn:Ha.
    - destruct (IH Hpat) as (c & Hm & Hc). exists c. cbn [Str.mem].
      now rewrite Hm, orb_true_r.
    - exists a. cbn [Str.mem]. now rewrite Ascii.eqb_refl. }
  destruct Hc as (c & Hm & Hc).
  apply (find_absent_char c); [exact Hm|now apply plain_mem].
Qed.

Lemma plain_append (a b : string) :
  Spec.plain (a ++ b) = Spec.plain a && Spec.plain b.
Proof. apply all_append. Qed.

(** a pattern that starts with a marked character and cannot start inside
    the placeholder does not occur in plain text around the placeholder *)
Lemma find_around (pat pre ph post : string) :
  Spec.marked pat = true -> Spec.never_at pat ph = true ->
  Spec.plain pre = true -> Spec.plain post = true ->
  Str.find pat (pre ++ ph ++ post) = None.
Proof.
  intros Hmark Hnever Hpre Hpost.
  destruct pat as [|h pat]; [discriminate|]. cbn [Spec.marked] in Hmark.
  apply negb_true_iff in Hmark.
  rewrite find_skip by now apply plain_mem.
  rewrite find_never_at; [reflexivity|exact Hnever|].
  apply find_plain; [|exact Hpost]. cbn [Str.all]. now rewrite Hmark.
Qed.

(** the placeholder between plain text is replaced, once *)
Lemma replace_all_around (ph r pre post : string) :
  Spec.marked ph = true -> Str.all Spec.plain_char ph = false ->
  Spec.plain pre = true -> Spec.plain r = true -> Spec.plain post = true ->
  Str.replace_all ph r (pre ++ ph ++ post) = pre ++ r ++ post.
Proof.
  intros Hmark Hph Hpre Hr Hpost.
  destruct ph as [|h ph]; [discriminate|]. cbn [Spec.marked] in Hmark.
  apply negb_true_iff in Hmark.
  unfold Str.replace_all. cbn [Str.replace_loop].
  rewrite find_skip by now apply plain_mem.
  rewrite find_here. cbn [option_map].
  rewrite Nat.add_0_r, replace_middle.
  apply replace_loop_absent, find_plain; [exact Hph|].
  now rewrite !plain_append, Hpre, Hr, Hpost.
Qed.

(** *** the renderer is its list of passes *)

Lemma passes_app (l1 l2 : list (string * string)) (s : string) :
  Spec.passes (l1 ++ l2)%list s = Spec.passes l2 (Spec.passes l1 s).
Proof. apply fold_left_app. Qed.

Lemma when_present_passes (v : option Z) (f : Z -> string -> string)
  (l : Z -> list (string * string)) (s : string) :
  (forall x t, f x t = Spec.passes (l x) t) ->
  Isa.when_present v f s = Spec.passes (Spec.when_extracted v l) s.
Proof. intros H. destruct v; [apply H|reflexivity]. Qed.

Lemma render_as_passes (asm_template : string) (o : Isa.operands) :
  Isa.render asm_template o
  = Isa.clean_spaces (Spec.passes (Spec.render_passes o) asm_template).
Proof.
  unfold Isa.render, Spec.render_passes, Spec.register_passes, Spec.later_passes.
  cbv zeta. rewrite !passes_app. f_equal.
  rewrite (when_present_passes _ Isa.replace_rd Spec.rd_passes) by reflexivity.
  rewrite (when_present_passes _ Isa.replace_rn Spec.rn_passes) by reflexivity.
  rewrite (when_present_passes _ Isa.replace_rm Spec.rm_passes) by reflexivity.
  rewrite (when_present_passes _ Isa.replace_rt Spec.rt_passes) by reflexivity.
  rewrite (when_present_passes _ Isa.replace_imm Spec.imm_passes) by reflexivity.
  rewrite (when_present_passes _ Isa.replace_offs Spec.offs_passes) by reflexivity.
  destruct (Isa.has_shift o); [|reflexivity].
  unfold Isa.replace_shift, Spec.shift_passes.
  now destruct (Isa.shift_value o =? 0)%Z.
Qed.

(** *** blocks of passes on plain text and around a placeholder *)

Lemma absent_around_find (ph pat pre post : string) :
  Spec.absent_around ph pat = true ->
  Spec.plain pre = true -> Spec.plain post = true ->
  Str.find pat (pre ++ ph ++ post) = None.
Proof.
  unfold Spec.absent_around.
  intros [[Hm Hn]%andb_true_iff|H]%orb_true_iff Hpre Hpost.
  - now apply find_around.
  - destruct pat as [|c pat]; [discriminate|].
    apply andb_true_iff in H as [Hm Hn].
    now apply find_longer, find_around.
Qed.

Lemma block_plain (l : list (string * string)) (s : string) :
  Spec.plain s = true ->
  forallb (fun p => Spec.absent_in_plain (fst p)) l = true ->
  Spec.passes l s = s.
Proof.
  intros Hs. unfold Spec.passes.
  induction l as [|[pat r] l IH]; cbn [forallb fold_left fst snd]; [reflexivity|].
  intros [Hp Hl]%andb_true_iff.
  rewrite replace_all_absent; [now apply IH|].
  apply find_plain; [|exact Hs]. now apply negb_true_iff.
Qed.

Lemma block_miss (l : list (string * string)) (pre ph post : string) :
  Spec.plain pre = true -> Spec.plain post = true ->
  forallb (fun p => Spec.absent_around ph (fst p)) l = true ->
  Spec.passes l (pre ++ ph ++ post) = pre ++ ph ++ post.
Proof.
  intros Hpre Hpost. unfold Spec.passes.
  induction l as [|[pat r] l IH]; cbn [forallb fold_left fst snd]; [reflexivity|].
  intros [Hp Hl]%andb_true_iff.
  rewrite replace_all_absent; [now apply IH|].
  now apply absent_around_find.
Qed.

Lemma block_hit (before after : list (string * string)) (ph r pre post : string) :
  Spec.plain pre = true -> Spec.plain post = true -> Spec.plain r = true ->
  Spec.marked ph = true ->
  forallb (fun p => Spec.absent_around ph (fst p)) before = true ->
  forallb (fun p => Spec.absent_in_plain (fst p)) ((ph, r) :: after) = true ->
  Spec.passes (before ++ (ph, r) :: after) (pre ++ ph ++ post) = pre ++ r ++ post.
Proof.
  intros Hpre Hpost Hr Hmark Hbefore Hafter.
  cbn [forallb fst] in Hafter. apply andb_true_iff in Hafter as [Hph Hafter].
  rewrite passes_app, block_miss by assumption.
  change (Spec.passes ((ph, r) :: after) ?s)
    with (Spec.passes after (Str.replace_all ph r s)).
  rewrite replace_all_around; try assumption.
  - apply block_plain; [|exact Hafter].
    now rewrite !plain_append, Hpre, Hr, Hpost.
  - now apply negb_true_iff.
Qed.

Lemma when_extracted_forallb (P : string * string -> bool) (v : option Z)
  (l : Z -> list (string * string)) :
  (forall x, forallb P (l x) = true) -> forallb P (Spec.when_extracted v l) = true.
Proof. intros H. destruct v; [apply H|reflexivity]. Qed.

(** *** register names are plain *)

Lemma decimal_digits_plain (u : Decimal.uint) :
  Spec.plain (DecimalString.NilEmpty.string_of_uint u) = true.
Proof. induction u as [|u IH|u IH|u IH|u IH|u IH|u IH|u IH|u IH|u IH|u IH]; [reflexivity|exact IH..]. Qed.

Lemma dec_string_plain (n : Z) : Spec.plain (dec_string n) = true.
Proof.
  unfold dec_string, DecimalString.NilZero.string_of_uint.
  destruct (N.to_uint (Z.to_N n)) eqn:Hu; try reflexivity;
    rewrite <- Hu; apply decimal_digits_plain.
Qed.

Lemma register_name_plain (sp_at_31 wide : bool) (n : Z) :
  Spec.plain (Spec.register_name sp_at_31 wide n) = true.
Proof.
  unfold Spec.register_name.
  destruct (sp_at_31 && (n =? 31)%Z), wide; try reflexivity;
    rewrite plain_append, dec_string_plain; reflexivity.
Qed.

Lemma block_hit_nth (l : list (string * string)) (k : nat) (ph r pre post : string) :
  nth_error l k = Some (ph, r) ->
  Spec.plain pre = true -> Spec.plain post = true -> Spec.plain r = true ->
  Spec.marked ph = true ->
  forallb (fun p => Spec.absent_around ph (fst p)) (firstn k l) = true ->
  forallb (fun p => Spec.absent_in_plain (fst p)) (skipn k l) = true ->
  Spec.passes l (pre ++ ph ++ post) = pre ++ r ++ post.
Proof.
  intros Hnth Hpre Hpost Hr Hmark Hbefore Hafter.
  rewrite <- (firstn_skipn k l) at 1.
  assert (Hskip : skipn k l = (ph, r) :: skipn (S k) l).
  { clear -Hnth. revert k Hnth. induction l as [|x l IH]; intros [|k]; cbn;
      try discriminate.
    - now intros [= ->].
    - intros H. now apply IH. }
  rewrite Hskip in *. now apply block_hit.
Qed.

Lemma shift_forallb (P : string * string -> bool) (o : Isa.operands) :
  (forall v, forallb P (Spec.shift_passes v) = true) ->
  forallb P (if Isa.has_shift o then Spec.shift_passes (Isa.shift_value o) else [])
  = true.
Proof. intros H. destruct (Isa.has_shift o); [apply H|reflexivity]. Qed.

Ltac block_side :=
  first
    [ assumption
    | apply register_name_plain
    | apply when_extracted_forallb; intros ?; reflexivity
    | apply shift_forallb; intros v; unfold Spec.shift_passes;
      destruct (v =? 0)%Z; reflexivity
    | reflexivity ].

Ltac plain_side :=
  rewrite !plain_append, register_name_plain;
  repeat match goal with H : Spec.plain _ = true |- _ => rewrite H end;
  reflexivity.

(** one placeholder between plain text, through all the passes: the blocks
    before the one at hand miss, pass [k] of that block replaces the
    placeholder, and everything after it works on plain text *)
Ltac through_blocks k ph name :=
  rewrite render_as_passes; f_equal;
  unfold Spec.render_passes, Spec.register_passes, Spec.later_passes;
  repeat match goal with H : _ !! _ = _ |- _ => rewrite H end;
  cbn [Spec.when_extracted];
  rewrite !passes_app;
  repeat first
    [ rewrite block_miss by block_side
    | rewrite (block_hit_nth _ k ph name) by block_side
    | match goal with
      | |- context [Spec.passes ?l (?a ++ name ++ ?b)] =>
          rewrite (block_plain l (a ++ name ++ b))
            by (first [plain_side | block_side])
      end ];
  reflexivity.

Section Placeholders.

Variable o : Isa.operands.
Variables pre post : string.
Hypothesis Hpre : Spec.plain pre = true.
Hypothesis Hpost : Spec.plain post = true.

Lemma rd_placeholders (n : Z) :
  Isa.reg_values o !! "Rd" = Some n ->
  Isa.render (pre ++ "<Xd|SP>" ++ post) o
  = Isa.clean_spaces (pre ++ Spec.register_name true false n ++ post)
  /\ Isa.render (pre ++ "<Xd>" ++ post) o
     = Isa.clean_spaces (pre ++ Spec.register_name true false n ++ post)
  /\ Isa.render (pre ++ "<Wd|WSP>" ++ post) o
     = Isa.clean_spaces (pre ++ Spec.register_name true true n ++ post)
  /\ Isa.render (pre ++ "<Wd>" ++ post) o
     = Isa.clean_spaces (pre ++ Spec.register_name true true n ++ post)
  /\ Isa.render (pre ++ "<Wt>" ++ post) o
     = Isa.clean_spaces (pre ++ Spec.register_name true true n ++ post).
Proof.
  intros Hrd. repeat split.
  - through_blocks 0%nat "<Xd|SP>" (Spec.register_name true false n).
  - through_blocks 1%nat "<Xd>" (Spec.register_name true false n).
  - through_blocks 2%nat "<Wd|WSP>" (Spec.register_name true true n).
  - through_blocks 3%nat "<Wd>" (Spec.register_name true true n).
  - through_blocks 4%nat "<Wt>" (Spec.register_name true true n).
Qed.

Lemma rn_placeholders (n : Z) :
  Isa.reg_values o !! "Rn" = Some n ->
  Isa.render (pre ++ "<Xn|SP>" ++ post) o
  = Isa.clean_spaces (pre ++ Spec.register_name true false n ++ post)
  /\ Isa.render (pre ++ "<Xn>" ++ post) o
     = Isa.clean_spaces (pre ++ Spec.register_name true false n ++ post)
  /\ Isa.render (pre ++ "<Wn|WSP>" ++ post) o
     = Isa.clean_spaces (pre ++ Spec.register_name true true n ++ post)
  /\ Isa.render (pre ++ "<Wn>" ++ post) o
     = Isa.clean_spaces (pre ++ Spec.register_name true true n ++ post).
Proof.
  intros Hrn. repeat split.
  - through_blocks 0%nat "<Xn|SP>" (Spec.register_name true false n).
  - through_blocks 1%nat "<Xn>" (Spec.register_name true false n).
  - through_blocks 2%nat "<Wn|WSP>" (Spec.register_name true true n).
  - through_blocks 3%nat "<Wn>" (Spec.register_name true true n).
Qed.

Lemma rm_placeholders (n : Z) :
  Isa.reg_values o !! "Rm" = Some n ->
  Isa.render (pre ++ "<Xm>" ++ post) o
  = Isa.clean_spaces (pre ++ Spec.register_name false false n ++ post)
  /\ Isa.render (pre ++ "<R><m>" ++ post) o
     = Isa.clean_spaces (pre ++ Spec.register_name false false n ++ post)
  /\ Isa.render (pre ++ "<Wm>" ++ post) o
     = Isa.clean_spaces (pre ++ Spec.register_name false true n ++ post).
Proof.
  intros Hrm. repeat split.
  - through_blocks 0%nat "<Xm>" (Spec.register_name false false n).
  - through_blocks 1%nat "<R><m>" (Spec.register_name false false n).
  - through_blocks 2%nat "<Wm>" (Spec.register_name false true n).
Qed.

Lemma rt_placeholders (n : Z) :
  Isa.reg_values o !! "Rt" = Some n ->
  Isa.render (pre ++ "<Xt>" ++ post) o
  = Isa.clean_spaces (pre ++ Spec.register_name false false n ++ post)
  /\ (Isa.reg_values o !! "Rd" = None ->
      Isa.render (pre ++ "<Wt>" ++ post) o
      = Isa.clean_spaces (pre ++ Spec.register_name false true n ++ post)).
Proof.
  intros Hrt. split.
  - through_blocks 0%nat "<Xt>" (Spec.register_name false false n).
  - intros Hrd.
    through_blocks 1%nat "<Wt>" (Spec.register_name false true n).
Qed.

End Placeholders.

(** ** The replace loops and the single scan *)

Lemma starts_with_nil (p : string) : p <> "" -> Str.starts_with p "" = false.
Proof. now destruct p. Qed.

Lemma length_nonempty (p : string) : p <> "" -> (1 <= String.length p)%nat.
Proof. destruct p; [congruence|cbn; lia]. Qed.

Lemma drop_tail (p : string) (k : nat) :
  Str.drop (S k) p = Str.drop k (Str.tail p).
Proof. destruct p; [now destruct k|reflexivity]. Qed.

Lemma scan_skip (pat r a b : string) :
  Spec.scan pat r (String.length a) (a ++ b) = Spec.scan pat r 0 b.
Proof.
  induction a as [|c a IH]; cbn [String.length String.append Spec.scan].
  - now destruct b.
  - exact IH.
Qed.

Lemma scan_after_head (pat r : string) (c : ascii) (s b : string) :
  pat <> "" -> String c s = pat ++ b ->
  Spec.scan pat r (String.length pat - 1) s = Spec.scan pat r 0 b.
Proof.
  intros Hne Hb. destruct pat as [|h t]; [congruence|].
  cbn [String.append] in Hb. injection Hb as -> ->.
  cbn [String.length Nat.sub]. rewrite Nat.sub_0_r. apply scan_skip.
Qed.

Section Loop.

Variables pat r : string.

Lemma starts_with_split (s : string) :
  Str.starts_with pat s = true -> exists b, s = pat ++ b.
Proof.
  revert s. induction pat as [|a p IH]; intros s; cbn [Str.starts_with].
  - intros _. now exists s.
  - destruct s as [|c s]; [discriminate|].
    intros [->%Ascii.eqb_eq [b ->]%IH]%andb_true_iff. now exists b.
Qed.

Lemma find_unfold (s : string) :
  Str.find pat s
  = if Str.starts_with pat s then Some 0%nat
    else match s with
         | "" => None
         | String _ s' => option_map S (Str.find pat s')
         end.
Proof. now destruct s. Qed.

Lemma substitute_absent (s : string) :
  Str.find pat s = None -> Spec.substitute pat r s = s.
Proof.
  unfold Spec.substitute.
  induction s as [|c s IH]; [reflexivity|].
  rewrite find_unfold. cbn [Spec.scan].
  destruct (Str.starts_with pat (String c s)); [discriminate|].
  destruct (Str.find pat s); [discriminate|]. intros _. now rewrite IH.
Qed.

Lemma take_after (u x : string) (q : nat) :
  Str.take (String.length u + q) (u ++ x) = u ++ Str.take q x.
Proof.
  induction u as [|c u IH]; cbn [String.length String.append Nat.add Str.take].
  - reflexivity.
  - now rewrite IH.
Qed.

Lemma drop_after (u x : string) (q : nat) :
  Str.drop (String.length u + q) (u ++ x) = Str.drop q x.
Proof.
  induction u as [|c u IH]; cbn [String.length String.append Nat.add Str.drop].
  - reflexivity.
  - exact IH.
Qed.

Lemma replace_after (u x r' : string) (q n : nat) :
  Str.replace (u ++ x) (String.length u + q) n r' = u ++ Str.replace x q n r'.
Proof.
  unfold Str.replace.
  now rewrite take_after, <- Nat.add_assoc, drop_after, append_assoc.
Qed.

Lemma replace_loop_barrier (fuel : nat) (u x : string) :
  Spec.barrier pat u ->
  Str.replace_loop fuel pat r (u ++ x) = u ++ Str.replace_loop fuel pat r x.
Proof.
  intros Hu. revert x. induction fuel as [|fuel IH]; intros x;
    cbn [Str.replace_loop]; [reflexivity|].
  rewrite Hu. destruct (Str.find pat x) as [q|]; cbn [option_map]; [|reflexivity].
  now rewrite replace_after, IH.
Qed.

Lemma starts_with_straddle (p u z z' : string) :
  Str.starts_with p (u ++ z) = true -> Str.starts_with p (u ++ z') = false ->
  Str.starts_with (Str.drop (String.length u) p) z = true
  /\ Str.drop (String.length u) p <> "".
Proof.
  revert p. induction u as [|c u IH]; intros p;
    cbn [String.append String.length].
  - intros Hz Hz'. destruct p; [discriminate|]. now split.
  - destruct p as [|a p]; [discriminate 2|]. cbn [Str.starts_with Str.drop].
    intros [Hac Hz]%andb_true_iff Hz'. rewrite Hac in Hz'. now apply IH.
Qed.

Lemma mismatch_sym (a b : string) : Spec.mismatch a b = Spec.mismatch b a.
Proof.
  revert b. induction a as [|x a IH]; intros [|y b]; cbn [Spec.mismatch];
    try reflexivity.
  now rewrite IH, Ascii.eqb_sym.
Qed.

Lemma never_at_drop (w t : string) (k : nat) :
  Spec.never_at w t = true -> Str.drop k t <> "" ->
  Spec.mismatch w (Str.drop k t) = true.
Proof.
  revert k. induction t as [|c t IH]; intros k; cbn [Spec.never_at].
  - destruct k; cbn [Str.drop]; congruence.
  - intros [Hm Hn]%andb_true_iff. destruct k as [|k]; cbn [Str.drop].
    + intros _. exact Hm.
    + now apply IH.
Qed.

Lemma barrier_never_at (w : string) :
  Spec.never_at pat w = true -> Spec.barrier pat w.
Proof.
  intros Hn x. induction w as [|c w IH]; cbn [String.append String.length].
  - now destruct (Str.find pat x).
  - cbn [Spec.never_at] in Hn. apply andb_true_iff in Hn as [Hm Hn].
    rewrite find_unfold.
    change (String c (w ++ x)) with (String c w ++ x).
    rewrite (mismatch_starts_with _ _ x Hm).
    cbn [String.append]. rewrite (IH Hn). now destruct (Str.find pat x).
Qed.

(** the first occurrence: what is before it stays, the occurrence becomes
    [r], and no later occurrence starts before the end of that [r] *)
Lemma find_split (s : string) (p : nat) :
  Spec.no_overlap pat r -> Str.find pat s = Some p ->
  exists a b,
    s = a ++ pat ++ b /\ String.length a = p
    /\ Spec.substitute pat r s = a ++ r ++ Spec.substitute pat r b
    /\ Spec.barrier pat (a ++ r).
Proof.
  intros (Hne & Hin & Hout). revert p.
  induction s as [|c s IH]; intros p; rewrite find_unfold.
  - now rewrite starts_with_nil.
  - destruct (Str.starts_with pat (String c s)) eqn:Hst.
    + intros [= <-]. destruct (starts_with_split _ Hst) as [b Hb].
      exists "", b. repeat split; [exact Hb| |now apply barrier_never_at].
      unfold Spec.substitute. cbn [Spec.scan String.append]. rewrite Hst.
      f_equal. now apply (scan_after_head pat r c).
    + destruct (Str.find pat s) as [p'|] eqn:Hf; [|discriminate].
      cbn [option_map]. intros [= <-].
      destruct (IH p' eq_refl) as (a & b & -> & Hlen & Hsub & Hbar).
      exists (String c a), b. repeat split.
      * cbn [String.length]. now rewrite Hlen.
      * unfold Spec.substitute in *. cbn [Spec.scan]. rewrite Hst.
        now rewrite Hsub.
      * intros x. cbn [String.append String.length]. rewrite find_unfold, Hbar.
        assert (Hno : Str.starts_with pat (String c a ++ r ++ x) = false).
        { destruct (Str.starts_with pat (String c a ++ r ++ x)) eqn:Hyes;
            [|reflexivity].
          destruct (starts_with_straddle _ _ _ _ Hyes Hst) as [Hsuf Hnz].
          cbn [String.length] in Hsuf, Hnz. rewrite drop_tail in Hsuf, Hnz.
          pose proof (never_at_drop _ _ _ Hout Hnz) as Hm.
          rewrite mismatch_sym in Hm.
          now rewrite (mismatch_starts_with _ _ x Hm) in Hsuf. }
        cbn [String.append] in Hno. rewrite append_assoc, Hno.
        now destruct (Str.find pat x).
Qed.

(** with enough fuel the loop is the single scan, and it ends because
    nothing is left to replace *)
Lemma replace_loop_scan (fuel : nat) (s : string) :
  Spec.no_overlap pat r -> (String.length s < fuel)%nat ->
  Str.replace_loop fuel pat r s = Spec.substitute pat r s
  /\ Str.find pat (Str.replace_loop fuel pat r s) = None.
Proof.
  intros Hno. revert s. induction fuel as [|fuel IH]; intros s Hlen; [lia|].
  cbn [Str.replace_loop].
  destruct (Str.find pat s) as [p|] eqn:Hf.
  - destruct (find_split s p Hno Hf) as (a & b & -> & Hp & Hsub & Hbar).
    rewrite <- Hp, replace_middle, <- append_assoc.
    rewrite (replace_loop_barrier fuel _ _ Hbar).
    assert (Hb : (String.length b < fuel)%nat).
    { rewrite !length_append in Hlen.
      destruct Hno as (Hne & _). apply length_nonempty in Hne. lia. }
    destruct (IH b Hb) as [Heq Hnone].
    rewrite Heq, Hsub, append_assoc. split; [reflexivity|].
    rewrite <- append_assoc, Hbar, <- Heq, Hnone. reflexivity.
  - split; [symmetry; now apply substitute_absent|exact Hf].
Qed.

Lemma replace_all_scan (s : string) :
  Spec.no_overlap pat r ->
  Str.replace_all pat r s = Spec.substitute pat r s
  /\ Str.find pat (Str.replace_all pat r s) = None.
Proof. intros Hno. apply replace_loop_scan; [exact Hno|lia]. Qed.

(** a replacement shorter than the pattern: the loop ends before the fuel *)
Lemma replace_loop_shrinks (fuel : nat) (s : string) :
  (String.length r < String.length pat)%nat -> (String.length s < fuel)%nat ->
  Str.find pat (Str.replace_loop fuel pat r s) = None.
Proof.
  intros Hshort. revert s. induction fuel as [|fuel IH]; intros s Hlen; [lia|].
  cbn [Str.replace_loop].
  destruct (Str.find pat s) as [p|] eqn:Hf; [|exact Hf].
  apply IH.
  assert (Hsplit : exists a b, s = a ++ pat ++ b /\ String.length a = p).
  { clear -Hf. revert p Hf. induction s as [|c s IHs]; intros p;
      rewrite find_unfold.
    - destruct (Str.starts_with pat "") eqn:Hst; [|discriminate].
      intros [= <-]. destruct (starts_with_split _ Hst) as [b Hb].
      now exists "", b.
    - destruct (Str.starts_with pat (String c s)) eqn:Hst.
      + intros [= <-]. destruct (starts_with_split _ Hst) as [b Hb].
        now exists "", b.
      + destruct (Str.find pat s) as [q|]; [|discriminate].
        intros [= <-]. destruct (IHs q eq_refl) as (a & b & -> & Ha).
        exists (String c a), b. cbn [String.length]. now rewrite Ha. }
  destruct Hsplit as (a & b & -> & <-).
  rewrite replace_middle. rewrite !length_append in *. lia.
Qed.

End Loop.

(** *** the passes of the renderer *)

Lemma never_at_head (h : ascii) (t w : string) :
  Str.mem h w = false -> Spec.never_at (String h t) w = true.
Proof.
  induction w as [|a w IH]; cbn [Str.mem Spec.never_at Spec.mismatch];
    [reflexivity|].
  intros [Ha Hw]%orb_false_iff.
  rewrite Ascii.eqb_sym, Ha, (IH Hw). reflexivity.
Qed.

(** a replacement without the first character of the pattern, whose own
    first character does not occur in the rest of the pattern *)
Lemma no_overlap_chars (h c : ascii) (t r' : string) :
  Str.mem h (String c r') = false -> Str.mem c t = false ->
  Spec.no_overlap (String h t) (String c r').
Proof.
  intros Hh Hc. repeat split; [discriminate| |]; now apply never_at_head.
Qed.

Lemma mem_all (p : ascii -> bool) (c : ascii) (s : string) :
  p c = false -> Str.all p s = true -> Str.mem c s = false.
Proof.
  intros Hc. induction s as [|a s IH]; cbn [Str.all Str.mem]; [reflexivity|].
  intros [Ha Hs]%andb_true_iff. rewrite (IH Hs), orb_false_r.
  destruct (Ascii.eqb_spec a c) as [->|_]; congruence.
Qed.

Lemma hex_digits (u : Hexadecimal.uint) :
  Str.all (fun c => Str.is_digit c || Str.in_range 97 102 c)
    (HexadecimalString.NilEmpty.string_of_uint u) = true.
Proof. induction u; [reflexivity|assumption..]. Qed.

Lemma hex_string_digits (n : Z) :
  Str.all (fun c => Str.is_digit c || Str.in_range 97 102 c) (hex_string n) = true.
Proof.
  unfold hex_string, HexadecimalString.NilZero.string_of_uint.
  destruct (N.to_hex_uint (Z.to_N n)) eqn:Hu; try reflexivity;
    rewrite <- Hu; apply hex_digits.
Qed.

(** replacing a register placeholder by a register name makes no new
    occurrence: the pattern starts with '<' and has no lower-case letter
    after it, except in <Xd|SP> and the like, where the letters are d, n,
    m and t *)
Lemma no_overlap_register (ph : string) (sp_at_31 wide : bool) (n : Z) :
  In ph ["<Xd|SP>"; "<Xd>"; "<Wd|WSP>"; "<Wd>"; "<Wt>"; "<Xn|SP>"; "<Xn>";
         "<Wn|WSP>"; "<Wn>"; "<Xm>"; "<R><m>"; "<Wm>"; "<Xt>"] ->
  Spec.no_overlap ph (Spec.register_name sp_at_31 wide n).
Proof.
  intros Hph.
  assert (Hplain : Str.mem "<" (Spec.register_name sp_at_31 wide n) = false).
  { apply plain_mem; [reflexivity|apply register_name_plain]. }
  assert (Hhead : exists r', Spec.register_name sp_at_31 wide n = String "s" r'
                          \/ Spec.register_name sp_at_31 wide n = String "w" r'
                          \/ Spec.register_name sp_at_31 wide n = String "x" r').
  { unfold Spec.register_name.
    destruct (sp_at_31 && (n =? 31)%Z), wide; eexists; cbn [String.append]; eauto. }
  destruct Hhead as [r' Hr].
  cbn [In] in Hph.
  repeat (destruct Hph as [<-|Hph];
          [destruct Hr as [Hr|[Hr|Hr]]; rewrite Hr in *;
           (apply no_overlap_chars; [exact Hplain|reflexivity])|]).
  destruct Hph.
Qed.

Lemma passes_scan (l : list (string * string)) (t : string) :
  Forall (fun p => Spec.no_overlap (fst p) (snd p)) l ->
  Spec.passes l t = Spec.substitute_all l t.
Proof.
  intros Hl. revert t. unfold Spec.passes, Spec.substitute_all.
  induction Hl as [|[pat r] l Hp _ IH]; intros t; cbn [fold_left fst snd];
    [reflexivity|].
  now rewrite (proj1 (replace_all_scan pat r t Hp)), IH.
Qed.

Lemma register_passes_table (o : Isa.operands) :
  Spec.register_passes o = Spec.register_substitutions o.
Proof. reflexivity. Qed.

Ltac each_pass tac :=
  repeat (apply List.Forall_cons; [cbn [fst snd]; tac|]); apply List.Forall_nil.

Lemma register_substitutions_no_overlap (o : Isa.operands) :
  Forall (fun p => Spec.no_overlap (fst p) (snd p)) (Spec.register_substitutions o).
Proof.
  unfold Spec.register_substitutions.
  repeat apply Forall_app_2;
    match goal with |- Forall _ (Spec.when_extracted ?v _) => destruct v end;
    cbn [Spec.when_extracted];
    each_pass ltac:(apply no_overlap_register; cbn [In]; tauto).
Qed.

(** for every template, the register blocks replace every occurrence of
    their placeholders, from left to right *)
Lemma register_passes_scan (o : Isa.operands) (t : string) :
  Spec.passes (Spec.register_passes o) t
  = Spec.substitute_all (Spec.register_substitutions o) t.
Proof.
  rewrite register_passes_table.
  apply passes_scan, register_substitutions_no_overlap.
Qed.

(** *** every loop of the renderer ends with nothing left to replace *)

Lemma settles_no_overlap (pat r : string) :
  Spec.no_overlap pat r -> Spec.settles (pat, r).
Proof. intros H s. exact (proj2 (replace_all_scan pat r s H)). Qed.

Lemma settles_shorter (pat r : string) :
  (String.length r < String.length pat)%nat -> Spec.settles (pat, r).
Proof. intros H s. apply replace_loop_shrinks; [exact H|lia]. Qed.

Lemma hex_without (c : ascii) (n : Z) :
  Str.is_digit c || Str.in_range 97 102 c = false ->
  Str.mem c (hex_string n) = false.
Proof.
  intros Hc.
  exact (mem_all (fun c => Str.is_digit c || Str.in_range 97 102 c) c _ Hc
           (hex_string_digits n)).
Qed.

Lemma later_passes_settle (o : Isa.operands) :
  Forall Spec.settles (Spec.later_passes o).
Proof.
  unfold Spec.later_passes.
  repeat apply Forall_app_2.
  - destruct (_ !! _) as [imm|]; cbn [Spec.when_extracted];
      [|apply List.Forall_nil].
    unfold Spec.imm_passes.
    apply List.Forall_cons; [|apply List.Forall_cons; [|apply List.Forall_nil]].
    + apply settles_no_overlap. repeat split; [discriminate|].
      cbn [String.append Spec.never_at Spec.mismatch Ascii.eqb Bool.eqb negb orb andb].
      apply never_at_head, hex_without. reflexivity.
    + apply settles_no_overlap, no_overlap_chars; [|reflexivity].
      cbn [String.append Str.mem Ascii.eqb Bool.eqb orb].
      apply hex_without. reflexivity.
  - destruct (_ !! _) as [offs|]; cbn [Spec.when_extracted];
      [|apply List.Forall_nil].
    unfold Spec.offs_passes.
    each_pass ltac:(apply settles_no_overlap, no_overlap_chars; [|reflexivity];
                    cbn [String.append Str.mem Ascii.eqb Bool.eqb orb];
                    apply hex_without; reflexivity).
  - destruct (Isa.has_shift o); [|apply List.Forall_nil].
    unfold Spec.shift_passes. destruct (_ =? _)%Z.
    + each_pass ltac:(apply settles_shorter; cbn; lia).
    + apply List.Forall_cons; [|each_pass ltac:(apply settles_shorter; cbn; lia)].
      apply settles_no_overlap. now repeat split.
  - unfold Spec.optional_passes.
    each_pass ltac:(apply settles_shorter; cbn; lia).
Qed.

(** the fuel of every [replace_all] of the renderer is enough: each loop
    stops because its pattern is not found any more *)
Lemma render_loops_settle (o : Isa.operands) :
  Forall Spec.settles (Spec.render_passes o).
Proof.
  unfold Spec.render_passes. apply Forall_app_2; [|apply later_passes_settle].
  rewrite register_passes_table.
  eapply List.Forall_impl; [|apply register_substitutions_no_overlap].
  intros [pat r] H. now apply settles_no_overlap.
Qed.

(** ** Register placeholders (C9) *)

(** C9, as the code has it. For every template, the renderer replaces every
    occurrence of each register placeholder, from left to right, by the name
    that [Spec.register_substitutions] gives it, and then runs the passes of
    the immediates, the shift and the optional parts. In a template made of
    one placeholder between text without the characters that open or close
    a placeholder, the placeholders of the Rd and Rn fields are rendered as
    sp or wsp for index 31 and as x{n} or w{n} otherwise; <Xm>, <R><m>, <Wm>
    and <Xt> are rendered as x{n} or w{n} for every index, 31 included; <Wt>
    is rendered from the Rt field in that way only when no Rd field was
    extracted, and when an Rd field was extracted it is rendered from the Rd
    index, with wsp for 31. *)
Theorem C9_register_placeholders (opcode : Z) (bit_fields : list string) :
  let o := Isa.extract_operands opcode bit_fields in
  (forall template : string,
     Isa.build_assembly template opcode bit_fields
     = Isa.clean_spaces
         (Spec.passes (Spec.later_passes o)
            (Spec.substitute_all (Spec.register_substitutions o) template)))
  /\ forall (pre post : string) (n : Z),
       Spec.plain pre = true -> Spec.plain post = true ->
       let shows (placeholder name : string) :=
         Isa.build_assembly (pre ++ placeholder ++ post) opcode bit_fields
         = Isa.clean_spaces (pre ++ name ++ post) in
       let x_or_sp := if (n =? 31)%Z then "sp" else "x" ++ dec_string n in
       let w_or_wsp := if (n =? 31)%Z then "wsp" else "w" ++ dec_string n in
       (Isa.reg_values o !! "Rd" = Some n ->
        shows "<Xd|SP>" x_or_sp /\ shows "<Xd>" x_or_sp
        /\ shows "<Wd|WSP>" w_or_wsp /\ shows "<Wd>" w_or_wsp
        /\ shows "<Wt>" w_or_wsp)
       /\ (Isa.reg_values o !! "Rn" = Some n ->
           shows "<Xn|SP>" x_or_sp /\ shows "<Xn>" x_or_sp
           /\ shows "<Wn|WSP>" w_or_wsp /\ shows "<Wn>" w_or_wsp)
       /\ (Isa.reg_values o !! "Rm" = Some n ->
           shows "<Xm>" ("x" ++ dec_string n)
           /\ shows "<R><m>" ("x" ++ dec_string n)
           /\ shows "<Wm>" ("w" ++ dec_string n))
       /\ (Isa.reg_values o !! "Rt" = Some n ->
           shows "<Xt>" ("x" ++ dec_string n)
           /\ (Isa.reg_values o !! "Rd" = None ->
               shows "<Wt>" ("w" ++ dec_string n))).
Proof.
  intros o. split.
  - intros template. unfold Isa.build_assembly. fold o.
    rewrite render_as_passes. unfold Spec.render_passes.
    now rewrite passes_app, register_passes_scan.
  - intros pre post n Hpre Hpost shows x_or_sp w_or_wsp.
    unfold shows, Isa.build_assembly. fold o.
    split; [|split; [|split]]; intros H.
    + exact (rd_placeholders o pre post Hpre Hpost n H).
    + exact (rn_placeholders o pre post Hpre Hpost n H).
    + exact (rm_placeholders o pre post Hpre Hpost n H).
    + exact (rt_placeholders o pre post Hpre Hpost n H).
Qed.

Lemma C9_register_placeholders_witness :
  Isa.build_assembly "ADD x0, <Xn|SP>, #0x20" 0x910083e0
    (Isa.bit_fields Sample.add_imm)
  = "ADD x0, sp, #0x20".
Proof.
  assert (Hrn : Isa.reg_values
                  (Isa.extract_operands 0x910083e0 (Isa.bit_fields Sample.add_imm))
                  !! "Rn" = Some 31%Z) by (vm_compute; reflexivity).
  exact (proj1 (proj1 (proj2 (proj2 (C9_register_placeholders
                                       0x910083e0 (Isa.bit_fields Sample.add_imm))
                                     "ADD x0, " ", #0x20" 31%Z eq_refl eq_refl))
                  Hrn)).
Defined.

(** C9 as stated fails for <Wt>: with an Rd field in the pattern, <Wt> is
    rendered from the Rd index and index 31 gives wsp, whether the Rt
    index is 31 too, is another one, or there is no Rt field at all. *)
Lemma C9_counterexample :
  Isa.reg_values (Isa.extract_operands 0x3ff Sample.rt_rd_fields) !! "Rt" = Some 31%Z
  /\ Isa.build_assembly "<Wt>" 0x3ff Sample.rt_rd_fields = "wsp"
  /\ Isa.reg_values (Isa.extract_operands 0x0bf Sample.rt_rd_fields) !! "Rt" = Some 5%Z
  /\ Isa.build_assembly "<Wt>" 0x0bf Sample.rt_rd_fields = "wsp"
  /\ Isa.reg_values (Isa.extract_operands 0x01f Sample.rd_fields) !! "Rt" = None
  /\ Isa.build_assembly "<Wt>" 0x01f Sample.rd_fields = "wsp".
Proof. repeat split; vm_compute; reflexivity. Qed.

(** * Further properties of the code *)

(** ** Opcode literals *)

Lemma remove_separators_cons (c : ascii) (s : string) :
  Isa.remove_separators (String c s)
  = if negb (Ascii.eqb c "_") && negb (Ascii.eqb c ":")
    then String c (Isa.remove_separators s) else Isa.remove_separators s.
Proof. reflexivity. Qed.

Lemma remove_separators_append (a b : string) :
  Isa.remove_separators (a ++ b)
  = Isa.remove_separators a ++ Isa.remove_separators b.
Proof.
  induction a as [|c a IH]; [reflexivity|].
  cbn [String.append]. rewrite !remove_separators_cons, IH.
  now destruct (_ && _).
Qed.

Lemma remove_separators_kept (s : string) :
  Str.mem "_" s = false -> Str.mem ":" s = false -> Isa.remove_separators s = s.
Proof.
  induction s as [|c s IH]; [reflexivity|]. cbn [Str.mem].
  intros [H1 H2]%orb_false_iff [H3 H4]%orb_false_iff.
  rewrite remove_separators_cons, H1, H3, IH by assumption. reflexivity.
Qed.

Lemma parse_opcode_cleaned (a b : string) :
  Isa.remove_separators a = Isa.remove_separators b ->
  Isa.parse_opcode a = Isa.parse_opcode b.
Proof. unfold Isa.parse_opcode. now intros ->. Qed.

(** X1: an underscore or a colon may stand anywhere in an opcode literal,
    in the prefix as well as between the digits: [parse_opcode] reads the
    literal as if the separator was not there, whatever the rest is. *)
Theorem X1_parse_opcode_ignores_separators (a b : string) :
  Isa.parse_opcode (a ++ "_" ++ b) = Isa.parse_opcode (a ++ b)
  /\ Isa.parse_opcode (a ++ ":" ++ b) = Isa.parse_opcode (a ++ b).
Proof.
  split; apply parse_opcode_cleaned;
    rewrite !remove_separators_append; reflexivity.
Qed.

(** *** printing and reading numbers *)

Ltac eval_digit :=
  match goal with
  | |- context [digit_value ?b (Ascii ?b0 ?b1 ?b2 ?b3 ?b4 ?b5 ?b6 ?b7)] =>
      let v := eval vm_compute in (digit_value b (Ascii b0 b1 b2 b3 b4 b5 b6 b7)) in
      change (digit_value b (Ascii b0 b1 b2 b3 b4 b5 b6 b7)) with v
  end.

Lemma read_hex_acc (u : Hexadecimal.uint) (p : positive) (n : nat) :
  read_digits 16 (HexadecimalString.NilEmpty.string_of_uint u) (Z.pos p) n
  = (Z.pos (Pos.of_hex_uint_acc u p), (n + Hexadecimal.nb_digits u)%nat).
Proof.
  revert p n.
  induction u; intros p n;
    cbn [HexadecimalString.NilEmpty.string_of_uint read_digits
         Pos.of_hex_uint_acc Hexadecimal.nb_digits];
    [f_equal; lia|..];
    eval_digit; cbv iota beta;
    match goal with
    | |- read_digits _ _ ?acc _ = (Z.pos (Pos.of_hex_uint_acc _ ?q), _) =>
        replace acc with (Z.pos q) by lia
    end;
    rewrite IHu; f_equal; lia.
Qed.

Lemma read_hex (u : Hexadecimal.uint) (n : nat) :
  read_digits 16 (HexadecimalString.NilEmpty.string_of_uint u) 0 n
  = (Z.of_N (Pos.of_hex_uint u), (n + Hexadecimal.nb_digits u)%nat).
Proof.
  revert n.
  induction u; intros n;
    cbn [HexadecimalString.NilEmpty.string_of_uint read_digits
         Pos.of_hex_uint Hexadecimal.nb_digits];
    [f_equal; lia|..];
    eval_digit; cbv iota beta;
    match goal with
    | |- read_digits _ _ ?acc _ = _ =>
        let v := eval cbv in acc in change acc with v
    end;
    first [ rewrite IHu; f_equal; lia
          | rewrite read_hex_acc; cbn [Z.of_N]; f_equal; lia ].
Qed.

Lemma read_dec_acc (u : Decimal.uint) (p : positive) (n : nat) :
  read_digits 10 (DecimalString.NilEmpty.string_of_uint u) (Z.pos p) n
  = (Z.pos (Pos.of_uint_acc u p), (n + Decimal.nb_digits u)%nat).
Proof.
  revert p n.
  induction u; intros p n;
    cbn [DecimalString.NilEmpty.string_of_uint read_digits
         Pos.of_uint_acc Decimal.nb_digits];
    [f_equal; lia|..];
    eval_digit; cbv iota beta;
    match goal with
    | |- read_digits _ _ ?acc _ = (Z.pos (Pos.of_uint_acc _ ?q), _) =>
        replace acc with (Z.pos q)
          by (rewrite ?Pos.mul_xO_r, ?Pos.mul_1_r; lia)
    end;
    rewrite IHu; f_equal; lia.
Qed.

Lemma read_dec (u : Decimal.uint) (n : nat) :
  read_digits 10 (DecimalString.NilEmpty.string_of_uint u) 0 n
  = (Z.of_N (Pos.of_uint u), (n + Decimal.nb_digits u)%nat).
Proof.
  revert n.
  induction u; intros n;
    cbn [DecimalString.NilEmpty.string_of_uint read_digits
         Pos.of_uint Decimal.nb_digits];
    [f_equal; lia|..];
    eval_digit; cbv iota beta;
    match goal with
    | |- read_digits _ _ ?acc _ = _ =>
        let v := eval cbv in acc in change acc with v
    end;
    first [ rewrite IHu; f_equal; lia
          | rewrite read_dec_acc; cbn [Z.of_N]; f_equal; lia ].
Qed.

Lemma hex_char_code (c : ascii) :
  Str.is_digit c || Str.in_range 97 102 c = true ->
  (48 <= Str.code c <= 57 \/ 97 <= Str.code c <= 102)%Z.
Proof.
  unfold Str.is_digit. rewrite orb_true_iff, !in_range_spec. tauto.
Qed.

Lemma code_not_eqb (c k : ascii) :
  Str.code c <> Str.code k -> Ascii.eqb c k = false.
Proof.
  intros H. destruct (Ascii.eqb_spec c k) as [->|]; [congruence|reflexivity].
Qed.

Lemma code_not_space (c : ascii) :
  (32 < Str.code c)%Z -> Str.is_space c = false.
Proof.
  intros H. unfold Str.is_space.
  apply orb_false_iff. rewrite in_range_false, Z.eqb_neq. lia.
Qed.

(** a string that starts with a digit or a letter has no white space, no
    sign and, unless its second character is an x, no 0x to skip *)
Lemma strto_unsigned (base : Z) (c : ascii) (s : string) :
  (48 <= Str.code c)%Z ->
  match s with
  | String x _ => Ascii.eqb x "x" || Ascii.eqb x "X" = false
  | "" => True
  end ->
  strto base (String c s)
  = match read_digits base (String c s) 0 0 with
    | (_, O) => None
    | (v, S _) => Some (false, v)
    end.
Proof.
  intros Hc Hx. unfold strto.
  rewrite (skip_spaces_stops (String c s)) by (apply code_not_space; lia).
  assert (Hsign : strip_sign (String c s) = (false, String c s)).
  { unfold strip_sign.
    rewrite (code_not_eqb c "-"), (code_not_eqb c "+");
      [reflexivity|vm_compute Str.code at 2; lia..]. }
  rewrite Hsign.
  assert (H0x : strip_0x base (String c s) = String c s).
  { unfold strip_0x. destruct s as [|x [|h r]]; try reflexivity.
    rewrite Hx. now rewrite andb_false_r. }
  rewrite H0x. now destruct (read_digits _ _ _ _) as [v [|n]].
Qed.

Lemma read_leading_zeros (base : Z) (k : nat) (s : string) (n : nat) :
  (0 < base)%Z ->
  read_digits base (fill k "0" ++ s) 0 n = read_digits base s 0 (n + k).
Proof.
  intros Hb. revert n.
  induction k as [|k IH]; intros n; cbn [fill String.append].
  - now rewrite Nat.add_0_r.
  - cbn [read_digits].
    assert (H0 : digit_value base "0" = Some 0%Z).
    { unfold digit_value. change (Str.is_digit "0") with true.
      change (Str.code "0" - 48)%Z with 0%Z. cbv iota.
      destruct (Z.ltb_spec 0 base); [reflexivity|lia]. }
    rewrite H0. cbn [Z.mul Z.add]. rewrite IH. f_equal. lia.
Qed.

Lemma read_hex_string (v : Z) (n : nat) :
  (0 <= v)%Z ->
  exists m, read_digits 16 (hex_string v) 0 n = (v, S (n + m)).
Proof.
  intros Hv. unfold hex_string.
  pose proof (HexadecimalN.Unsigned.of_to (Z.to_N v)) as Hu.
  unfold N.of_hex_uint in Hu.
  destruct (N.to_hex_uint (Z.to_N v)) as [|u|u|u|u|u|u|u|u|u|u|u|u|u|u|u|u] eqn:E;
    [exists 0%nat; cbn [Pos.of_hex_uint] in Hu;
     cbn [HexadecimalString.NilZero.string_of_uint read_digits];
     eval_digit; cbv iota beta; cbn [read_digits]; f_equal; lia|..];
    exists (Hexadecimal.nb_digits u);
    cbn [HexadecimalString.NilZero.string_of_uint];
    rewrite read_hex, Hu; cbn [Hexadecimal.nb_digits]; f_equal; lia.
Qed.

Lemma read_dec_string (v : Z) (n : nat) :
  (0 <= v)%Z ->
  exists m, read_digits 10 (dec_string v) 0 n = (v, S (n + m)).
Proof.
  intros Hv. unfold dec_string.
  pose proof (DecimalN.Unsigned.of_to (Z.to_N v)) as Hu.
  unfold N.of_uint in Hu.
  destruct (N.to_uint (Z.to_N v)) as [|u|u|u|u|u|u|u|u|u|u] eqn:E;
    [exists 0%nat; cbn [Pos.of_uint] in Hu;
     cbn [DecimalString.NilZero.string_of_uint read_digits];
     eval_digit; cbv iota beta; cbn [read_digits]; f_equal; lia|..];
    exists (Decimal.nb_digits u);
    cbn [DecimalString.NilZero.string_of_uint];
    rewrite read_dec, Hu; cbn [Decimal.nb_digits]; f_equal; lia.
Qed.

Lemma all_fill (p : ascii -> bool) (k : nat) (c : ascii) :
  p c = true -> Str.all p (fill k c) = true.
Proof. intros Hc. induction k as [|k IH]; cbn; [reflexivity|now rewrite Hc]. Qed.

Lemma hex_string_nonempty (v : Z) : hex_string v <> "".
Proof.
  unfold hex_string, HexadecimalString.NilZero.string_of_uint.
  now destruct (N.to_hex_uint (Z.to_N v)).
Qed.

Lemma dec_string_nonempty (v : Z) : dec_string v <> "".
Proof.
  unfold dec_string, DecimalString.NilZero.string_of_uint.
  now destruct (N.to_uint (Z.to_N v)).
Qed.

(** a text of lower-case hexadecimal digits is read whole, in base 16 *)
Lemma strto_hex_text (s : string) :
  Str.all (fun c => Str.is_digit c || Str.in_range 97 102 c) s = true ->
  s <> "" ->
  strto 16 s
  = match read_digits 16 s 0 0 with
    | (_, O) => None
    | (v, S _) => Some (false, v)
    end.
Proof.
  intros Hs Hne. destruct s as [|c s]; [congruence|].
  cbn [Str.all] in Hs. apply andb_true_iff in Hs as [Hc Hs].
  apply strto_unsigned.
  - apply hex_char_code in Hc. lia.
  - destruct s as [|x s]; [exact I|].
    cbn [Str.all] in Hs. apply andb_true_iff in Hs as [Hx _].
    apply hex_char_code in Hx.
    rewrite (code_not_eqb x "x"), (code_not_eqb x "X");
      [reflexivity|vm_compute Str.code at 2; lia..].
Qed.

Lemma stoul_hex_text (v : Z) (k : nat) :
  (0 <= v <= ULONG_MAX)%Z ->
  stoul (fill k "0" ++ hex_string v) 16 = inr v.
Proof.
  intros Hv. unfold stoul.
  rewrite strto_hex_text.
  - rewrite read_leading_zeros by lia.
    destruct (read_hex_string v (0 + k)) as [m ->]; [lia|].
    destruct (Z.ltb_spec ULONG_MAX v); [lia|reflexivity].
  - rewrite all_append, (all_fill _ k "0") by reflexivity.
    apply hex_string_digits.
  - pose proof (hex_string_nonempty v).
    destruct k; cbn [fill String.append]; [assumption|discriminate].
Qed.

Lemma hex_text_no_separator (c : ascii) (s : string) :
  Str.all (fun c => Str.is_digit c || Str.in_range 97 102 c) s = true ->
  (Str.code c < 48 \/ 57 < Str.code c < 97 \/ 102 < Str.code c)%Z ->
  Str.mem c s = false.
Proof.
  intros Hs Hc.
  apply (mem_all (fun c => Str.is_digit c || Str.in_range 97 102 c) c s);
    [|exact Hs].
  apply orb_false_iff. unfold Str.is_digit. rewrite !in_range_false. lia.
Qed.

Lemma parse_opcode_hex_text (v : Z) (k : nat) :
  (0 <= v < 2 ^ 32)%Z ->
  Isa.parse_opcode ("0x" ++ fill k "0" ++ hex_string v) = Isa.Value v.
Proof.
  intros Hv. unfold Isa.parse_opcode.
  assert (Hall : Str.all (fun c => Str.is_digit c || Str.in_range 97 102 c)
                   (fill k "0" ++ hex_string v) = true).
  { rewrite all_append, (all_fill _ k "0") by reflexivity.
    apply hex_string_digits. }
  change ("0x" ++ ?t) with (String "0" (String "x" t)).
  rewrite !remove_separators_cons. cbn [Ascii.eqb Bool.eqb negb andb].
  rewrite remove_separators_kept
    by (apply hex_text_no_separator;
        [exact Hall|right; left; split; reflexivity..]).
  unfold Str.substr, Str.substr_from. cbn [Str.drop Str.take].
  change (String.eqb "0x" "0x") with true. cbn [orb].
  rewrite stoul_hex_text by (unfold ULONG_MAX; lia).
  unfold u32. now rewrite Z.mod_small.
Qed.

(** *** the width of a printed opcode *)

Lemma hex_text_length (u : Hexadecimal.uint) :
  String.length (HexadecimalString.NilEmpty.string_of_uint u)
  = Hexadecimal.nb_digits u.
Proof.
  induction u;
    cbn [HexadecimalString.NilEmpty.string_of_uint String.length
         Hexadecimal.nb_digits]; congruence.
Qed.

Lemma of_hex_uint_acc_lower (u : Hexadecimal.uint) (p : positive) :
  (Z.pos p * 16 ^ Z.of_nat (Hexadecimal.nb_digits u)
   <= Z.pos (Pos.of_hex_uint_acc u p))%Z.
Proof.
  revert p.
  induction u; intros p; cbn [Pos.of_hex_uint_acc Hexadecimal.nb_digits];
    [rewrite Z.pow_0_r; lia|..];
    rewrite Nat2Z.inj_succ, Z.pow_succ_r by lia;
    match goal with
    | |- (_ <= Z.pos (Pos.of_hex_uint_acc _ ?q))%Z =>
        specialize (IHu q)
    end;
    assert (0 < 16 ^ Z.of_nat (Hexadecimal.nb_digits u))%Z
      by (apply Z.pow_pos_nonneg; lia);
    nia.
Qed.

Lemma to_hex_uint_normal (n : N) :
  Hexadecimal.unorm (N.to_hex_uint n) = N.to_hex_uint n.
Proof.
  rewrite <- (HexadecimalN.Unsigned.to_of (N.to_hex_uint n)).
  now rewrite HexadecimalN.Unsigned.of_to.
Qed.

Lemma hex_string_width (v : Z) :
  (0 <= v < 2 ^ 32)%Z -> (String.length (hex_string v) <= 8)%nat.
Proof.
  intros Hv. unfold hex_string.
  pose proof (HexadecimalN.Unsigned.of_to (Z.to_N v)) as Hof.
  pose proof (to_hex_uint_normal (Z.to_N v)) as Hnorm.
  unfold N.of_hex_uint in Hof.
  assert (Hlead : forall (k : positive) (l : Hexadecimal.uint),
             N.pos (Pos.of_hex_uint_acc l k) = Z.to_N v ->
             (S (Hexadecimal.nb_digits l) <= 8)%nat).
  { intros k l Hk. pose proof (of_hex_uint_acc_lower l k) as Hlow.
    assert (Hval : Z.pos (Pos.of_hex_uint_acc l k) = v) by lia.
    rewrite Hval in Hlow.
    destruct (Nat.le_gt_cases (S (Hexadecimal.nb_digits l)) 8) as [|Hbig];
      [assumption|exfalso].
    assert (16 ^ 8 <= 16 ^ Z.of_nat (Hexadecimal.nb_digits l))%Z
      by (apply Z.pow_le_mono_r; lia).
    change (16 ^ 8)%Z with (2 ^ 32)%Z in *. nia. }
  destruct (N.to_hex_uint (Z.to_N v)) as [|u|u|u|u|u|u|u|u|u|u|u|u|u|u|u|u] eqn:E;
    cbn [HexadecimalString.NilZero.string_of_uint];
    [cbn; lia| |rewrite hex_text_length; cbn [Hexadecimal.nb_digits];
                cbn [Pos.of_hex_uint] in Hof; eapply Hlead; exact Hof..].
  rewrite hex_text_length. cbn [Hexadecimal.nb_digits].
  rewrite HexadecimalFacts.unorm_D0 in Hnorm.
  destruct u as [|u|u|u|u|u|u|u|u|u|u|u|u|u|u|u|u]; [cbn; lia|..];
    match type of Hnorm with
    | Hexadecimal.unorm ?l = _ =>
        pose proof (HexadecimalFacts.nb_digits_unorm l ltac:(discriminate)) as Hlen;
        rewrite Hnorm in Hlen; cbn [Hexadecimal.nb_digits] in Hlen; lia
    end.
Qed.

Lemma length_fill (k : nat) (c : ascii) : String.length (fill k c) = k.
Proof. induction k as [|k IH]; cbn; congruence. Qed.

Lemma printed_opcode_width (v : Z) :
  (0 <= v < 2 ^ 32)%Z -> String.length (setw 8 "0" (hex_string v)) = 8%nat.
Proof.
  intros Hv. pose proof (hex_string_width v Hv) as Hw.
  unfold setw. rewrite length_append, length_fill. lia.
Qed.

(** X2: a 32-bit opcode printed in lower-case hexadecimal after [0x], as
    it is or padded with zeros to eight digits the way the no-match
    diagnostic prints it, is read back by [parse_opcode] as the same opcode.
    The padded text has exactly ten characters; [main] run on it decodes
    that opcode and returns 0, and when no pattern matches, the diagnostic
    shows this very text. *)
Theorem X2_parse_opcode_reads_printed_opcode (v : Z) :
  (0 <= v < 2 ^ 32)%Z ->
  let printed := "0x" ++ setw 8 "0" (hex_string v) in
  Isa.parse_opcode ("0x" ++ hex_string v) = Isa.Value v
  /\ Isa.parse_opcode printed = Isa.Value v
  /\ String.length printed = 10%nat
  /\ forall (encoding_arrays : list (list Isa.EncodingPattern))
            (argv0 : string) (rest : list string),
       Isa.main encoding_arrays (argv0 :: "--op" :: printed :: rest)
       = Finished (fst (Isa.query_by_opcode encoding_arrays v))
           (snd (Isa.query_by_opcode encoding_arrays v)) 0
       /\ (Spec.decode_lines (List.concat encoding_arrays) v = [] ->
           Isa.query_by_opcode encoding_arrays v
           = ("", "No matching instruction found for opcode: " ++ printed
                  ++ Str.nl)).
Proof.
  intros Hv printed.
  assert (Hprinted : Isa.parse_opcode printed = Isa.Value v)
    by exact (parse_opcode_hex_text v _ Hv).
  split; [exact (parse_opcode_hex_text v 0 Hv)|].
  split; [exact Hprinted|]. split.
  - unfold printed. change ("0x" ++ ?t) with (String "0" (String "x" t)).
    cbn [String.length]. now rewrite printed_opcode_width.
  - intros encoding_arrays argv0 rest. split.
    + now apply main_decodes.
    + intros Hnone.
      pose proof (query_by_opcode_streams encoding_arrays v) as Hq.
      cbv zeta in Hq. rewrite Hnone in Hq. exact Hq.
Qed.

Lemma parse_opcode_reads_printed_opcode_witness :
  Isa.parse_opcode ("0x" ++ hex_string 0x1f) = Isa.Value 0x1f
  /\ Isa.parse_opcode ("0x" ++ setw 8 "0" (hex_string 0x1f)) = Isa.Value 0x1f.
Proof.
  assert (Hv : (0 <= 0x1f < 2 ^ 32)%Z) by lia.
  pose proof (X2_parse_opcode_reads_printed_opcode 0x1f Hv) as (H1 & H2 & _).
  split; [exact H1|exact H2].
Defined.

(** *** binary literals *)

Lemma weighted_value_snoc (l : list Z) (b : Z) :
  Spec.weighted_value (l ++ [b])
  = (2 * Spec.weighted_value l + b)%Z.
Proof.
  induction l as [|a l IH]; cbn [app Spec.weighted_value length]; [lia|].
  rewrite IH, length_app. cbn [length].
  rewrite Nat.add_1_r, Nat2Z.inj_succ, Z.pow_succ_r by lia. ring.
Qed.

Lemma read_binary (bits : list bool) (acc : Z) (n : nat) :
  read_digits 2 (Notion.binary_text bits) acc n
  = ((acc * 2 ^ Z.of_nat (length bits)
      + Spec.weighted_value (List.map Z.b2z bits))%Z,
     (n + length bits)%nat).
Proof.
  revert acc n.
  induction bits as [|b bits IH]; intros acc n;
    cbn [Notion.binary_text read_digits List.map Spec.weighted_value length].
  - f_equal; lia.
  - assert (Hd : digit_value 2 (if b then "1" else "0")%char = Some (Z.b2z b))
      by now destruct b.
    rewrite Hd, IH, length_map, Nat2Z.inj_succ, Z.pow_succ_r by lia.
    f_equal; [ring|lia].
Qed.

Lemma weighted_bits_bounds (bits : list bool) :
  (0 <= Spec.weighted_value (List.map Z.b2z bits) < 2 ^ Z.of_nat (length bits))%Z.
Proof.
  induction bits as [|b bits IH]; cbn [List.map Spec.weighted_value length].
  - lia.
  - rewrite length_map, Nat2Z.inj_succ, Z.pow_succ_r by lia.
    destruct b; cbn [Z.b2z]; lia.
Qed.

Lemma binary_text_clean (bits : list bool) :
  Isa.remove_separators (Notion.binary_text bits) = Notion.binary_text bits.
Proof.
  induction bits as [|b bits IH]; [reflexivity|].
  cbn [Notion.binary_text]. rewrite remove_separators_cons, IH. now destruct b.
Qed.

(** X3: a binary literal of one to 64 digits after [0b] is read with its
    first digit as the most significant bit and narrowed to 32 bits; with
    at most 32 digits nothing is lost. *)
Theorem X3_parse_opcode_binary_literal (bits : list bool) :
  bits <> [] -> (length bits <= 64)%nat ->
  Isa.parse_opcode ("0b" ++ Notion.binary_text bits)
  = Isa.Value (u32 (Spec.weighted_value (List.map Z.b2z bits)))
  /\ ((length bits <= 32)%nat ->
      Isa.parse_opcode ("0b" ++ Notion.binary_text bits)
      = Isa.Value (Spec.weighted_value (List.map Z.b2z bits))).
Proof.
  intros Hne Hlen.
  pose proof (weighted_bits_bounds bits) as Hb.
  assert (Hparse : Isa.parse_opcode ("0b" ++ Notion.binary_text bits)
                   = Isa.Value (u32 (Spec.weighted_value (List.map Z.b2z bits)))).
  { unfold Isa.parse_opcode.
    change ("0b" ++ ?t) with (String "0" (String "b" t)).
    rewrite !remove_separators_cons. cbn [Ascii.eqb Bool.eqb negb andb].
    rewrite binary_text_clean.
    unfold Str.substr, Str.substr_from. cbn [Str.drop Str.take].
    change (String.eqb "0b" "0x") with false.
    change (String.eqb "0b" "0X") with false.
    change (String.eqb "0b" "0b") with true. cbn [orb].
    unfold stoul.
    destruct bits as [|b bits]; [congruence|].
    cbn [Notion.binary_text]. rewrite strto_unsigned.
    - change (String (if b then "1" else "0")%char (Notion.binary_text bits))
        with (Notion.binary_text (b :: bits)).
      rewrite read_binary. cbn [Nat.add length]. rewrite Z.mul_0_l, Z.add_0_l.
      assert (Hpow : (2 ^ Z.of_nat (length (b :: bits)) <= 2 ^ 64)%Z)
        by (apply Z.pow_le_mono_r; lia).
      cbn [length] in Hpow, Hb.
      destruct (Z.ltb_spec ULONG_MAX
                  (Spec.weighted_value (List.map Z.b2z (b :: bits))));
        [unfold ULONG_MAX in *; lia|reflexivity].
    - destruct b; vm_compute; discriminate.
    - destruct bits as [|x bits]; [exact I|]. cbn [Notion.binary_text].
      now destruct x. }
  split; [exact Hparse|].
  intros H32. rewrite Hparse. f_equal. unfold u32. apply Z.mod_small.
  assert (Hpow : (2 ^ Z.of_nat (length bits) <= 2 ^ 32)%Z)
    by (apply Z.pow_le_mono_r; lia).
  lia.
Qed.

Lemma parse_opcode_binary_literal_witness :
  Isa.parse_opcode "0b1001" = Isa.Value 9.
Proof.
  exact (proj2 (X3_parse_opcode_binary_literal [true; false; false; true]
                  ltac:(discriminate) ltac:(cbn; lia)) ltac:(cbn; lia)).
Defined.

(** ** Matching and field extraction *)

(** X4: a pattern can match some 32-bit opcode exactly when its fixed
    bits lie inside its mask; a pattern with a fixed bit set outside the
    mask matches nothing. *)
Theorem X4_pattern_matches_some_opcode (enc : Isa.EncodingPattern) :
  (0 <= Isa.fixed_bits enc < 2 ^ 32)%Z ->
  (exists opcode, (0 <= opcode < 2 ^ 32)%Z /\ Isa.matches opcode enc = true)
  <-> Z.land (Isa.fixed_bits enc) (Isa.fixed_mask enc) = Isa.fixed_bits enc.
Proof.
  intros Hf. unfold Isa.matches. split.
  - intros (opcode & _ & H%Z.eqb_eq).
    rewrite <- H at 1. rewrite <- Z.land_assoc, Z.land_diag. exact H.
  - intros H. exists (Isa.fixed_bits enc). split; [exact Hf|].
    now apply Z.eqb_eq.
Qed.

Lemma pattern_matches_some_opcode_witness :
  exists opcode, (0 <= opcode < 2 ^ 32)%Z /\ Isa.matches opcode Sample.hint = true.
Proof.
  apply (proj2 (X4_pattern_matches_some_opcode Sample.hint ltac:(cbn; lia))).
  reflexivity.
Defined.

Lemma fold_left_ext_in {A B : Type} (f g : A -> B -> A) (l : list B) (a : A) :
  (forall x, In x l -> forall a, f a x = g a x) ->
  fold_left f l a = fold_left g l a.
Proof.
  revert a. induction l as [|x l IH]; intros a H; cbn [fold_left]; [reflexivity|].
  rewrite (H x (or_introl eq_refl)). apply IH.
  intros y Hy. apply H. now right.
Qed.

Lemma field_value_ext (op1 op2 : Z) (bits : list Z) :
  (forall p, In p bits -> Isa.opcode_bit op1 p = Isa.opcode_bit op2 p) ->
  Isa.field_value op1 bits = Isa.field_value op2 bits.
Proof.
  intros H. unfold Isa.field_value. f_equal.
  apply fold_left_ext_in. intros p Hp [value i].
  unfold Isa.value_step. now rewrite (H p Hp).
Qed.

Lemma variable_positions_member (bit_fields : list string) (p : Z) :
  In p (Notion.variable_positions bit_fields)
  <-> (0 <= p <= 31)%Z
      /\ Isa.is_literal (nth (Z.to_nat (31 - p)) bit_fields "") = false.
Proof.
  unfold Notion.variable_positions. rewrite List.in_map_iff. split.
  - intros (i & <- & [Hi Hl%negb_true_iff]%List.filter_In).
    apply List.in_seq in Hi. split; [lia|].
    now replace (Z.to_nat (31 - (31 - Z.of_nat i))) with i by lia.
  - intros [Hp Hl]. exists (Z.to_nat (31 - p)). split; [lia|].
    apply List.filter_In. split; [apply List.in_seq; lia|now apply negb_true_iff].
Qed.

(** X5: [build_assembly] reads the opcode only at the positions whose
    label is not a literal: two opcodes that agree there are rendered
    alike, on every template. *)
Theorem X5_build_assembly_reads_variable_bits
  (asm_template : string) (bit_fields : list string) (op1 op2 : Z) :
  length bit_fields = 32%nat ->
  (forall p, In p (Notion.variable_positions bit_fields) ->
             Z.testbit op1 p = Z.testbit op2 p) ->
  Isa.build_assembly asm_template op1 bit_fields
  = Isa.build_assembly asm_template op2 bit_fields.
Proof.
  intros Hlen Hagree. unfold Isa.build_assembly. f_equal.
  rewrite !extract_operands_eq. f_equal. rewrite !extract_values_eq.
  apply fold_left_ext_in. intros [k vs] Hin o.
  unfold Isa.extract_step. cbn [fst snd]. f_equal.
  apply (collect_field_bits_keys bit_fields k vs Hlen) in Hin as (Hlit & _ & ->).
  apply field_value_ext. intros p Hp.
  apply label_positions_member in Hp as [Hp Hl].
  rewrite !opcode_bit_testbit by lia. f_equal. apply Hagree.
  apply variable_positions_member. split; [exact Hp|]. now rewrite Hl.
Qed.

Lemma build_assembly_reads_variable_bits_witness :
  Isa.build_assembly (Isa.asm_template Sample.add_imm) 0x910083e0
    (Isa.bit_fields Sample.add_imm)
  = Isa.build_assembly (Isa.asm_template Sample.add_imm) 0x000083e0
      (Isa.bit_fields Sample.add_imm).
Proof.
  apply X5_build_assembly_reads_variable_bits; [reflexivity|].
  intros p Hp. cbn in Hp.
  repeat (destruct Hp as [<-|Hp]; [reflexivity|]). destruct Hp.
Defined.

(** *** extract_field *)

Lemma lor_next_bit (v s : Z) :
  (0 <= s)%Z -> (0 <= v < 2 ^ s)%Z -> Z.lor v (2 ^ s) = (v + 2 ^ s)%Z.
Proof.
  intros Hs Hv. symmetry. apply Z.add_nocarry_lor.
  apply Z.bits_inj'. intros n Hn.
  rewrite Z.land_spec, Z.bits_0, Z.pow2_bits_eqb by lia.
  destruct (Z.eqb_spec s n) as [<-|_]; [|apply andb_false_r].
  rewrite andb_true_r.
  destruct (Z.eq_dec v 0%Z) as [->|Hnz]; [apply Z.bits_0|].
  apply Z.bits_above_log2; [lia|]. apply Z.log2_lt_pow2; lia.
Qed.

Lemma extract_field_fold (opcode : Z) (bit_fields : list string)
  (l : list nat) (v s : Z) :
  let kept := List.filter (fun i => negb (Isa.is_literal (nth i bit_fields ""))) l in
  (0 <= s)%Z -> (s + Z.of_nat (length kept) <= 32)%Z -> (0 <= v < 2 ^ s)%Z ->
  fold_left (Isa.extract_field_step opcode bit_fields) l (v, s)
  = ((v + 2 ^ s
          * Spec.weighted_value
              (List.rev
                 (List.map (fun i => Isa.opcode_bit opcode (31 - Z.of_nat i)) kept)))%Z,
     (s + Z.of_nat (length kept))%Z).
Proof.
  revert v s. induction l as [|i l IH]; intros v s kept Hs Hlen Hv.
  - cbn. f_equal; lia.
  - subst kept. cbn [fold_left List.filter] in *.
    unfold Isa.extract_field_step at 2.
    destruct (Isa.is_literal (nth i bit_fields "")); cbn [negb] in *.
    + now apply IH.
    + cbn [length List.map List.rev] in *.
      rewrite weighted_value_snoc.
      set (b := Isa.opcode_bit opcode (31 - Z.of_nat i)).
      assert (Hpow : (2 ^ (s + 1) <= 2 ^ 32)%Z) by (apply Z.pow_le_mono_r; lia).
      assert (Hs1 : (2 ^ (s + 1) = 2 * 2 ^ s)%Z)
        by (rewrite Z.pow_add_r by lia; change (2 ^ 1)%Z with 2%Z; ring).
      assert (Hstep : (if (b =? 0)%Z then v
                       else u32 (Z.lor v (Z.shiftl 1 s))) = (v + b * 2 ^ s)%Z).
      { destruct (opcode_bit_cases opcode (31 - Z.of_nat i)) as [H|H];
          fold b in H; rewrite H; cbn [Z.eqb]; [lia|].
        rewrite Z.shiftl_1_l, lor_next_bit by lia.
        unfold u32. rewrite Z.mod_small; lia. }
      rewrite Hstep, IH.
      * f_equal; [rewrite Hs1; ring|lia].
      * lia.
      * lia.
      * destruct (opcode_bit_cases opcode (31 - Z.of_nat i)) as [H|H];
          fold b in H; rewrite H; lia.
Qed.

Lemma extract_field_eq (opcode : Z) (bit_fields : list string) :
  Isa.extract_field opcode bit_fields
  = fst (fold_left (Isa.extract_field_step opcode bit_fields) (seq 0 32)
           (0%Z, 0%Z)).
Proof. reflexivity. Qed.

Lemma variable_positions_eq (bit_fields : list string) :
  Notion.variable_positions bit_fields
  = List.map (fun i => (31 - Z.of_nat i)%Z)
      (List.filter (fun i => negb (Isa.is_literal (nth i bit_fields "")))
         (seq 0 32)).
Proof. reflexivity. Qed.

Lemma extract_field_value (opcode : Z) (bit_fields : list string) :
  Isa.extract_field opcode bit_fields
  = Spec.weighted_value
      (List.rev
         (List.map (fun p => Z.b2z (Z.testbit opcode p))
            (Notion.variable_positions bit_fields))).
Proof.
  rewrite extract_field_eq, extract_field_fold.
  - cbn [fst]. rewrite Z.add_0_l, Z.pow_0_r, Z.mul_1_l.
    rewrite variable_positions_eq, List.map_map. do 2 f_equal.
    apply List.map_ext_in. intros i [Hi _]%List.filter_In.
    apply List.in_seq in Hi. apply opcode_bit_testbit. lia.
  - lia.
  - pose proof (List.filter_length_le
                  (fun i => negb (Isa.is_literal (nth i bit_fields "")))
                  (seq 0 32)) as H.
    rewrite length_seq in H. lia.
  - lia.
Qed.

(** X6: [extract_field] packs the bits found under the labels that are
    not literals, scanning from bit 31 down, with the first one met at bit 0
    of the result: the bits stand in the reverse of the order that
    [build_assembly] gives a field. When one label carries all the variable
    positions, the two values are each other's bit reversal. *)
Theorem X6_extract_field_packs_lowest_first
  (opcode : Z) (bit_fields : list string) (label : string) :
  length bit_fields = 32%nat ->
  let bit p := Z.b2z (Z.testbit opcode p) in
  Isa.extract_field opcode bit_fields
  = Spec.weighted_value
      (List.rev (List.map bit (Notion.variable_positions bit_fields)))
  /\ (Isa.is_literal label = false ->
      (forall i, (i < 32)%nat ->
                 Isa.is_literal (nth i bit_fields "") = false ->
                 nth i bit_fields "" = label) ->
      let bits := Spec.label_positions label bit_fields in
      Isa.extract_field opcode bit_fields
      = Spec.weighted_value (List.rev (List.map bit bits))
      /\ Isa.field_value opcode bits = Spec.weighted_value (List.map bit bits)).
Proof.
  intros _ bit. split; [apply extract_field_value|].
  intros Hlit Hone bits. split.
  - rewrite extract_field_value. fold bit. do 3 f_equal.
    rewrite variable_positions_eq. unfold bits, Spec.label_positions. f_equal.
    apply List.filter_ext_in. intros i Hi%List.in_seq.
    destruct (Isa.is_literal (nth i bit_fields "")) eqn:Hl; cbn [negb].
    + symmetry. apply String.eqb_neq. intros Heq. congruence.
    + symmetry. apply String.eqb_eq. apply Hone; [lia|exact Hl].
  - unfold bits. rewrite field_value_weighted by apply label_positions_length.
    f_equal. apply List.map_ext_in. intros p Hp.
    apply opcode_bit_testbit. now apply label_positions_range in Hp.
Qed.

Lemma extract_field_packs_lowest_first_witness :
  Isa.extract_field 0x10 Sample.rd_fields = 1%Z
  /\ Isa.field_value 0x10 (Spec.label_positions "Rd" Sample.rd_fields) = 16%Z.
Proof.
  assert (Hone : forall i, (i < 32)%nat ->
                   Isa.is_literal (nth i Sample.rd_fields "") = false ->
                   nth i Sample.rd_fields "" = "Rd").
  { intros i Hi.
    do 32 (destruct i as [|i]; [cbn; first [discriminate|reflexivity]|]). lia. }
  exact (proj2 (X6_extract_field_packs_lowest_first 0x10 Sample.rd_fields "Rd"
                  eq_refl)
           eq_refl Hone).
Defined.

(** ** The clean-up of spaces *)

Lemma split_spaces_nonnil (s : string) : Notion.split_spaces s <> [].
Proof.
  destruct s as [|c s]; cbn [Notion.split_spaces]; [discriminate|].
  destruct (Ascii.eqb c " "); [discriminate|].
  now destruct (Notion.split_spaces s).
Qed.

Lemma split_spaces_word (word s : string) :
  Str.mem " " word = false ->
  Notion.split_spaces (word ++ String " " s) = word :: Notion.split_spaces s.
Proof.
  induction word as [|c word IH]; cbn [String.append Str.mem Notion.split_spaces].
  - reflexivity.
  - intros [Hc Hw]%orb_false_iff. now rewrite Hc, (IH Hw).
Qed.

Lemma split_spaces_last (word : string) :
  Str.mem " " word = false -> Notion.split_spaces word = [word].
Proof.
  induction word as [|c word IH]; cbn [Str.mem Notion.split_spaces].
  - reflexivity.
  - intros [Hc Hw]%orb_false_iff. now rewrite Hc, (IH Hw).
Qed.

Lemma words_word (word s : string) :
  Str.mem " " word = false ->
  Notion.words (word ++ String " " s)
  = if Str.is_empty word then Notion.words s else word :: Notion.words s.
Proof.
  intros Hw. unfold Notion.words. rewrite split_spaces_word by exact Hw.
  cbn [List.filter]. now destruct word.
Qed.

Lemma words_last (word : string) :
  Str.mem " " word = false ->
  Notion.words word = if Str.is_empty word then [] else [word].
Proof.
  intros Hw. unfold Notion.words. rewrite split_spaces_last by exact Hw.
  cbn [List.filter]. now destruct word.
Qed.

Lemma mem_snoc (c a : ascii) (s : string) :
  Str.mem c (s ++ String a "") = Str.mem c s || Ascii.eqb a c.
Proof.
  induction s as [|b s IH]; cbn [String.append Str.mem].
  - now rewrite orb_false_r.
  - now rewrite IH, orb_assoc.
Qed.

(** the loop of [clean_spaces], from any state: [ss] already written, the
    current [word], and the words still to come *)
Lemma clean_fold (s ss word : string) (first : bool) :
  Str.mem " " word = false ->
  (let '(ss', word', first') :=
     fold_left Isa.clean_step (list_ascii_of_string s) (ss, word, first) in
   if negb (Str.is_empty word')
   then (if negb first' then ss' ++ " " else ss') ++ word'
   else ss')
  = match Notion.words (word ++ s) with
    | [] => ss
    | ws => (if first then ss else ss ++ " ") ++ Notion.unwords ws
    end.
Proof.
  revert ss word first.
  induction s as [|c s IH]; intros ss word first Hw.
  - cbn [list_ascii_of_string fold_left]. rewrite append_nil_r, words_last by exact Hw.
    destruct word; cbn [Str.is_empty negb Notion.unwords]; [reflexivity|].
    now destruct first.
  - cbn [list_ascii_of_string fold_left]. unfold Isa.clean_step at 2.
    destruct (Ascii.eqb_spec c " ") as [->|Hc].
    + rewrite words_word by exact Hw.
      destruct word as [|a word]; cbn [Str.is_empty negb].
      * exact (IH ss "" first eq_refl).
      * rewrite (IH _ "" false eq_refl). cbn [String.append].
        destruct (Notion.words s) as [|w ws] eqn:Hws.
        -- cbn [Notion.unwords]. now destruct first.
        -- change (Notion.unwords (String a word :: w :: ws))
             with (String a word ++ " " ++ Notion.unwords (w :: ws)).
           destruct first; cbn [negb]; now rewrite !append_assoc.
    + rewrite (IH ss (word ++ String c "") first).
      * now rewrite append_assoc.
      * rewrite mem_snoc, Hw. cbn [orb].
        destruct (Ascii.eqb_spec c " "); [contradiction|reflexivity].
Qed.

Lemma clean_spaces_eq (assembly : string) :
  Isa.clean_spaces assembly
  = (let '(ss, word, first) :=
       fold_left Isa.clean_step (list_ascii_of_string assembly) ("", "", true) in
     if negb (Str.is_empty word)
     then (if negb first then ss ++ " " else ss) ++ word
     else ss).
Proof. reflexivity. Qed.

Lemma clean_spaces_words (s : string) :
  Isa.clean_spaces s = Notion.unwords (Notion.words s).
Proof.
  rewrite clean_spaces_eq, (clean_fold s "" "" true eq_refl).
  cbn [String.append]. now destruct (Notion.words s).
Qed.

(** the pieces between spaces have no space *)
Lemma split_spaces_pieces (s : string) :
  Forall (fun w => Str.mem " " w = false) (Notion.split_spaces s).
Proof.
  induction s as [|c s IH]; cbn [Notion.split_spaces].
  - now repeat constructor.
  - destruct (Ascii.eqb c " ") eqn:Hc; [now constructor|].
    destruct (Notion.split_spaces s) as [|w ws].
    + repeat constructor. cbn [Str.mem]. now rewrite Hc.
    + inversion IH as [|? ? Hw Hws]; subst. constructor; [|exact Hws].
      cbn [Str.mem]. now rewrite Hc, Hw.
Qed.

Lemma words_pieces (s : string) :
  Forall (fun w => Str.mem " " w = false /\ w <> "") (Notion.words s).
Proof.
  unfold Notion.words. apply List.Forall_forall.
  intros w [Hin Hne]%List.filter_In. split.
  - pose proof (split_spaces_pieces s) as H.
    rewrite List.Forall_forall in H. now apply H.
  - intros ->. discriminate.
Qed.

Lemma unwords_cons (w : string) (ws : list string) :
  Notion.unwords (w :: ws)
  = match ws with [] => w | _ => w ++ " " ++ Notion.unwords ws end.
Proof. now destruct ws. Qed.

Lemma unwords_head (w : string) (ws : list string) :
  w <> "" -> exists c t, w = String c t /\ exists u, Notion.unwords (w :: ws) = String c u.
Proof.
  intros Hne. destruct w as [|c t]; [congruence|].
  exists c, t. split; [reflexivity|]. rewrite unwords_cons.
  destruct ws; cbn [String.append]; eauto.
Qed.

Lemma no_space_head (c : ascii) (t : string) :
  Str.mem " " (String c t) = false -> Ascii.eqb " " c = false.
Proof.
  cbn [Str.mem]. intros [H _]%orb_false_iff. now rewrite Ascii.eqb_sym.
Qed.

Lemma unwords_no_leading_space (ws : list string) :
  Forall (fun w => Str.mem " " w = false /\ w <> "") ws ->
  Str.starts_with " " (Notion.unwords ws) = false.
Proof.
  intros [|w ws' [Hw Hne] _]; [reflexivity|].
  destruct (unwords_head w ws' Hne) as (c & t & -> & u & ->).
  cbn [Str.starts_with]. now rewrite (no_space_head c t Hw).
Qed.

Lemma unwords_no_double_space (ws : list string) :
  Forall (fun w => Str.mem " " w = false /\ w <> "") ws ->
  Str.find "  " (Notion.unwords ws) = None.
Proof.
  induction 1 as [|w ws [Hw Hne] Hws IH]; [reflexivity|].
  rewrite unwords_cons. destruct ws as [|w' ws'].
  - apply (find_absent_char " "); [reflexivity|exact Hw].
  - rewrite find_skip by exact Hw.
    inversion Hws as [|? ? [Hw' Hne'] _]; subst.
    destruct (unwords_head w' ws' Hne') as (c & t & -> & u & Hu).
    rewrite Hu in *. change (" " ++ ?x) with (String " " x).
    rewrite (find_unfold "  " (String " " (String c u))), IH.
    cbn [Str.starts_with]. rewrite (no_space_head c t Hw').
    now rewrite andb_false_r.
Qed.

Lemma starts_with_append (p a b : string) :
  a <> "" -> String.length p = 1%nat ->
  Str.starts_with p (a ++ b) = Str.starts_with p a.
Proof.
  intros Ha Hp. destruct a as [|x a]; [congruence|].
  destruct p as [|c [|d p]]; try discriminate.
  cbn [String.append Str.starts_with]. now destruct (a ++ b), a.
Qed.

Lemma rev_nonempty (s : string) : s <> "" -> Str.rev s <> "".
Proof.
  intros Hne Hr. apply Hne. rewrite <- (rev_involutive s), Hr. reflexivity.
Qed.

Lemma mem_rev (c : ascii) (s : string) : Str.mem c (Str.rev s) = Str.mem c s.
Proof.
  induction s as [|a s IH]; [reflexivity|].
  change (String a s) with (String a "" ++ s) at 1.
  rewrite rev_append. change (Str.rev (String a "")) with (String a "").
  rewrite mem_snoc, IH. cbn [Str.mem]. apply orb_comm.
Qed.

Lemma no_space_no_start (w : string) :
  Str.mem " " w = false -> Str.starts_with " " w = false.
Proof.
  destruct w as [|c t]; [reflexivity|]. intros H%no_space_head.
  cbn [Str.starts_with]. now rewrite H.
Qed.

Lemma unwords_no_trailing_space (ws : list string) :
  Forall (fun w => Str.mem " " w = false /\ w <> "") ws ->
  Str.starts_with " " (Str.rev (Notion.unwords ws)) = false.
Proof.
  induction 1 as [|w ws [Hw Hne] Hws IH]; [reflexivity|].
  rewrite unwords_cons. destruct ws as [|w' ws'].
  - apply no_space_no_start. now rewrite mem_rev.
  - rewrite rev_append, starts_with_append; [|apply rev_nonempty|reflexivity].
    + change (" " ++ ?x) with (String " " "" ++ x).
      rewrite rev_append, starts_with_append; [exact IH| |reflexivity].
      apply rev_nonempty.
      inversion Hws as [|? ? [_ Hne'] _]; subst.
      destruct (unwords_head w' ws' Hne') as (c & t & _ & u & ->). discriminate.
    + discriminate.
Qed.

Lemma unwords_tidy (ws : list string) :
  Forall (fun w => Str.mem " " w = false /\ w <> "") ws ->
  Notion.tidy (Notion.unwords ws).
Proof.
  intros H. repeat split.
  - now apply unwords_no_leading_space.
  - now apply unwords_no_trailing_space.
  - now apply unwords_no_double_space.
Qed.

Lemma clean_spaces_tidy (s : string) : Notion.tidy (Isa.clean_spaces s).
Proof. rewrite clean_spaces_words. apply unwords_tidy, words_pieces. Qed.

(** X7: whatever the template, the opcode and the labels, the text that
    [build_assembly] returns neither starts nor ends with a space and has
    no two spaces in a row. *)
Theorem X7_build_assembly_is_tidy
  (asm_template : string) (opcode : Z) (bit_fields : list string) :
  let assembly := Isa.build_assembly asm_template opcode bit_fields in
  Str.starts_with " " assembly = false
  /\ Str.starts_with " " (Str.rev assembly) = false
  /\ Str.find "  " assembly = None.
Proof.
  cbv zeta. unfold Isa.build_assembly. rewrite render_as_passes.
  apply clean_spaces_tidy.
Qed.

Lemma unwords_split_spaces (s : string) :
  Notion.unwords (Notion.split_spaces s) = s.
Proof.
  induction s as [|c s IH]; [reflexivity|]. cbn [Notion.split_spaces].
  pose proof (split_spaces_nonnil s) as Hne.
  destruct (Ascii.eqb_spec c " ") as [->|_].
  - rewrite unwords_cons. destruct (Notion.split_spaces s); [congruence|].
    now rewrite IH.
  - destruct (Notion.split_spaces s) as [|w ws]; [congruence|].
    rewrite unwords_cons in *. destruct ws; cbn [String.append] in *; congruence.
Qed.

Lemma rev_cons (c : ascii) (s : string) :
  Str.rev (String c s) = Str.rev s ++ String c "".
Proof.
  change (String c s) with (String c "" ++ s). now rewrite rev_append.
Qed.

Lemma split_spaces_inner (s : string) :
  Str.find "  " s = None -> Str.starts_with " " (Str.rev s) = false ->
  Forall (fun w => w <> "") (List.tl (Notion.split_spaces s)).
Proof.
  induction s as [|c s IH]; [constructor|].
  rewrite (find_unfold "  " (String c s)), rev_cons.
  destruct (Str.starts_with "  " (String c s)) eqn:Hst; [discriminate|].
  destruct (Str.find "  " s) eqn:Hf; [discriminate|]. intros _ Hrev.
  assert (Htail : s <> "" -> Str.starts_with " " (Str.rev s) = false).
  { intros Hne. rewrite starts_with_append in Hrev;
      [exact Hrev|now apply rev_nonempty|reflexivity]. }
  cbn [Notion.split_spaces].
  destruct (Ascii.eqb_spec c " ") as [->|Hc].
  - cbn [List.tl]. destruct s as [|d s'].
    + discriminate Hrev.
    + specialize (IH eq_refl (Htail ltac:(discriminate))).
      cbn [Str.starts_with Ascii.eqb Bool.eqb andb] in Hst.
      cbn [Notion.split_spaces] in *.
      assert (Hd : Ascii.eqb d " " = false).
      { rewrite Ascii.eqb_sym. destruct s'; cbn [Str.starts_with] in Hst;
          now rewrite ?andb_true_r in Hst. }
      rewrite Hd in *.
      destruct (Notion.split_spaces s') as [|w ws];
        (constructor; [discriminate|exact IH]).
  - destruct s as [|d s'].
    + constructor.
    + specialize (IH eq_refl (Htail ltac:(discriminate))).
      destruct (Notion.split_spaces (String d s')) as [|w ws]; [constructor|].
      exact IH.
Qed.

Lemma tidy_words (s : string) :
  Notion.tidy s -> Notion.unwords (Notion.words s) = s.
Proof.
  intros (Hhead & Hlast & Hdouble).
  destruct s as [|c s]; [reflexivity|].
  rewrite <- (unwords_split_spaces (String c s)) at 2. f_equal.
  unfold Notion.words.
  pose proof (split_spaces_inner _ Hdouble Hlast) as Hin.
  cbn [Notion.split_spaces] in *.
  assert (Hc : Ascii.eqb c " " = false).
  { rewrite Ascii.eqb_sym. cbn [Str.starts_with] in Hhead.
    destruct s; now rewrite ?andb_true_r in Hhead. }
  rewrite Hc in *.
  assert (Hall : forall ws, Forall (fun w => w <> "") ws ->
                   List.filter (fun w => negb (Str.is_empty w)) ws = ws).
  { induction 1 as [|w ws Hw _ IH]; [reflexivity|].
    cbn [List.filter]. destruct w; [congruence|]. cbn. now rewrite IH. }
  destruct (Notion.split_spaces s) as [|w ws]; cbn [List.tl] in Hin.
  - reflexivity.
  - apply Hall. constructor; [discriminate|exact Hin].
Qed.

(** X8: the clean-up of spaces returns the words of its input (the
    maximal runs of characters other than the space) joined by single
    spaces; it leaves a text unchanged exactly when the text has no space
    at either end and no two spaces in a row, so cleaning twice is cleaning
    once. *)
Theorem X8_clean_spaces_normal_form (s : string) :
  Isa.clean_spaces s = Notion.unwords (Notion.words s)
  /\ (Isa.clean_spaces s = s <-> Notion.tidy s)
  /\ Isa.clean_spaces (Isa.clean_spaces s) = Isa.clean_spaces s.
Proof.
  split; [apply clean_spaces_words|]. split; [split|].
  - intros <-. apply clean_spaces_tidy.
  - intros H. rewrite clean_spaces_words. now apply tidy_words.
  - rewrite (clean_spaces_words (Isa.clean_spaces s)).
    apply tidy_words, clean_spaces_tidy.
Qed.

(** ** Templates without placeholders, immediates and the optional shift *)

Lemma render_passes_marked (o : Isa.operands) :
  forallb (fun p => Spec.absent_in_plain (fst p)) (Spec.render_passes o) = true.
Proof.
  unfold Spec.render_passes, Spec.register_passes, Spec.later_passes.
  rewrite !List.forallb_app.
  repeat (apply andb_true_iff; split); block_side.
Qed.

(** X9: a template without any of the characters [<], [{] and [}] is
    returned as it is, up to the clean-up of spaces, whatever the opcode
    and the labels of the pattern. *)
Theorem X9_plain_template_is_kept
  (asm_template : string) (opcode : Z) (bit_fields : list string) :
  Spec.plain asm_template = true ->
  Isa.build_assembly asm_template opcode bit_fields
  = Isa.clean_spaces asm_template.
Proof.
  intros Hplain. unfold Isa.build_assembly.
  rewrite render_as_passes. f_equal.
  apply block_plain; [exact Hplain|apply render_passes_marked].
Qed.

Lemma plain_template_is_kept_witness :
  Isa.build_assembly "NOP" 0xd503201f (Isa.bit_fields Sample.nop) = "NOP".
Proof.
  exact (X9_plain_template_is_kept "NOP" 0xd503201f (Isa.bit_fields Sample.nop)
           eq_refl).
Defined.

Lemma hex_char_plain (c : ascii) :
  Str.is_digit c || Str.in_range 97 102 c = true -> Spec.plain_char c = true.
Proof.
  intros H%hex_char_code. unfold Spec.plain_char.
  rewrite !(code_not_eqb c); [reflexivity|vm_compute Str.code at 2; lia..].
Qed.

Lemma hex_text_plain (v : Z) : Spec.plain ("0x" ++ hex_string v) = true.
Proof.
  rewrite plain_append. cbn [andb].
  change (Spec.plain "0x" && ?b) with b.
  exact (all_impl _ _ _ hex_char_plain (hex_string_digits v)).
Qed.

Lemma hash_hex_text_plain (v : Z) : Spec.plain ("#0x" ++ hex_string v) = true.
Proof.
  change ("#0x" ++ ?x) with ("#" ++ ("0x" ++ x)).
  rewrite plain_append, hex_text_plain. reflexivity.
Qed.

(** a pattern found once, after text without its first character, and not
    found any more once replaced *)
Lemma replace_all_once (h : ascii) (t r pre post : string) :
  Str.mem h pre = false ->
  Str.find (String h t) (pre ++ r ++ post) = None ->
  Str.replace_all (String h t) r (pre ++ String h t ++ post) = pre ++ r ++ post.
Proof.
  intros Hpre Hgone. unfold Str.replace_all. cbn [Str.replace_loop].
  rewrite find_skip by exact Hpre.
  rewrite find_here. cbn [option_map].
  rewrite Nat.add_0_r, replace_middle.
  now apply replace_loop_absent.
Qed.

Lemma scan_here (pat r b : string) :
  pat <> "" -> Spec.scan pat r 0 (pat ++ b) = r ++ Spec.scan pat r 0 b.
Proof.
  intros Hne. pose proof (starts_with_self pat b) as Hst.
  destruct (pat ++ b) as [|c s] eqn:Hs; [now destruct pat|].
  cbn [Spec.scan]. rewrite Hst. f_equal.
  now apply (scan_after_head pat r c s b).
Qed.

Lemma plain_head (c : ascii) (s : string) (m : ascii) :
  Spec.plain (String c s) = true -> Spec.plain_char m = false ->
  Ascii.eqb m c = false.
Proof.
  unfold Spec.plain. cbn [Str.all]. intros [Hc _]%andb_true_iff Hm.
  destruct (Ascii.eqb_spec m c) as [->|]; [congruence|reflexivity].
Qed.

Lemma scan_cons (pat r : string) (c : ascii) (s : string) :
  Spec.scan pat r 0 (String c s)
  = if Str.starts_with pat (String c s)
    then r ++ Spec.scan pat r (String.length pat - 1) s
    else String c (Spec.scan pat r 0 s).
Proof. reflexivity. Qed.

Lemma starts_with_cons (h c : ascii) (p s : string) :
  Str.starts_with (String h p) (String c s)
  = Ascii.eqb h c && Str.starts_with p s.
Proof. reflexivity. Qed.

(** a pattern whose second character is marked does not start in plain
    text, unless the text that follows starts with that character *)
Lemma scan_second_marked (h m : ascii) (t r pre x : string) :
  Spec.plain_char m = false -> Spec.plain pre = true ->
  Str.starts_with (String m "") x = false ->
  Spec.scan (String h (String m t)) r 0 (pre ++ x)
  = pre ++ Spec.scan (String h (String m t)) r 0 x.
Proof.
  intros Hm Hpre Hx. induction pre as [|c pre IH]; [reflexivity|].
  cbn [String.append Spec.scan]. rewrite starts_with_cons.
  assert (Hnext : Str.starts_with (String m t) (pre ++ x) = false).
  { destruct pre as [|d pre]; cbn [String.append].
    - destruct x as [|d x]; [reflexivity|]. cbn [Str.starts_with] in *.
      destruct (Ascii.eqb m d); [now destruct x|reflexivity].
    - cbn [Str.starts_with].
      unfold Spec.plain in Hpre. cbn [Str.all] in Hpre.
      apply andb_true_iff in Hpre as [_ Hpre].
      now rewrite (plain_head d pre m Hpre Hm). }
  rewrite Hnext, andb_false_r. f_equal. apply IH.
  unfold Spec.plain in *. cbn [Str.all] in Hpre.
  now apply andb_true_iff in Hpre as [_ Hpre].
Qed.

Lemma no_overlap_hash_imm (v : Z) :
  Spec.no_overlap "#<imm>" ("#0x" ++ hex_string v).
Proof.
  repeat split; [discriminate|].
  cbn [String.append Spec.never_at Spec.mismatch Ascii.eqb Bool.eqb negb orb andb].
  apply never_at_head, hex_without. reflexivity.
Qed.

Lemma find_hash_imm_plain (s : string) :
  Spec.plain s = true -> Str.find "#<imm>" s = None.
Proof. intros H. now apply find_plain. Qed.

(** the first pass of the immediate block on [#<imm>] between plain text *)
Lemma replace_hash_imm (v : Z) (pre post : string) :
  Spec.plain pre = true -> Spec.plain post = true ->
  Str.replace_all "#<imm>" ("#0x" ++ hex_string v) (pre ++ "#<imm>" ++ post)
  = pre ++ ("#0x" ++ hex_string v) ++ post.
Proof.
  intros Hpre Hpost.
  rewrite (proj1 (replace_all_scan _ _ _ (no_overlap_hash_imm v))).
  unfold Spec.substitute.
  rewrite scan_second_marked; [|reflexivity|assumption|reflexivity].
  rewrite scan_here by discriminate.
  fold (Spec.substitute "#<imm>" ("#0x" ++ hex_string v) post).
  now rewrite substitute_absent by now apply find_hash_imm_plain.
Qed.

(** the first pass of the immediate block on [<imm>] between plain text:
    the placeholder is left for the second pass, unless a [#] stands right
    before it *)
Lemma replace_hash_imm_bare (v : Z) (pre post : string) :
  Spec.plain pre = true -> Spec.plain post = true ->
  let s := Str.replace_all "#<imm>" ("#0x" ++ hex_string v)
             (pre ++ "<imm>" ++ post) in
  s = pre ++ "<imm>" ++ post \/ s = pre ++ ("0x" ++ hex_string v) ++ post.
Proof.
  intros Hpre Hpost. cbv zeta.
  rewrite (proj1 (replace_all_scan _ _ _ (no_overlap_hash_imm v))).
  unfold Spec.substitute.
  induction pre as [|c pre IH].
  - left. apply (substitute_absent "#<imm>").
    apply (find_never_at "#<imm>" "<imm>" post);
      [reflexivity|now apply find_hash_imm_plain].
  - assert (Hpre' : Spec.plain pre = true).
    { unfold Spec.plain in *. cbn [Str.all] in Hpre.
      now apply andb_true_iff in Hpre as [_ Hpre]. }
    change (String c pre ++ ?x) with (String c (pre ++ x)).
    rewrite scan_cons.
    destruct (Str.starts_with "#<imm>" (String c (pre ++ "<imm>" ++ post)))
      eqn:Hst.
    + right. rewrite starts_with_cons in Hst.
      apply andb_true_iff in Hst as [Hc Hst]. apply Ascii.eqb_eq in Hc as <-.
      destruct pre as [|d pre].
      * rewrite (scan_after_head "#<imm>" ("#0x" ++ hex_string v) "#"
                   ("" ++ "<imm>" ++ post) post) by (discriminate || reflexivity).
        fold (Spec.substitute "#<imm>" ("#0x" ++ hex_string v) post).
        rewrite substitute_absent by now apply find_hash_imm_plain.
        reflexivity.
      * cbn [String.append] in Hst. rewrite starts_with_cons in Hst.
        rewrite (plain_head d pre "<" Hpre' eq_refl) in Hst. discriminate.
    + destruct (IH Hpre') as [-> | ->]; [now left|now right].
Qed.

Lemma hex_string_plain (v : Z) : Spec.plain (hex_string v) = true.
Proof. exact (all_impl _ _ _ hex_char_plain (hex_string_digits v)). Qed.

Ltac plain_hex_side :=
  rewrite !plain_append, ?hex_string_plain;
  repeat match goal with H : Spec.plain _ = true |- _ => rewrite H end;
  reflexivity.

Ltac hex_side := first [ plain_hex_side | block_side ].

Ltac flatten_passes :=
  rewrite render_as_passes; f_equal;
  unfold Spec.render_passes, Spec.register_passes, Spec.later_passes;
  repeat match goal with H : _ !! _ = _ |- _ => rewrite H end;
  cbn [Spec.when_extracted];
  rewrite !passes_app.

Ltac rest_plain text :=
  repeat match goal with
         | |- context [Spec.passes ?l (?a ++ text ++ ?b)] =>
             rewrite (block_plain l (a ++ text ++ b)) by hex_side
         end.

Lemma imm_passes_eq (v : Z) (s : string) :
  Spec.passes (Spec.imm_passes v) s
  = Str.replace_all "<imm>" ("0x" ++ hex_string v)
      (Str.replace_all "#<imm>" ("#0x" ++ hex_string v) s).
Proof. reflexivity. Qed.

Section Immediates.

Variable o : Isa.operands.
Variables pre post : string.
Hypothesis Hpre : Spec.plain pre = true.
Hypothesis Hpost : Spec.plain post = true.

Lemma offs_placeholders (n : Z) :
  Isa.imm_values o !! "offs" = Some n ->
  Isa.render (pre ++ "<offs>" ++ post) o
  = Isa.clean_spaces (pre ++ ("0x" ++ hex_string n) ++ post)
  /\ Isa.render (pre ++ "<simm>" ++ post) o
     = Isa.clean_spaces (pre ++ ("0x" ++ hex_string n) ++ post).
Proof.
  intros Hoffs. split; flatten_passes.
  - rewrite !block_miss by block_side.
    rewrite (block_hit_nth _ 0%nat "<offs>" ("0x" ++ hex_string n)) by hex_side.
    rest_plain ("0x" ++ hex_string n). reflexivity.
  - rewrite !block_miss by block_side.
    rewrite (block_hit_nth _ 1%nat "<simm>" ("0x" ++ hex_string n)) by hex_side.
    rest_plain ("0x" ++ hex_string n). reflexivity.
Qed.

Lemma imm_placeholders (n : Z) :
  Isa.imm_values o !! "imm" = Some n ->
  Isa.render (pre ++ "#<imm>" ++ post) o
  = Isa.clean_spaces (pre ++ ("#0x" ++ hex_string n) ++ post)
  /\ Isa.render (pre ++ "<imm>" ++ post) o
     = Isa.clean_spaces (pre ++ ("0x" ++ hex_string n) ++ post).
Proof.
  intros Himm. split; flatten_passes.
  - rewrite !block_miss by block_side.
    rewrite imm_passes_eq, replace_hash_imm by assumption.
    rewrite (replace_all_absent "<imm>")
      by (apply find_plain; [reflexivity|plain_hex_side]).
    rest_plain ("#0x" ++ hex_string n). reflexivity.
  - rewrite !block_miss by block_side.
    rewrite imm_passes_eq.
    destruct (replace_hash_imm_bare n pre post Hpre Hpost) as [-> | ->].
    + rewrite replace_all_around by (assumption || apply hex_text_plain || reflexivity).
      rest_plain ("0x" ++ hex_string n). reflexivity.
    + rewrite (replace_all_absent "<imm>")
        by (apply find_plain; [reflexivity|plain_hex_side]).
      rest_plain ("0x" ++ hex_string n). reflexivity.
Qed.

End Immediates.

(** X10: in a template made of one immediate placeholder between text
    without [<], [{] and [}], the placeholders [#<imm>] and [<imm>] are
    rendered as the extracted immediate in lower-case hexadecimal after
    [0x] (with the [#] kept), and [<offs>] and [<simm>] as the extracted
    offset in the same way. *)
Theorem X10_immediate_placeholders
  (opcode : Z) (bit_fields : list string) (pre post : string) (v : Z) :
  Spec.plain pre = true -> Spec.plain post = true ->
  let o := Isa.extract_operands opcode bit_fields in
  let shows (placeholder text : string) :=
    Isa.build_assembly (pre ++ placeholder ++ post) opcode bit_fields
    = Isa.clean_spaces (pre ++ text ++ post) in
  (Isa.imm_values o !! "imm" = Some v ->
   shows "#<imm>" ("#0x" ++ hex_string v) /\ shows "<imm>" ("0x" ++ hex_string v))
  /\ (Isa.imm_values o !! "offs" = Some v ->
      shows "<offs>" ("0x" ++ hex_string v)
      /\ shows "<simm>" ("0x" ++ hex_string v)).
Proof.
  intros Hpre Hpost o shows. unfold shows, Isa.build_assembly. fold o.
  split; intros H.
  - exact (imm_placeholders o pre post Hpre Hpost v H).
  - exact (offs_placeholders o pre post Hpre Hpost v H).
Qed.

Lemma immediate_placeholders_witness :
  Isa.build_assembly "HINT #<imm>" 0xd503203f (Isa.bit_fields Sample.hint)
  = "HINT #0x1".
Proof.
  assert (Himm : Isa.imm_values
                   (Isa.extract_operands 0xd503203f (Isa.bit_fields Sample.hint))
                   !! "imm" = Some 1%Z) by (vm_compute; reflexivity).
  exact (proj1 (proj1 (X10_immediate_placeholders 0xd503203f
                         (Isa.bit_fields Sample.hint) "HINT " "" 1%Z
                         eq_refl eq_refl) Himm)).
Defined.

(** *** the optional shift *)

Lemma mem_append (c : ascii) (a b : string) :
  Str.mem c (a ++ b) = Str.mem c a || Str.mem c b.
Proof.
  induction a as [|x a IH]; cbn [String.append Str.mem]; [reflexivity|].
  now rewrite IH, orb_assoc.
Qed.

Ltac mem_side :=
  rewrite ?mem_append;
  repeat match goal with
         | H : Spec.plain ?s = true |- context [Str.mem ?c ?s] =>
             rewrite (plain_mem c s eq_refl H)
         end;
  reflexivity.

(** a non-zero [sh]: the three loops on the optional shift between plain
    text *)
Lemma shift_passes_set (pre post : string) :
  Spec.plain pre = true -> Spec.plain post = true ->
  Spec.passes [("<shift>", "lsl #12"); ("{, ", ", "); ("}", "")]
    (pre ++ "{, <shift>}" ++ post)
  = pre ++ ", lsl #12" ++ post.
Proof.
  intros Hpre Hpost. unfold Spec.passes. cbn [fold_left fst snd].
  replace (pre ++ "{, <shift>}" ++ post)
    with ((pre ++ "{, ") ++ "<shift>" ++ ("}" ++ post))
    by now rewrite append_assoc.
  rewrite (replace_all_once "<" "shift>" "lsl #12" (pre ++ "{, ") ("}" ++ post));
    [|mem_side|apply (find_absent_char "<"); [reflexivity|mem_side]].
  replace ((pre ++ "{, ") ++ "lsl #12" ++ "}" ++ post)
    with (pre ++ "{, " ++ ("lsl #12}" ++ post))
    by now rewrite append_assoc.
  rewrite (replace_all_once "{" ", " ", " pre ("lsl #12}" ++ post));
    [|mem_side|apply (find_absent_char "{"); [reflexivity|mem_side]].
  replace (pre ++ ", " ++ "lsl #12}" ++ post)
    with ((pre ++ ", lsl #12") ++ "}" ++ post)
    by now rewrite append_assoc.
  rewrite (replace_all_once "}" "" "" (pre ++ ", lsl #12") post);
    [|mem_side|apply (find_absent_char "}"); [reflexivity|mem_side]].
  now rewrite append_assoc.
Qed.

Lemma categorize_shift (name : string) (v : Z) (o : Isa.operands) :
  Notion.shift_slot (Isa.categorize name v o)
  = if String.eqb name "sh" then Some v else Notion.shift_slot o.
Proof.
  destruct (String.eqb_spec name "sh") as [->|Hne]; [reflexivity|].
  unfold Isa.categorize.
  repeat match goal with
         | |- context [String.eqb name ?k] =>
             destruct (String.eqb_spec name k) as [?|?]
         | |- context [if ?b then _ else _] => destruct b
         end; try reflexivity; congruence.
Qed.

Lemma combine_crm_op2_shift (o : Isa.operands) :
  Notion.shift_slot (Isa.combine_crm_op2 o) = Notion.shift_slot o.
Proof. unfold Isa.combine_crm_op2. now destruct (_ && _). Qed.

Section OptionalShift.

Variable o : Isa.operands.
Variables pre post : string.
Hypothesis Hpre : Spec.plain pre = true.
Hypothesis Hpost : Spec.plain post = true.

Lemma shift_rendering :
  Isa.render (pre ++ "{, <shift>}" ++ post) o
  = Isa.clean_spaces
      (pre ++ match Notion.shift_slot o with
              | Some n => if (n =? 0)%Z then "" else ", lsl #12"
              | None => ""
              end ++ post).
Proof.
  unfold Notion.shift_slot. flatten_passes.
  rewrite !block_miss by block_side.
  destruct (Isa.has_shift o).
  - unfold Spec.shift_passes. destruct (Isa.shift_value o =? 0)%Z.
    + rewrite (block_hit_nth _ 0%nat "{, <shift>}" "") by block_side.
      rest_plain "". reflexivity.
    + rewrite shift_passes_set by assumption.
      rest_plain ", lsl #12". reflexivity.
  - change (Spec.passes [] ?s) with s.
    rewrite (block_hit_nth _ 0%nat "{, <shift>}" "") by block_side.
    reflexivity.
Qed.

End OptionalShift.

(** X11: the optional shift [{, <shift>}] between text without [<], [{]
    and [}] is removed when the pattern has no [sh] field or the field is
    zero, and rendered as [, lsl #12] when the field is not zero. For a
    pattern of 32 labels the field is there exactly when the label [sh]
    occurs, with the value of its bits. *)
Theorem X11_optional_shift_rendering
  (opcode : Z) (bit_fields : list string) (pre post : string) :
  Spec.plain pre = true -> Spec.plain post = true ->
  let o := Isa.extract_operands opcode bit_fields in
  Isa.build_assembly (pre ++ "{, <shift>}" ++ post) opcode bit_fields
  = Isa.clean_spaces
      (pre ++ match Notion.shift_slot o with
              | Some n => if (n =? 0)%Z then "" else ", lsl #12"
              | None => ""
              end ++ post)
  /\ (length bit_fields = 32%nat ->
      (In "sh" bit_fields ->
       Notion.shift_slot o
       = Some (Isa.field_value opcode (Spec.label_positions "sh" bit_fields)))
      /\ (~ In "sh" bit_fields -> Notion.shift_slot o = None)).
Proof.
  intros Hpre Hpost o. split.
  - unfold Isa.build_assembly. fold o. now apply shift_rendering.
  - intros Hlen. unfold o.
    rewrite extract_operands_eq, combine_crm_op2_shift.
    exact (extracted_slot bit_fields opcode Hlen Notion.shift_slot "sh"
             eq_refl eq_refl categorize_shift).
Qed.

Lemma optional_shift_rendering_witness :
  Isa.build_assembly "ADD x0, x1, #1{, <shift>}" 0x91400420
    (Isa.bit_fields Sample.add_imm)
  = "ADD x0, x1, #1, lsl #12".
Proof.
  exact (proj1 (X11_optional_shift_rendering 0x91400420
                  (Isa.bit_fields Sample.add_imm) "ADD x0, x1, #1" ""
                  eq_refl eq_refl)).
Defined.

(** *** several labels that start with imm *)

Lemma extract_imm_last (opcode : Z) (m : Isa.bits_map) (o : Isa.operands)
  (k : string) (vs : list Z) :
  Spec.ascending m -> In (k, vs) m -> Isa.find_at_0 "imm" k = true ->
  (forall k' vs', In (k', vs') m -> Isa.find_at_0 "imm" k' = true ->
                  String.compare k' k <> Gt) ->
  Isa.imm_values (fold_left (Isa.extract_step opcode) m o) !! "imm"
  = Some (Isa.field_value opcode vs).
Proof.
  revert o. induction m as [|[k0 v0] m IH]; intros o Hasc Hin Hk Hmax;
    [destruct Hin|].
  cbn [fold_left]. destruct Hasc as [Habove Hasc].
  destruct Hin as [[= -> ->]|Hin].
  - destruct (extract_imm opcode m (Isa.extract_step opcode o (k, vs)))
      as [[_ ->]|(k' & vs' & Hin' & Hk' & _)].
    + unfold Isa.extract_step. cbn [fst snd]. now rewrite categorize_imm, Hk.
    + exfalso. apply (Hmax k' vs'); [now right|exact Hk'|].
      rewrite List.Forall_forall in Habove. specialize (Habove _ Hin').
      cbn [fst] in Habove. now rewrite String.compare_antisym, Habove.
  - apply IH; try assumption.
    intros k' vs' Hin' Hk'. apply (Hmax k' vs'); [now right|exact Hk'].
Qed.

(** X12: when several labels of a pattern start with imm, the immediate
    the renderer receives is the value of the one that is last in string
    order, because the fields are visited in ascending order of their
    labels and each one overwrites the immediate. *)
Theorem X12_last_imm_label_wins
  (opcode : Z) (bit_fields : list string) (label : string) :
  length bit_fields = 32%nat ->
  In label bit_fields -> Isa.find_at_0 "imm" label = true ->
  (forall label', In label' bit_fields -> Isa.find_at_0 "imm" label' = true ->
                  String.compare label' label <> Gt) ->
  Isa.imm_values (Isa.extract_operands opcode bit_fields) !! "imm"
  = Some (Isa.field_value opcode (Spec.label_positions label bit_fields)).
Proof.
  intros Hlen Hin Himm Hmax.
  rewrite extract_operands_eq, combine_crm_op2_imm, extract_values_eq.
  pose proof (not_imm_literal label Himm) as Hlit.
  destruct (collect_field_bits_lookup bit_fields label Hlit) as [Hasc Hlook].
  pose proof (label_positions_in bit_fields label Hlen Hin) as Hne.
  assert (Hentry : In (label, Spec.label_positions label bit_fields)
                     (Isa.collect_field_bits bit_fields)).
  { apply lookup_bits_in. rewrite Hlook.
    now destruct (Spec.label_positions label bit_fields). }
  rewrite (extract_imm_last opcode _ _ label _ Hasc Hentry Himm); [reflexivity|].
  intros k' vs' Hin' Hk'.
  apply (collect_field_bits_keys bit_fields k' vs' Hlen) in Hin' as (_ & Hin' & _).
  now apply Hmax.
Qed.

Lemma last_imm_label_wins_witness :
  Isa.imm_values
    (Isa.extract_operands 0xd3410c20 (Isa.bit_fields Sample.bitfield)) !! "imm"
  = Some 3%Z.
Proof.
  rewrite (X12_last_imm_label_wins 0xd3410c20 (Isa.bit_fields Sample.bitfield) "imms").
  - vm_compute. reflexivity.
  - reflexivity.
  - cbn. tauto.
  - reflexivity.
  - intros label' Hin. cbn in Hin.
    repeat (destruct Hin as [<-|Hin]; [vm_compute; intros; discriminate|]).
    destruct Hin.
Defined.

(** *** the range of a register index *)

(** X13: an extracted register index comes from a label that occurs in
    the pattern, it is the value of that label's bits, and it is below two
    to the power of the number of positions that carry the label: with five
    positions it is at most 31. *)
Theorem X13_register_index_is_bounded
  (opcode : Z) (bit_fields : list string) (label : string) (v : Z) :
  length bit_fields = 32%nat ->
  In label ["Rd"; "Rn"; "Rm"; "Rt"] ->
  Isa.reg_values (Isa.extract_operands opcode bit_fields) !! label = Some v ->
  let bits := Spec.label_positions label bit_fields in
  In label bit_fields
  /\ v = Spec.weighted_value (List.map (fun p => Z.b2z (Z.testbit opcode p)) bits)
  /\ (0 <= v < 2 ^ Z.of_nat (length bits))%Z
  /\ (length bits = 5%nat -> (0 <= v <= 31)%Z).
Proof.
  intros Hlen Hreg Hv bits.
  assert (Hlit : Isa.is_literal label = false).
  { cbn in Hreg. destruct Hreg as [<-|[<-|[<-|[<-|[]]]]]; reflexivity. }
  assert (Hcomb : forall o, Isa.reg_values (Isa.combine_crm_op2 o)
                            = Isa.reg_values o).
  { intros o. unfold Isa.combine_crm_op2. now destruct (_ && _). }
  rewrite extract_operands_eq, Hcomb in Hv.
  destruct (extracted_slot bit_fields opcode Hlen
              (fun o => Isa.reg_values o !! label) label Hlit
              (lookup_empty label)
              (fun name value o => categorize_reg label name value o Hreg))
    as [Hsome Hnone].
  destruct (in_dec string_dec label bit_fields) as [Hin|Hnot];
    [|rewrite (Hnone Hnot) in Hv; discriminate].
  rewrite (Hsome Hin) in Hv. injection Hv as <-. fold bits.
  assert (Hw : Isa.field_value opcode bits
               = Spec.weighted_value (List.map (Isa.opcode_bit opcode) bits))
    by (apply field_value_weighted, label_positions_length).
  pose proof (weighted_value_bounds opcode bits) as Hb. rewrite <- Hw in Hb.
  split; [exact Hin|]. split; [|split; [exact Hb|]].
  - rewrite Hw. f_equal. apply List.map_ext_in. intros p Hp.
    apply opcode_bit_testbit. now apply label_positions_range in Hp.
  - intros H5. rewrite H5 in Hb. change (2 ^ Z.of_nat 5)%Z with 32%Z in Hb. lia.
Qed.

Lemma register_index_is_bounded_witness :
  In "Rn" (Isa.bit_fields Sample.add_imm)
  /\ (0 <= 31
      < 2 ^ Z.of_nat (length (Spec.label_positions "Rn"
                                (Isa.bit_fields Sample.add_imm))))%Z.
Proof.
  assert (Hv : Isa.reg_values
                 (Isa.extract_operands 0x910083e0 (Isa.bit_fields Sample.add_imm))
                 !! "Rn" = Some 31%Z) by (vm_compute; reflexivity).
  assert (Hreg : In "Rn" ["Rd"; "Rn"; "Rm"; "Rt"]) by (cbn; tauto).
  pose proof (X13_register_index_is_bounded 0x910083e0
                (Isa.bit_fields Sample.add_imm) "Rn" 31 eq_refl Hreg Hv)
    as (H1 & _ & H3 & _).
  exact (conj H1 H3).
Defined.

(** ** Register queries: white space around the query *)

Lemma skip_spaces_blank (ws : string) :
  Notion.blank ws = true -> skip_spaces ws = "".
Proof.
  unfold Notion.blank. induction ws as [|c ws IH]; cbn [Str.all skip_spaces].
  - reflexivity.
  - intros [-> Hws]%andb_true_iff. now apply IH.
Qed.

Lemma skip_spaces_append (a b : string) :
  skip_spaces (a ++ b)
  = if Notion.blank a then skip_spaces b else skip_spaces a ++ b.
Proof.
  unfold Notion.blank.
  induction a as [|c a IH]; cbn [String.append Str.all skip_spaces].
  - reflexivity.
  - destruct (Str.is_space c); cbn [andb]; [exact IH|reflexivity].
Qed.

Lemma skip_spaces_stop (s : string) : stops Str.is_space (skip_spaces s).
Proof.
  induction s as [|c s IH]; cbn [skip_spaces]; [exact I|].
  destruct (Str.is_space c) eqn:Hc; [exact IH|exact Hc].
Qed.

Lemma skip_spaces_suffix (s : string) :
  exists ws, Notion.blank ws = true /\ s = ws ++ skip_spaces s.
Proof.
  unfold Notion.blank. induction s as [|c s IH]; cbn [skip_spaces].
  - now exists "".
  - destruct (Str.is_space c) eqn:Hc.
    + destruct IH as (ws & Hws & Hs). exists (String c ws). cbn [Str.all String.append].
      rewrite Hc, Hws. split; [reflexivity|]. now rewrite <- Hs.
    + now exists "".
Qed.

Lemma blank_rev (ws : string) : Notion.blank (Str.rev ws) = Notion.blank ws.
Proof. apply all_rev. Qed.

Lemma trim_blank_around (ws1 q ws2 : string) :
  Notion.blank ws1 = true -> Notion.blank ws2 = true ->
  Reg.trim (ws1 ++ q ++ ws2) = Reg.trim q.
Proof.
  intros H1 H2. unfold Reg.trim.
  rewrite skip_spaces_append, H1, skip_spaces_append.
  destruct (Notion.blank q) eqn:Hq.
  - now rewrite (skip_spaces_blank ws2 H2), (skip_spaces_blank q Hq).
  - rewrite rev_append, skip_spaces_append, blank_rev, H2. reflexivity.
Qed.

(** a query is its trimmed form between white space *)
Lemma trim_decompose (q : string) :
  exists ws1 ws2,
    Notion.blank ws1 = true /\ Notion.blank ws2 = true
    /\ q = ws1 ++ Reg.trim q ++ ws2.
Proof.
  unfold Reg.trim.
  destruct (skip_spaces_suffix q) as (ws1 & H1 & Hq).
  destruct (skip_spaces_suffix (Str.rev (skip_spaces q))) as (ws & Hws & Hr).
  exists ws1, (Str.rev ws). repeat split; [exact H1|now rewrite blank_rev|].
  rewrite <- rev_append, <- Hr, rev_involutive. exact Hq.
Qed.

Lemma trim_idempotent (q : string) : Reg.trim (Reg.trim q) = Reg.trim q.
Proof.
  destruct (trim_decompose q) as (ws1 & ws2 & H1 & H2 & Hq).
  transitivity (Reg.trim (ws1 ++ Reg.trim q ++ ws2)).
  - symmetry. now apply trim_blank_around.
  - now rewrite <- Hq.
Qed.

Section Trimmed.

Import Reg.

Variable REGISTER_DATABASE : gmap string RegisterInfo.
Variable DEFINITION_TO_FIELDS : gmap string (list (string * string)).

Abbreviation run := (run_register_query REGISTER_DATABASE DEFINITION_TO_FIELDS).

(** the run reads the query through its trimmed form; only the
    invalid-format diagnostic shows the query as it was given *)
Lemma run_reads_trimmed (q1 q2 : string) (json_out : bool) :
  trim q1 = trim q2 ->
  run q1 json_out = run q2 json_out
  \/ (run q1 json_out = invalid_query q1 /\ run q2 json_out = invalid_query q2).
Proof.
  intros H. unfold run_register_query. rewrite H.
  destruct (allowed_def (trim q2)); [now left|].
  destruct (dot_bracket (trim q2)) as [[[[reg field] d1] d2]|]; [now left|].
  destruct (dot_only (trim q2)) as [[reg field]|]; [now left|].
  destruct (bracket (trim q2)) as [[reg [[d1 d2]|]]|]; [now left|now left|].
  now right.
Qed.

End Trimmed.

(** X14: white space before and after a register query does not change
    the run; only the invalid-format diagnostic shows the query as it was
    given, white space included. *)
Theorem X14_white_space_around_query
  (REGISTER_DATABASE : gmap string Reg.RegisterInfo)
  (DEFINITION_TO_FIELDS : gmap string (list (string * string)))
  (ws1 q ws2 : string) (json_out : bool) :
  Notion.blank ws1 = true -> Notion.blank ws2 = true ->
  let run := Reg.run_register_query REGISTER_DATABASE DEFINITION_TO_FIELDS in
  run (ws1 ++ q ++ ws2) json_out = run q json_out
  \/ (run (ws1 ++ q ++ ws2) json_out = Reg.invalid_query (ws1 ++ q ++ ws2)
      /\ run q json_out = Reg.invalid_query q).
Proof.
  intros H1 H2 run. apply run_reads_trimmed. now apply trim_blank_around.
Qed.

Lemma white_space_around_query_witness :
  Reg.run_register_query Sample.REGISTER_DATABASE Sample.DEFINITION_TO_FIELDS
    "  HCR_EL2.VM " false
  = Reg.run_register_query Sample.REGISTER_DATABASE Sample.DEFINITION_TO_FIELDS
      "HCR_EL2.VM" false.
Proof.
  destruct (X14_white_space_around_query Sample.REGISTER_DATABASE
              Sample.DEFINITION_TO_FIELDS "  " "HCR_EL2.VM" " " false
              eq_refl eq_refl) as [H|[H _]].
  - exact H.
  - vm_compute in H. discriminate H.
Defined.

(** ** Register queries: the forms of the grammar *)

Lemma is_empty_false (s : string) : Str.is_empty s = false -> s <> "".
Proof. now destruct s. Qed.

Lemma match_dot_sound (q reg field rest : string) :
  Reg.match_dot q = Some (reg, field, rest) ->
  q = reg ++ "." ++ field ++ rest
  /\ Spec.reg_token reg /\ Spec.field_token field.
Proof.
  unfold Reg.match_dot.
  destruct (Str.span Reg.is_reg_char q) as [r s1] eqn:S1.
  apply span_spec in S1 as [-> Hr].
  destruct (Str.is_empty r) eqn:Er; [discriminate|].
  destruct (Reg.expect "." s1) as [s2|] eqn:E; [|discriminate].
  apply expect_spec in E as ->.
  destruct (Str.span Reg.is_field_char s2) as [f s3] eqn:S2.
  apply span_spec in S2 as [-> Hf].
  destruct (Str.is_empty f) eqn:Ef; [discriminate|].
  intros [= <- <- <-]. repeat split; auto using is_empty_false.
Qed.

Lemma match_index_sound (s d1 : string) (d2 : option string) :
  Reg.match_index s = Some (d1, d2) ->
  s = Spec.index_text d1 d2 /\ Spec.digits d1 /\ Notion.digits_opt d2.
Proof.
  unfold Reg.match_index, Spec.index_text.
  destruct (Reg.expect "[" s) as [s1|] eqn:E1; [|discriminate].
  apply expect_spec in E1 as ->.
  destruct (Reg.digits1 s1) as [[e1 s2]|] eqn:D1; [|discriminate].
  apply digits1_spec in D1 as (-> & Hd1 & Nd1).
  destruct (Reg.expect "]" s2) as [t|] eqn:E2.
  - apply expect_spec in E2 as ->. destruct t; [|discriminate].
    intros [= <- <-]. now repeat split.
  - destruct (Reg.expect ":" s2) as [s3|] eqn:E3; [|discriminate].
    apply expect_spec in E3 as ->.
    destruct (Reg.digits1 s3) as [[e2 s4]|] eqn:D2; [|discriminate].
    apply digits1_spec in D2 as (-> & Hd2 & Nd2).
    destruct (Reg.expect "]" s4) as [t|] eqn:E4; [|discriminate].
    apply expect_spec in E4 as ->. destruct t; [|discriminate].
    intros [= <- <-]. cbn [String.append]. now repeat split.
Qed.

Lemma dot_bracket_sound (q reg field d1 : string) (d2 : option string) :
  Reg.dot_bracket q = Some (reg, field, d1, d2) ->
  q = reg ++ "." ++ field ++ Spec.index_text d1 d2
  /\ Spec.reg_token reg /\ Spec.field_token field
  /\ Spec.digits d1 /\ Notion.digits_opt d2.
Proof.
  unfold Reg.dot_bracket.
  destruct (Reg.match_dot q) as [[[r f] rest]|] eqn:Hd; [|discriminate].
  apply match_dot_sound in Hd as (-> & Hr & Hf).
  destruct (Reg.match_index rest) as [[e1 e2]|] eqn:Hi; [|discriminate].
  apply match_index_sound in Hi as (-> & H1 & H2).
  intros [= <- <- <- <-]. auto 10.
Qed.

Lemma dot_only_sound (q reg field : string) :
  Reg.dot_only q = Some (reg, field) ->
  q = reg ++ "." ++ field /\ Spec.reg_token reg /\ Spec.field_token field.
Proof.
  unfold Reg.dot_only.
  destruct (Reg.match_dot q) as [[[r f] rest]|] eqn:Hd; [|discriminate].
  apply match_dot_sound in Hd as (-> & Hr & Hf).
  destruct rest; [|discriminate].
  intros [= <- <-]. rewrite append_nil_r. auto.
Qed.

Lemma bracket_sound (q reg : string) (idx : option (string * option string)) :
  Reg.bracket q = Some (reg, idx) ->
  Spec.reg_token reg
  /\ match idx with
     | Some (d1, d2) =>
         q = reg ++ Spec.index_text d1 d2 /\ Spec.digits d1 /\ Notion.digits_opt d2
     | None => q = reg
     end.
Proof.
  unfold Reg.bracket.
  destruct (Str.span Reg.is_reg_char q) as [r s1] eqn:S1.
  apply span_spec in S1 as [-> Hr].
  destruct (Str.is_empty r) eqn:Er; [discriminate|].
  apply is_empty_false in Er.
  destruct s1 as [|c s1].
  - intros [= <- <-]. rewrite append_nil_r. now repeat split.
  - destruct (Reg.match_index (String c s1)) as [[d1 d2]|] eqn:Hi; [|discriminate].
    apply match_index_sound in Hi as (Hs & H1 & H2).
    intros [= <- <-]. rewrite Hs.
    split; [now split|]. split; [reflexivity|]. now split.
Qed.

(** *** no branch of a well-formed query ends with the invalid-format
    diagnostic *)

Ltac not_invalid :=
  intros text; unfold Reg.invalid_query, Reg.register_not_found;
  repeat match goal with
         | |- context [match ?x with _ => _ end] => destruct x
         end;
  intros H; cbn [String.append] in H; discriminate H.

Lemma fielddef_known (defs : gmap string (list (string * string)))
  (def : string) (json_out : bool) :
  forall text, Reg.run_fielddef_query defs def json_out <> Reg.invalid_query text.
Proof. unfold Reg.run_fielddef_query. not_invalid. Qed.

Lemma query_field_range_known (db : gmap string Reg.RegisterInfo)
  (reg field : string) (start end_ : Z) (json_out : bool) :
  forall text,
    Reg.query_field_range db reg field start end_ json_out
    <> Reg.invalid_query text.
Proof. unfold Reg.query_field_range. not_invalid. Qed.

Lemma query_field_known (db : gmap string Reg.RegisterInfo)
  (reg field : string) (json_out : bool) :
  forall text, Reg.query_field db reg field json_out <> Reg.invalid_query text.
Proof. unfold Reg.query_field. not_invalid. Qed.

Lemma query_bit_range_known (db : gmap string Reg.RegisterInfo)
  (reg : string) (start end_ : Z) (json_out : bool) :
  forall text,
    Reg.query_bit_range db reg start end_ json_out <> Reg.invalid_query text.
Proof. unfold Reg.query_bit_range. not_invalid. Qed.

Lemma query_register_known (db : gmap string Reg.RegisterInfo)
  (reg : string) (json_out : bool) :
  forall text, Reg.query_register db reg json_out <> Reg.invalid_query text.
Proof. unfold Reg.query_register. not_invalid. Qed.

Lemma with_range_known (d1 : string) (d2 : option string)
  (k : Z -> Z -> outcome) :
  (forall start end_ text, k start end_ <> Reg.invalid_query text) ->
  forall text, Reg.with_range d1 d2 k <> Reg.invalid_query text.
Proof.
  intros Hk text. unfold Reg.with_range.
  destruct (stoi d1) as [e|high]; [discriminate|].
  destruct (match d2 with Some d => stoi d | None => inr high end) as [e|low];
    [discriminate|apply Hk].
Qed.

Section Forms.

Import Reg.

Variable REGISTER_DATABASE : gmap string RegisterInfo.
Variable DEFINITION_TO_FIELDS : gmap string (list (string * string)).

Abbreviation run := (run_register_query REGISTER_DATABASE DEFINITION_TO_FIELDS).

(** the form [REG.FIELD] reaches the field branch *)
Lemma run_field_form (reg field : string) (json_out : bool) :
  Spec.reg_token reg -> Spec.field_token field ->
  run (reg ++ "." ++ field) json_out
  = query_field REGISTER_DATABASE reg field json_out.
Proof.
  intros Hreg Hfield. unfold run_register_query.
  assert (Htrim : trim (reg ++ "." ++ field) = reg ++ "." ++ field).
  { apply trim_id; [now apply reg_token_stops|].
    rewrite !rev_append, append_assoc.
    destruct Hfield as [Hf Nf].
    apply reg_token_stops. split; [|now apply rev_nonempty].
    rewrite all_rev. exact (all_impl _ _ _ field_char_is_reg_char Hf). }
  rewrite Htrim.
  rewrite (not_allowed_def reg _ ".") by reflexivity.
  destruct Hreg as [Hr Nr], Hfield as [Hf Nf].
  assert (Hdot : match_dot (reg ++ "." ++ field) = Some (reg, field, "")).
  { rewrite <- (append_nil_r field) at 1.
    now apply match_dot_append. }
  unfold dot_bracket, dot_only. rewrite Hdot. reflexivity.
Qed.

Lemma keyword_trim (q : string) : allowed_def q = true -> trim q = q.
Proof.
  intros Hq. pose proof (allowed_def_chars q Hq) as Hall.
  apply trim_id.
  - apply (all_stops is_field_char); [|exact Hall].
    intros c Hc. now apply reg_char_not_space, field_char_is_reg_char.
  - apply (all_stops is_field_char); [|now rewrite all_rev].
    intros c Hc. now apply reg_char_not_space, field_char_is_reg_char.
Qed.

Lemma shape_known (q : string) (json_out : bool) :
  Notion.shape q -> forall text, run q json_out <> invalid_query text.
Proof.
  intros [q' Hkey|reg field d1 d2 Hr Hf H1 H2|reg field Hr Hf
          |reg d1 d2 Hr H1 H2|reg Hr].
  - unfold run_register_query. rewrite (keyword_trim q' Hkey), Hkey.
    apply fielddef_known.
  - rewrite run_field_range_form by assumption.
    apply with_range_known. intros. apply query_field_range_known.
  - rewrite run_field_form by assumption. apply query_field_known.
  - rewrite run_bit_range_form by assumption.
    apply with_range_known. intros. apply query_bit_range_known.
  - destruct (allowed_def reg) eqn:Hkey.
    + unfold run_register_query. rewrite (keyword_trim reg Hkey), Hkey.
      apply fielddef_known.
    + rewrite run_register_form by assumption. apply query_register_known.
Qed.

Lemma no_shape_invalid (query : string) (json_out : bool) :
  ~ Notion.shape (trim query) -> run query json_out = invalid_query query.
Proof.
  intros Hno. unfold run_register_query.
  destruct (allowed_def (trim query)) eqn:Hkey.
  { exfalso. apply Hno. now constructor. }
  destruct (dot_bracket (trim query)) as [[[[reg field] d1] d2]|] eqn:Hdb.
  { exfalso. apply Hno.
    apply dot_bracket_sound in Hdb as (-> & ? & ? & ? & ?). now constructor. }
  destruct (dot_only (trim query)) as [[reg field]|] eqn:Hdo.
  { exfalso. apply Hno.
    apply dot_only_sound in Hdo as (-> & ? & ?). now constructor. }
  destruct (bracket (trim query)) as [[reg idx]|] eqn:Hb; [|reflexivity].
  exfalso. apply Hno. apply bracket_sound in Hb as [Hr Hidx].
  destruct idx as [[d1 d2]|].
  - destruct Hidx as (-> & ? & ?). now constructor.
  - rewrite Hidx. now constructor.
Qed.

End Forms.

(** X15: a register query ends with the invalid-format diagnostic exactly
    when its trimmed text is neither a definition keyword nor of one of the
    forms REG, REG[i], REG[i:j], REG.FIELD, REG.FIELD[i], REG.FIELD[i:j],
    with REG made of A-Z, 0-9, underscore and angle brackets, FIELD of A-Z,
    0-9 and underscore, and i, j of decimal digits. *)
Theorem X15_invalid_format_iff_no_form
  (REGISTER_DATABASE : gmap string Reg.RegisterInfo)
  (DEFINITION_TO_FIELDS : gmap string (list (string * string)))
  (query : string) (json_out : bool) :
  Reg.run_register_query REGISTER_DATABASE DEFINITION_TO_FIELDS query json_out
  = Finished "" ("Error: Invalid query format: '" ++ query ++ "'" ++ Str.nl) 1
  <-> ~ Notion.shape (Reg.trim query).
Proof.
  split.
  - intros Hrun Hshape.
    destruct (run_reads_trimmed REGISTER_DATABASE DEFINITION_TO_FIELDS
                query (Reg.trim query) json_out)
      as [Heq|[_ Htrim]].
    + now rewrite trim_idempotent.
    + rewrite Heq in Hrun.
      exact (shape_known _ _ _ json_out Hshape query Hrun).
    + exact (shape_known _ _ _ json_out Hshape _ Htrim).
  - apply no_shape_invalid.
Qed.

(** ** Register queries: the index *)

Lemma decimal_digits (u : Decimal.uint) :
  Str.all Str.is_digit (DecimalString.NilEmpty.string_of_uint u) = true.
Proof. induction u; [reflexivity|assumption..]. Qed.

Lemma dec_string_digits (n : Z) : Spec.digits (dec_string n).
Proof.
  split; [|apply dec_string_nonempty].
  unfold dec_string, DecimalString.NilZero.string_of_uint.
  destruct (N.to_uint (Z.to_N n)) eqn:Hu; try reflexivity;
    rewrite <- Hu; apply decimal_digits.
Qed.

Lemma zeros_digits (k : nat) (d : string) :
  Spec.digits d -> Spec.digits (fill k "0" ++ d).
Proof.
  intros [Hd Nd]. split.
  - now rewrite all_append, (all_fill _ k "0") by reflexivity.
  - destruct k; cbn [fill String.append]; [exact Nd|discriminate].
Qed.

Lemma strto_dec_text (s : string) :
  Spec.digits s ->
  strto 10 s
  = match read_digits 10 s 0 0 with
    | (_, O) => None
    | (v, S _) => Some (false, v)
    end.
Proof.
  intros [Hs Hne]. destruct s as [|c s]; [congruence|].
  cbn [Str.all] in Hs. apply andb_true_iff in Hs as [Hc Hs].
  apply strto_unsigned.
  - apply in_range_spec in Hc. lia.
  - destruct s as [|x s]; [exact I|].
    cbn [Str.all] in Hs. apply andb_true_iff in Hs as [Hx _].
    apply in_range_spec in Hx.
    rewrite (code_not_eqb x "x"), (code_not_eqb x "X");
      [reflexivity|vm_compute Str.code at 2; lia..].
Qed.

(** a decimal text, with or without zeros in front, is read as its number,
    when the number fits in an [int] *)
Lemma stoi_decimal (k : nat) (n : Z) :
  (0 <= n)%Z ->
  stoi (fill k "0" ++ dec_string n)
  = if (n <=? INT_MAX)%Z then inr n else inl out_of_range.
Proof.
  intros Hn. unfold stoi.
  rewrite strto_dec_text by apply zeros_digits, dec_string_digits.
  rewrite read_leading_zeros by lia.
  destruct (read_dec_string n (0 + k)) as [m ->]; [exact Hn|].
  unfold INT_MIN, INT_MAX.
  destruct (Z.ltb_spec n (- 2 ^ 31)); [lia|]. cbn [orb].
  destruct (Z.ltb_spec (2 ^ 31 - 1) n), (Z.leb_spec n (2 ^ 31 - 1));
    try reflexivity; lia.
Qed.

Lemma stoi_dec_string (n : Z) :
  (0 <= n)%Z ->
  stoi (dec_string n) = if (n <=? INT_MAX)%Z then inr n else inl out_of_range.
Proof. exact (stoi_decimal 0 n). Qed.

Lemma with_range_single (d : string) (k : Z -> Z -> outcome) :
  Reg.with_range d None k = Reg.with_range d (Some d) k.
Proof. unfold Reg.with_range. now destruct (stoi d). Qed.

(** X16: a single index is the range from that index to itself:
    [REG[i]] runs as [REG[i:i]] and [REG.FIELD[i]] as [REG.FIELD[i:i]], for
    every digit string [i]. *)
Theorem X16_single_index_is_a_range
  (REGISTER_DATABASE : gmap string Reg.RegisterInfo)
  (DEFINITION_TO_FIELDS : gmap string (list (string * string)))
  (reg d : string) (json_out : bool) :
  Spec.reg_token reg -> Spec.digits d ->
  let run := Reg.run_register_query REGISTER_DATABASE DEFINITION_TO_FIELDS in
  run (reg ++ "[" ++ d ++ "]") json_out
  = run (reg ++ "[" ++ d ++ ":" ++ d ++ "]") json_out
  /\ forall field,
       Spec.field_token field ->
       run (reg ++ "." ++ field ++ "[" ++ d ++ "]") json_out
       = run (reg ++ "." ++ field ++ "[" ++ d ++ ":" ++ d ++ "]") json_out.
Proof.
  intros Hreg Hd run.
  assert (H1 : "[" ++ d ++ "]" = Spec.index_text d None) by reflexivity.
  assert (H2 : "[" ++ d ++ ":" ++ d ++ "]" = Spec.index_text d (Some d)).
  { unfold Spec.index_text. now rewrite append_assoc. }
  rewrite H1, H2. unfold run. split.
  - rewrite !run_bit_range_form by (assumption || exact I).
    apply with_range_single.
  - intros field Hfield.
    rewrite !run_field_range_form by (assumption || exact I).
    apply with_range_single.
Qed.

Lemma single_index_is_a_range_witness :
  Reg.run_register_query Sample.REGISTER_DATABASE Sample.DEFINITION_TO_FIELDS
    "HCR_EL2[1]" false
  = Reg.run_register_query Sample.REGISTER_DATABASE Sample.DEFINITION_TO_FIELDS
      "HCR_EL2[1:1]" false.
Proof.
  assert (Hreg : Spec.reg_token "HCR_EL2") by (split; [reflexivity|discriminate]).
  assert (H1 : Spec.digits "1") by (split; [reflexivity|discriminate]).
  exact (proj1 (X16_single_index_is_a_range Sample.REGISTER_DATABASE
                  Sample.DEFINITION_TO_FIELDS "HCR_EL2" "1" false Hreg H1)).
Defined.

Section DecimalIndex.

Import Reg.

Variable REGISTER_DATABASE : gmap string RegisterInfo.
Variable DEFINITION_TO_FIELDS : gmap string (list (string * string)).

Abbreviation run := (run_register_query REGISTER_DATABASE DEFINITION_TO_FIELDS).

Variable reg : string.
Variables hi lo : Z.
Variables k1 k2 : nat.
Hypothesis Hreg : Spec.reg_token reg.
Hypothesis Hhi : (0 <= hi <= INT_MAX)%Z.
Hypothesis Hlo : (0 <= lo <= INT_MAX)%Z.

Abbreviation high := (fill k1 "0" ++ dec_string hi).
Abbreviation low := (fill k2 "0" ++ dec_string lo).

Lemma with_decimal_range (k : Z -> Z -> outcome) :
  with_range high (Some low) k = k (Z.min hi lo) (Z.max hi lo).
Proof.
  unfold with_range. rewrite !stoi_decimal by lia.
  destruct (Z.leb_spec hi INT_MAX); [|lia].
  destruct (Z.leb_spec lo INT_MAX); [reflexivity|lia].
Qed.

Lemma with_decimal_single (k : Z -> Z -> outcome) :
  with_range high None k = k hi hi.
Proof.
  unfold with_range. rewrite !stoi_decimal by lia.
  destruct (Z.leb_spec hi INT_MAX); [|lia].
  now rewrite Z.min_id, Z.max_id.
Qed.

Lemma run_decimal_bit_range (json_out : bool) :
  run (reg ++ "[" ++ high ++ ":" ++ low ++ "]") json_out
  = query_bit_range REGISTER_DATABASE reg (Z.min hi lo) (Z.max hi lo) json_out.
Proof.
  change ("[" ++ high ++ ":" ++ low ++ "]")
    with (Spec.index_text high (Some low)).
  rewrite run_bit_range_form
    by (try exact Hreg; apply zeros_digits, dec_string_digits).
  apply with_decimal_range.
Qed.

Lemma run_decimal_bit (json_out : bool) :
  run (reg ++ "[" ++ high ++ "]") json_out
  = query_bit_range REGISTER_DATABASE reg hi hi json_out.
Proof.
  change ("[" ++ high ++ "]") with (Spec.index_text high None).
  rewrite run_bit_range_form
    by (try exact Hreg; try exact I; apply zeros_digits, dec_string_digits).
  apply with_decimal_single.
Qed.

Lemma run_decimal_field_range (field : string) (json_out : bool) :
  Spec.field_token field ->
  run (reg ++ "." ++ field ++ "[" ++ high ++ ":" ++ low ++ "]") json_out
  = query_field_range REGISTER_DATABASE reg field
      (Z.min hi lo) (Z.max hi lo) json_out.
Proof.
  intros Hfield.
  change ("[" ++ high ++ ":" ++ low ++ "]")
    with (Spec.index_text high (Some low)).
  rewrite run_field_range_form
    by (try exact Hreg; try exact Hfield; apply zeros_digits, dec_string_digits).
  apply with_decimal_range.
Qed.

Lemma run_decimal_field_bit (field : string) (json_out : bool) :
  Spec.field_token field ->
  run (reg ++ "." ++ field ++ "[" ++ high ++ "]") json_out
  = query_field_range REGISTER_DATABASE reg field hi hi json_out.
Proof.
  intros Hfield.
  change ("[" ++ high ++ "]") with (Spec.index_text high None).
  rewrite run_field_range_form
    by (try exact Hreg; try exact Hfield; try exact I;
        apply zeros_digits, dec_string_digits).
  apply with_decimal_single.
Qed.

End DecimalIndex.

(** X17: the indexes of a query are read as decimal numbers, zeros in
    front allowed: for numbers that fit in an [int], the bit-range forms run
    the bit-range lookup and the field-range forms the field-range lookup,
    from the smaller to the larger of the two numbers. *)
Theorem X17_index_is_read_as_decimal
  (REGISTER_DATABASE : gmap string Reg.RegisterInfo)
  (DEFINITION_TO_FIELDS : gmap string (list (string * string)))
  (reg : string) (hi lo : Z) (k1 k2 : nat) (json_out : bool) :
  Spec.reg_token reg ->
  (0 <= hi <= INT_MAX)%Z -> (0 <= lo <= INT_MAX)%Z ->
  let run := Reg.run_register_query REGISTER_DATABASE DEFINITION_TO_FIELDS in
  let high := fill k1 "0" ++ dec_string hi in
  let low := fill k2 "0" ++ dec_string lo in
  run (reg ++ "[" ++ high ++ ":" ++ low ++ "]") json_out
  = Reg.query_bit_range REGISTER_DATABASE reg (Z.min hi lo) (Z.max hi lo) json_out
  /\ run (reg ++ "[" ++ high ++ "]") json_out
     = Reg.query_bit_range REGISTER_DATABASE reg hi hi json_out
  /\ forall field,
       Spec.field_token field ->
       run (reg ++ "." ++ field ++ "[" ++ high ++ ":" ++ low ++ "]") json_out
       = Reg.query_field_range REGISTER_DATABASE reg field
           (Z.min hi lo) (Z.max hi lo) json_out
       /\ run (reg ++ "." ++ field ++ "[" ++ high ++ "]") json_out
          = Reg.query_field_range REGISTER_DATABASE reg field hi hi json_out.
Proof.
  intros Hreg Hhi Hlo run high low. unfold run, high, low.
  split; [now apply run_decimal_bit_range|].
  split; [now apply (run_decimal_bit _ _ reg hi k1)|].
  intros field Hfield. split.
  - now apply run_decimal_field_range.
  - now apply (run_decimal_field_bit _ _ reg hi k1).
Qed.

Lemma index_is_read_as_decimal_witness :
  Reg.run_register_query Sample.REGISTER_DATABASE Sample.DEFINITION_TO_FIELDS
    "HCR_EL2[007]" false
  = Reg.query_bit_range Sample.REGISTER_DATABASE "HCR_EL2" 7 7 false.
Proof.
  assert (Hreg : Spec.reg_token "HCR_EL2") by (split; [reflexivity|discriminate]).
  assert (H7 : (0 <= 7 <= INT_MAX)%Z) by (unfold INT_MAX; lia).
  exact (proj1 (proj2 (X17_index_is_read_as_decimal Sample.REGISTER_DATABASE
                         Sample.DEFINITION_TO_FIELDS "HCR_EL2" 7 7 2 0 false
                         Hreg H7 H7))).
Defined.

(** X18: an index above [INT_MAX], in either place of a range or alone,
    ends the run with an [out_of_range] exception that nothing catches,
    before the register is looked up and with nothing written. *)
Theorem X18_index_beyond_int_is_not_caught
  (REGISTER_DATABASE : gmap string Reg.RegisterInfo)
  (DEFINITION_TO_FIELDS : gmap string (list (string * string)))
  (reg : string) (n : Z) (json_out : bool) :
  Spec.reg_token reg -> (INT_MAX < n)%Z ->
  let run := Reg.run_register_query REGISTER_DATABASE DEFINITION_TO_FIELDS in
  let big := dec_string n in
  run (reg ++ "[" ++ big ++ "]") json_out = Uncaught "" "" out_of_range
  /\ (forall d, Spec.digits d ->
        run (reg ++ "[" ++ big ++ ":" ++ d ++ "]") json_out
        = Uncaught "" "" out_of_range)
  /\ (forall m, (0 <= m <= INT_MAX)%Z ->
        run (reg ++ "[" ++ dec_string m ++ ":" ++ big ++ "]") json_out
        = Uncaught "" "" out_of_range)
  /\ (forall field, Spec.field_token field ->
        run (reg ++ "." ++ field ++ "[" ++ big ++ "]") json_out
        = Uncaught "" "" out_of_range).
Proof.
  intros Hreg Hn run big.
  assert (Hb : Spec.digits big) by apply dec_string_digits.
  assert (Sb : stoi big = inl out_of_range).
  { unfold big. rewrite (stoi_dec_string n) by (unfold INT_MAX in *; lia).
    destruct (Z.leb_spec n INT_MAX); [lia|reflexivity]. }
  assert (H1 : "[" ++ big ++ "]" = Spec.index_text big None) by reflexivity.
  assert (H2 : forall a b, "[" ++ a ++ ":" ++ b ++ "]"
                           = Spec.index_text a (Some b)).
  { intros a b. unfold Spec.index_text. now rewrite append_assoc. }
  unfold run. repeat split.
  - rewrite H1, run_bit_range_form by (assumption || exact I).
    unfold Reg.with_range. now rewrite Sb.
  - intros d Hd.
    rewrite H2, run_bit_range_form by (assumption || exact I).
    unfold Reg.with_range. now rewrite Sb.
  - intros m Hm.
    rewrite H2, run_bit_range_form
      by (assumption || apply dec_string_digits || exact I).
    unfold Reg.with_range.
    rewrite (stoi_dec_string m) by lia.
    destruct (Z.leb_spec m INT_MAX); [|lia]. now rewrite Sb.
  - intros field Hfield.
    rewrite H1, run_field_range_form by (assumption || exact I).
    unfold Reg.with_range. now rewrite Sb.
Qed.

Lemma index_beyond_int_is_not_caught_witness :
  Reg.run_register_query Sample.REGISTER_DATABASE Sample.DEFINITION_TO_FIELDS
    "NO_SUCH_REG[2147483648]" false
  = Uncaught "" "" out_of_range.
Proof.
  assert (Hreg : Spec.reg_token "NO_SUCH_REG")
    by (split; [reflexivity|discriminate]).
  assert (Hbig : (INT_MAX < 2147483648)%Z) by (unfold INT_MAX; lia).
  exact (proj1 (X18_index_beyond_int_is_not_caught Sample.REGISTER_DATABASE
                  Sample.DEFINITION_TO_FIELDS "NO_SUCH_REG" 2147483648 false
                  Hreg Hbig)).
Defined.

(** ** Register queries: looking a field up *)

Lemma find_first {A : Type} (p : A -> bool) (before after : list A) (x : A) :
  p x = true -> (forall y, In y before -> p y = false) ->
  List.find p (before ++ x :: after) = Some x.
Proof.
  intros Hx Hb. induction before as [|y before IH]; cbn [app List.find].
  - now rewrite Hx.
  - rewrite (Hb y (or_introl eq_refl)). apply IH.
    intros z Hz. apply Hb. now right.
Qed.

Lemma find_none_iff {A : Type} (p : A -> bool) (l : list A) :
  (forall y, In y l -> p y = false) -> List.find p l = None.
Proof.
  intros H. induction l as [|y l IH]; cbn [List.find]; [reflexivity|].
  rewrite (H y (or_introl eq_refl)). apply IH. intros z Hz. apply H. now right.
Qed.

Lemma descending_after (before after : list Reg.RegisterField)
  (found : Reg.RegisterField) :
  Notion.msb_descending (before ++ found :: after) ->
  Forall (fun fld => (Reg.field_msb fld <= Reg.field_msb found)%Z) after.
Proof.
  unfold Notion.msb_descending.
  induction before as [|b before IH]; cbn [app]; intros H;
    apply Sorted.StronglySorted_inv in H as [Hs Hall].
  - exact Hall.
  - now apply IH.
Qed.

(** X19: [REG.FIELD] on a register of the table fails when no field of
    the register has the name, and otherwise reports the first field of
    that name in table order; when the fields stand by descending most
    significant bit, that is the one with the highest. *)
Theorem X19_field_query_reports_first_field
  (REGISTER_DATABASE : gmap string Reg.RegisterInfo)
  (DEFINITION_TO_FIELDS : gmap string (list (string * string)))
  (reg field : string) (info : Reg.RegisterInfo) (json_out : bool) :
  Spec.reg_token reg -> Spec.field_token field ->
  REGISTER_DATABASE !! reg = Some info ->
  let run := Reg.run_register_query REGISTER_DATABASE DEFINITION_TO_FIELDS in
  let named (fld : Reg.RegisterField) := Reg.field_name fld = field in
  ((forall fld, In fld (Reg.fields info) -> ~ named fld) ->
   run (reg ++ "." ++ field) json_out
   = Finished ""
       ("Error: Field '" ++ field ++ "' not found in register '" ++ reg ++ "'"
        ++ Str.nl) 1)
  /\ (forall before found after,
        Reg.fields info = (before ++ found :: after)%list ->
        named found -> (forall fld, In fld before -> ~ named fld) ->
        run (reg ++ "." ++ field) false
        = Finished
            ("Register: " ++ reg ++ Str.nl
             ++ "Field Name: " ++ field ++ Str.nl
             ++ "Field Position: " ++ Reg.field_position found ++ Str.nl) "" 0
        /\ run (reg ++ "." ++ field) true
           = Finished
               ("{" ++ Reg.json_member "register_name" (Reg.escape_json reg) ++ ","
                ++ Reg.json_member "field_name" (Reg.escape_json field) ++ ","
                ++ Reg.json_member "field_position"
                     (Reg.escape_json (Reg.field_position found))
                ++ "}" ++ Str.nl) "" 0
        /\ (Notion.msb_descending (Reg.fields info) ->
            forall fld, In fld (Reg.fields info) -> named fld ->
                        (Reg.field_msb fld <= Reg.field_msb found)%Z)).
Proof.
  intros Hreg Hfield Hinfo run named. unfold run.
  split.
  - intros Hnone. rewrite run_field_form by assumption.
    unfold Reg.query_field. rewrite Hinfo, find_none_iff; [reflexivity|].
    intros fld Hin. apply String.eqb_neq. now apply Hnone.
  - intros before found after Hsplit Hfound Hbefore.
    assert (Hfind : List.find (fun fld => String.eqb (Reg.field_name fld) field)
                      (Reg.fields info) = Some found).
    { rewrite Hsplit. apply find_first; [now apply String.eqb_eq|].
      intros fld Hin. apply String.eqb_neq. now apply Hbefore. }
    rewrite !run_field_form by assumption.
    unfold Reg.query_field. rewrite Hinfo, Hfind.
    split; [reflexivity|]. split; [reflexivity|].
    intros Hsorted fld Hin Hfld. rewrite Hsplit in Hin, Hsorted.
    apply in_app_or in Hin as [Hin|[<-|Hin]].
    + now elim (Hbefore fld Hin).
    + lia.
    + apply descending_after in Hsorted.
      rewrite List.Forall_forall in Hsorted. now apply Hsorted.
Qed.

Lemma field_query_reports_first_field_witness :
  Reg.run_register_query Sample.REGISTER_DATABASE Sample.DEFINITION_TO_FIELDS
    ("HCR_EL2" ++ "." ++ "SWIO") false
  = Finished
      ("Register: " ++ "HCR_EL2" ++ Str.nl
       ++ "Field Name: " ++ "SWIO" ++ Str.nl
       ++ "Field Position: " ++ Reg.field_position Sample.swio ++ Str.nl) "" 0.
Proof.
  assert (Hreg : Spec.reg_token "HCR_EL2") by (split; [reflexivity|discriminate]).
  assert (Hfield : Spec.field_token "SWIO") by (split; [reflexivity|discriminate]).
  assert (Hinfo : Sample.REGISTER_DATABASE !! "HCR_EL2" = Some Sample.hcr_el2)
    by (vm_compute; reflexivity).
  refine (proj1 (proj2 (X19_field_query_reports_first_field
                          Sample.REGISTER_DATABASE Sample.DEFINITION_TO_FIELDS
                          "HCR_EL2" "SWIO" Sample.hcr_el2 false Hreg Hfield Hinfo)
                   [Sample.res0_hi; Sample.wide] Sample.swio [Sample.vm]
                   eq_refl eq_refl _)).
  intros fld [<-|[<-|[]]]; discriminate.
Defined.

(** ** Register queries: which fields a bit range selects *)

Lemma overlaps_shares_bit (start end_ : Z) (fld : Reg.RegisterField) :
  (start <= end_)%Z -> (Reg.field_lsb fld <= Reg.field_msb fld)%Z ->
  Reg.overlaps start end_ fld = true
  <-> exists b, (start <= b <= end_)%Z /\ Notion.holds_bit fld b.
Proof.
  intros Hrange Hfld. unfold Reg.overlaps, Notion.holds_bit.
  rewrite andb_true_iff, Z.leb_le, Z.geb_le. split.
  - intros [H1 H2]. exists (Z.max (Reg.field_lsb fld) start). lia.
  - intros (b & Hb & Hf). lia.
Qed.

(** X20: for fields whose least significant bit is not above their most
    significant one, the bit-range lookup selects exactly the fields that
    hold some bit of the range; it fails with status 1 exactly when no
    field holds one, and returns 0 otherwise. *)
Theorem X20_bit_range_selects_fields_sharing_a_bit
  (REGISTER_DATABASE : gmap string Reg.RegisterInfo)
  (reg : string) (info : Reg.RegisterInfo) (start end_ : Z) (json_out : bool) :
  REGISTER_DATABASE !! reg = Some info ->
  (start <= end_)%Z ->
  (forall fld, In fld (Reg.fields info) ->
               (Reg.field_lsb fld <= Reg.field_msb fld)%Z) ->
  let shares (fld : Reg.RegisterField) :=
    exists b, (start <= b <= end_)%Z /\ Notion.holds_bit fld b in
  (forall fld,
      In fld (List.filter (Reg.overlaps start end_) (Reg.fields info))
      <-> In fld (Reg.fields info) /\ shares fld)
  /\ (Notion.status_of
        (Reg.query_bit_range REGISTER_DATABASE reg start end_ json_out) = Some 1%Z
      <-> forall fld, In fld (Reg.fields info) -> ~ shares fld)
  /\ (Notion.status_of
        (Reg.query_bit_range REGISTER_DATABASE reg start end_ json_out) = Some 0%Z
      <-> exists fld, In fld (Reg.fields info) /\ shares fld).
Proof.
  intros Hinfo Hrange Hwf shares.
  assert (Hmem : forall fld,
             In fld (List.filter (Reg.overlaps start end_) (Reg.fields info))
             <-> In fld (Reg.fields info) /\ shares fld).
  { intros fld. rewrite List.filter_In. split.
    - intros [Hin Ho]. split; [exact Hin|].
      now apply overlaps_shares_bit; auto.
    - intros [Hin Hs]. split; [exact Hin|].
      now apply overlaps_shares_bit; auto. }
  split; [exact Hmem|].
  unfold Reg.query_bit_range. rewrite Hinfo. cbv zeta.
  destruct (List.filter (Reg.overlaps start end_) (Reg.fields info))
    as [|first_field others] eqn:Hsel.
  - cbn [Notion.status_of]. split; split; try discriminate; try reflexivity.
    + intros _ fld Hin Hs. now apply (proj2 (Hmem fld) (conj Hin Hs)).
    + intros (fld & Hin & Hs). now elim (proj2 (Hmem fld) (conj Hin Hs)).
  - assert (Hfirst : In first_field (Reg.fields info) /\ shares first_field)
      by (apply Hmem; now left).
    destruct (start =? end_)%Z; cbn [Notion.status_of];
      (split; split; try discriminate; try reflexivity;
       [intros Hnone; now elim (Hnone first_field (proj1 Hfirst) (proj2 Hfirst))
       |intros _; now exists first_field]).
Qed.

Lemma bit_range_selects_fields_sharing_a_bit_witness :
  Notion.status_of
    (Reg.query_bit_range Sample.REGISTER_DATABASE "HCR_EL2" 1 3 false) = Some 0%Z.
Proof.
  assert (Hinfo : Sample.REGISTER_DATABASE !! "HCR_EL2" = Some Sample.hcr_el2)
    by (vm_compute; reflexivity).
  assert (Hwf : forall fld, In fld (Reg.fields Sample.hcr_el2) ->
                  (Reg.field_lsb fld <= Reg.field_msb fld)%Z).
  { intros fld [<-|[<-|[<-|[<-|[]]]]]; cbn; lia. }
  apply (proj2 (proj2 (proj2 (X20_bit_range_selects_fields_sharing_a_bit
                                Sample.REGISTER_DATABASE "HCR_EL2" Sample.hcr_el2
                                1 3 false Hinfo ltac:(lia) Hwf)))).
  exists Sample.wide. split; [cbn; tauto|].
  exists 2%Z. unfold Notion.holds_bit. cbn. lia.
Defined.

(** ** Register queries: a register that the table does not have *)

(** X21: a register token that the table does not have gives the
    register-not-found diagnostic and status 1 in every form of the query,
    whatever the field name and the indexes (that fit in an [int]) are. *)
Theorem X21_unknown_register_in_every_form
  (REGISTER_DATABASE : gmap string Reg.RegisterInfo)
  (DEFINITION_TO_FIELDS : gmap string (list (string * string)))
  (reg field : string) (hi lo : Z) (json_out : bool) :
  Spec.reg_token reg -> Spec.field_token field ->
  (0 <= hi <= INT_MAX)%Z -> (0 <= lo <= INT_MAX)%Z ->
  REGISTER_DATABASE !! reg = None ->
  let run := Reg.run_register_query REGISTER_DATABASE DEFINITION_TO_FIELDS in
  let missing :=
    Finished "" ("Error: Register '" ++ reg ++ "' not found in database."
                 ++ Str.nl) 1 in
  run (reg ++ "." ++ field) json_out = missing
  /\ run (reg ++ "." ++ field ++ "[" ++ dec_string hi ++ ":" ++ dec_string lo ++ "]")
       json_out = missing
  /\ run (reg ++ "." ++ field ++ "[" ++ dec_string hi ++ "]") json_out = missing
  /\ run (reg ++ "[" ++ dec_string hi ++ ":" ++ dec_string lo ++ "]") json_out
     = missing
  /\ run (reg ++ "[" ++ dec_string hi ++ "]") json_out = missing
  /\ (Reg.allowed_def reg = false -> run reg json_out = missing).
Proof.
  intros Hreg Hfield Hhi Hlo Hnone run missing. unfold run, missing.
  repeat split.
  - rewrite run_field_form by assumption.
    unfold Reg.query_field. now rewrite Hnone.
  - rewrite (run_decimal_field_range _ _ reg hi lo 0 0) by assumption.
    unfold Reg.query_field_range. now rewrite Hnone.
  - rewrite (run_decimal_field_bit _ _ reg hi 0) by assumption.
    unfold Reg.query_field_range. now rewrite Hnone.
  - rewrite (run_decimal_bit_range _ _ reg hi lo 0 0) by assumption.
    unfold Reg.query_bit_range. now rewrite Hnone.
  - rewrite (run_decimal_bit _ _ reg hi 0) by assumption.
    unfold Reg.query_bit_range. now rewrite Hnone.
  - intros Hdef. rewrite run_register_form by assumption.
    unfold Reg.query_register. now rewrite Hnone.
Qed.

Lemma unknown_register_in_every_form_witness :
  Reg.run_register_query Sample.REGISTER_DATABASE Sample.DEFINITION_TO_FIELDS
    ("SCTLR_EL1" ++ "." ++ "M") true
  = Finished "" ("Error: Register '" ++ "SCTLR_EL1" ++ "' not found in database."
                 ++ Str.nl) 1.
Proof.
  assert (Hreg : Spec.reg_token "SCTLR_EL1") by (split; [reflexivity|discriminate]).
  assert (Hfield : Spec.field_token "M") by (split; [reflexivity|discriminate]).
  assert (H0 : (0 <= 0 <= INT_MAX)%Z) by (unfold INT_MAX; lia).
  assert (Hnone : Sample.REGISTER_DATABASE !! "SCTLR_EL1" = None)
    by (vm_compute; reflexivity).
  exact (proj1 (X21_unknown_register_in_every_form Sample.REGISTER_DATABASE
                  Sample.DEFINITION_TO_FIELDS "SCTLR_EL1" "M" 0 0 true
                  Hreg Hfield H0 H0 Hnone)).
Defined.

(** ** Register queries: a field by its name and by its name and range *)

(** X22: asking for a field by name and range, with the range of the
    first field of that name, in either order of the endpoints (or with the
    single bit when the field is one bit wide), prints what asking for the
    field by name alone prints. *)
Theorem X22_field_range_agrees_with_field
  (REGISTER_DATABASE : gmap string Reg.RegisterInfo)
  (DEFINITION_TO_FIELDS : gmap string (list (string * string)))
  (reg field : string) (info : Reg.RegisterInfo)
  (before after : list Reg.RegisterField) (found : Reg.RegisterField) :
  Spec.reg_token reg -> Spec.field_token field ->
  REGISTER_DATABASE !! reg = Some info ->
  Reg.fields info = (before ++ found :: after)%list ->
  Reg.field_name found = field ->
  (forall fld, In fld before -> Reg.field_name fld <> field) ->
  (0 <= Reg.field_lsb found <= Reg.field_msb found)%Z ->
  (Reg.field_msb found <= INT_MAX)%Z ->
  let run := Reg.run_register_query REGISTER_DATABASE DEFINITION_TO_FIELDS in
  let msb := dec_string (Reg.field_msb found) in
  let lsb := dec_string (Reg.field_lsb found) in
  run (reg ++ "." ++ field ++ "[" ++ msb ++ ":" ++ lsb ++ "]") false
  = run (reg ++ "." ++ field) false
  /\ run (reg ++ "." ++ field ++ "[" ++ lsb ++ ":" ++ msb ++ "]") false
     = run (reg ++ "." ++ field) false
  /\ (Reg.field_lsb found = Reg.field_msb found ->
      run (reg ++ "." ++ field ++ "[" ++ msb ++ "]") false
      = run (reg ++ "." ++ field) false).
Proof.
  intros Hreg Hfield Hinfo Hsplit Hname Hbefore Hrange Hmax run msb lsb.
  unfold run, msb, lsb.
  assert (Hfield_run :
            Reg.run_register_query REGISTER_DATABASE DEFINITION_TO_FIELDS
              (reg ++ "." ++ field) false
            = Reg.query_field_range REGISTER_DATABASE reg field
                (Reg.field_lsb found) (Reg.field_msb found) false).
  { rewrite run_field_form by assumption.
    unfold Reg.query_field, Reg.query_field_range. rewrite Hinfo, Hsplit.
    rewrite (find_first (fun fld => String.eqb (Reg.field_name fld) field)).
    - rewrite find_first; [reflexivity| |].
      + now rewrite Hname, String.eqb_refl, !Z.eqb_refl.
      + intros fld Hin. apply (Hbefore fld) in Hin.
        apply String.eqb_neq in Hin. now rewrite Hin.
    - now apply String.eqb_eq.
    - intros fld Hin. apply String.eqb_neq. now apply Hbefore. }
  rewrite Hfield_run. repeat split.
  - rewrite (run_decimal_field_range _ _ reg (Reg.field_msb found)
               (Reg.field_lsb found) 0 0) by (assumption || lia).
    now rewrite Z.min_r, Z.max_l by lia.
  - rewrite (run_decimal_field_range _ _ reg (Reg.field_lsb found)
               (Reg.field_msb found) 0 0) by (assumption || lia).
    now rewrite Z.min_l, Z.max_r by lia.
  - intros Heq.
    rewrite (run_decimal_field_bit _ _ reg (Reg.field_msb found) 0)
      by (assumption || lia).
    now rewrite Heq.
Qed.

Lemma field_range_agrees_with_field_witness :
  Reg.run_register_query Sample.REGISTER_DATABASE Sample.DEFINITION_TO_FIELDS
    ("HCR_EL2" ++ "." ++ "WIDE" ++ "[" ++ dec_string 3 ++ ":" ++ dec_string 0 ++ "]")
    false
  = Reg.run_register_query Sample.REGISTER_DATABASE Sample.DEFINITION_TO_FIELDS
      ("HCR_EL2" ++ "." ++ "WIDE") false.
Proof.
  assert (Hreg : Spec.reg_token "HCR_EL2") by (split; [reflexivity|discriminate]).
  assert (Hfield : Spec.field_token "WIDE") by (split; [reflexivity|discriminate]).
  assert (Hinfo : Sample.REGISTER_DATABASE !! "HCR_EL2" = Some Sample.hcr_el2)
    by (vm_compute; reflexivity).
  assert (Hbefore : forall fld, In fld [Sample.res0_hi] ->
                      Reg.field_name fld <> "WIDE").
  { intros fld [<-|[]]. discriminate. }
  assert (Hrange : (0 <= Reg.field_lsb Sample.wide <= Reg.field_msb Sample.wide)%Z)
    by (cbn; lia).
  assert (Hmax : (Reg.field_msb Sample.wide <= INT_MAX)%Z)
    by (unfold INT_MAX; cbn; lia).
  exact (proj1 (X22_field_range_agrees_with_field Sample.REGISTER_DATABASE
                  Sample.DEFINITION_TO_FIELDS "HCR_EL2" "WIDE" Sample.hcr_el2
                  [Sample.res0_hi] [Sample.swio; Sample.vm] Sample.wide
                  Hreg Hfield Hinfo eq_refl eq_refl Hbefore Hrange Hmax)).
Defined.

(** ** JSON escaping *)

Lemma escape_json_append (a b : string) :
  Reg.escape_json (a ++ b) = Reg.escape_json a ++ Reg.escape_json b.
Proof.
  induction a as [|c a IH]; cbn [String.append Reg.escape_json]; [reflexivity|].
  now rewrite IH, append_assoc.
Qed.

Lemma copied_char_code (c : ascii) :
  Notion.copied_char c = true
  <-> (32 <= Str.code c)%Z /\ Str.code c <> 34%Z /\ Str.code c <> 92%Z.
Proof.
  unfold Notion.copied_char.
  rewrite !andb_true_iff, !negb_true_iff, Z.leb_le, !Z.eqb_neq. tauto.
Qed.

Lemma escape_char_copied (c : ascii) :
  Notion.copied_char c = true -> Reg.escape_char c = String c "".
Proof.
  intros (H32 & H34 & H92)%copied_char_code. unfold Reg.escape_char.
  repeat match goal with
         | |- context [(Str.code c =? ?k)%Z] =>
             destruct (Z.eqb_spec (Str.code c) k); [lia|]
         end.
  destruct (Z.ltb_spec (Str.code c) 32); [lia|reflexivity].
Qed.

(** every other character is written as a backslash and at least one more
    character *)
Lemma escape_char_escaped (c : ascii) :
  Notion.copied_char c = false ->
  exists e t, Reg.escape_char c = String "\" (String e t)
              /\ (32 <= Str.code e)%Z
              /\ Str.all Notion.copied_char t = true.
Proof.
  intros Hc. unfold Reg.escape_char, Reg.bs, Reg.dq.
  repeat match goal with
         | |- context [(Str.code c =? ?k)%Z] =>
             destruct (Z.eqb_spec (Str.code c) k);
             [eexists _, ""; cbn [String.append]; repeat split; vm_compute; discriminate|]
         end.
  destruct (Z.ltb_spec (Str.code c) 32).
  - exists "u"%char, (hex_string (Str.code c)). cbn [String.append].
    repeat split; [vm_compute; discriminate|].
    apply (all_impl (fun c => Str.is_digit c || Str.in_range 97 102 c));
      [|apply hex_string_digits].
    intros x Hx%hex_char_code. apply copied_char_code. lia.
  - exfalso. apply not_true_iff_false in Hc. apply Hc.
    apply copied_char_code. lia.
Qed.

Lemma escape_json_length (s : string) :
  (String.length s <= String.length (Reg.escape_json s))%nat
  /\ (String.length (Reg.escape_json s) = String.length s ->
      Str.all Notion.copied_char s = true).
Proof.
  induction s as [|c s [IHle IHeq]]; cbn [Reg.escape_json String.length Str.all].
  - split; [lia|reflexivity].
  - rewrite length_append.
    destruct (Notion.copied_char c) eqn:Hc.
    + rewrite (escape_char_copied c Hc). cbn [String.length].
      split; [lia|]. intros H. apply IHeq. lia.
    + destruct (escape_char_escaped c Hc) as (e & t & -> & _).
      cbn [String.length]. split; [lia|]. intros H. lia.
Qed.

Lemma escape_json_copied (s : string) :
  Str.all Notion.copied_char s = true -> Reg.escape_json s = s.
Proof.
  induction s as [|c s IH]; cbn [Str.all Reg.escape_json]; [reflexivity|].
  intros [Hc Hs]%andb_true_iff.
  now rewrite (escape_char_copied c Hc), (IH Hs).
Qed.

Lemma reg_char_copied (c : ascii) :
  Reg.is_reg_char c = true -> Notion.copied_char c = true.
Proof. intros H%reg_char_code. apply copied_char_code. lia. Qed.

(** X23: [escape_json] returns its input unchanged exactly when the
    input has no control character, no double quote and no backslash, so
    register and field tokens are written as they are; the result is never
    shorter than the input. *)
Theorem X23_escape_json_copies_plain_text (s : string) :
  (Reg.escape_json s = s <-> Str.all Notion.copied_char s = true)
  /\ (Spec.reg_token s -> Reg.escape_json s = s)
  /\ (Spec.field_token s -> Reg.escape_json s = s)
  /\ (String.length s <= String.length (Reg.escape_json s))%nat.
Proof.
  split; [split|split; [|split]].
  - intros H. apply escape_json_length. now rewrite H.
  - apply escape_json_copied.
  - intros [H _]. apply escape_json_copied.
    exact (all_impl _ _ _ reg_char_copied H).
  - intros [H _]. apply escape_json_copied.
    apply (all_impl Reg.is_field_char); [|exact H].
    intros c Hc. now apply reg_char_copied, field_char_is_reg_char.
  - apply escape_json_length.
Qed.

Lemma quotable_copied (a b : string) :
  Str.all Notion.copied_char a = true ->
  Notion.quotable (a ++ b) = Notion.quotable b.
Proof.
  induction a as [|c a IH]; cbn [Str.all String.append]; [reflexivity|].
  intros [Hc Ha]%andb_true_iff. cbn [Notion.quotable].
  pose proof (proj1 (copied_char_code c) Hc) as (_ & _ & H92).
  destruct (Z.eqb_spec (Str.code c) 92); [contradiction|].
  now rewrite Hc, (IH Ha).
Qed.

(** X24: the result of [escape_json] can stand between two double
    quotes: it has no control character, and a double quote or a backslash
    occurs in it only right after a backslash that escapes it. *)
Theorem X24_escape_json_is_quotable (s : string) :
  Notion.quotable (Reg.escape_json s) = true.
Proof.
  induction s as [|c s IH]; cbn [Reg.escape_json]; [reflexivity|].
  destruct (Notion.copied_char c) eqn:Hc.
  - rewrite (escape_char_copied c Hc).
    change (String c "" ++ ?x) with (String c "" ++ x).
    now rewrite quotable_copied by (cbn [Str.all]; now rewrite Hc).
  - destruct (escape_char_escaped c Hc) as (e & t & -> & He & Ht).
    cbn [String.append Notion.quotable].
    change (Str.code "\" =? 92)%Z with true. cbv iota.
    apply Z.leb_le in He. now rewrite He, quotable_copied.
Qed.

(** X25: a control character without a short escape is written as a
    backslash, [u] and its code in hexadecimal without padding, four
    characters at most, not the six of the JSON form; so the character 0x01
    followed by [f] and the character 0x1f alone are escaped to the same
    text, and [escape_json] is not injective. *)
Theorem X25_escape_json_control_characters :
  (forall c : ascii,
      (Str.code c < 32)%Z -> ~ In (Str.code c) [8; 9; 10; 12; 13]%Z ->
      Reg.escape_char c = Reg.bs ++ "u" ++ hex_string (Str.code c)
      /\ (String.length (Reg.escape_char c) <= 4)%nat)
  /\ (forall s : string,
        Reg.escape_json (String (ascii_of_nat 1) (String "f" s))
        = Reg.escape_json (String (ascii_of_nat 31) s))
  /\ exists a b : string, a <> b /\ Reg.escape_json a = Reg.escape_json b.
Proof.
  split; [|split].
  - intros c Hlow Hnamed. cbn [In] in Hnamed.
    assert (Hesc : Reg.escape_char c = Reg.bs ++ "u" ++ hex_string (Str.code c)).
    { unfold Reg.escape_char.
      repeat match goal with
             | |- context [(Str.code c =? ?k)%Z] =>
                 destruct (Z.eqb_spec (Str.code c) k); [lia|]
             end.
      destruct (Z.ltb_spec (Str.code c) 32); [reflexivity|lia]. }
    split; [exact Hesc|]. rewrite Hesc.
    assert (Hc : exists n, c = ascii_of_nat n /\ (n < 32)%nat).
    { exists (nat_of_ascii c). split; [now rewrite ascii_nat_embedding|].
      unfold Str.code in Hlow. rewrite <- (Nat2Z.id (nat_of_ascii c)).
      unfold nat_of_ascii. lia. }
    destruct Hc as (n & -> & Hn).
    do 32 (destruct n as [|n]; [vm_compute; lia|]). lia.
  - intros s. reflexivity.
  - exists (String (ascii_of_nat 1) "f"), (String (ascii_of_nat 31) "").
    split; [discriminate|reflexivity].
Qed.
